(** * Slot-game Monte Carlo simulator: a shallow embedding of
      [logic-testing/slot-simulator.py] and the properties of its spin
      evaluation engine and statistics aggregator.

    Conventions of the embedding.
    - Python numbers ([int] and binary64 [float]) are values of a carrier
      [N] with the operations of the class [PyNum].  Two instances are given:
      exact rationals ([Q_num], no rounding) and IEEE binary64 ([float_num],
      the arithmetic CPython performs on floats).
    - Python exceptions are the constructors of [exn]; a computation is a
      [result].
    - Inner lists of a screen (the columns) are mutable objects: they live in
      a [heap] and a screen is the list of their locations.  The outer list
      of a screen is never mutated by the program and is kept as a value.
    - [dict]s are [gmap]s; the raw paytable, of which the iteration order
      matters, is an association list in insertion order.  The [set]
      [regular_symbols] is the duplicate-free list of its elements in the
      order the loop of [_check_line_win] meets them; [_parse_paytable]
      builds it in insertion order, and the properties of line evaluation
      are stated for every order.
    - The random generator is a stream of raw draws, [randrange(n)] being
      the next draw modulo [n].
    - Printing is left out: [run_simulation] returns the figures of the
      report it prints, or the exception that ends it.
    - Strings are lists of 8-bit characters.  On ASCII strings of at most
      4300 characters [isdigit] and [int_of_digits] are [str.isdigit] and
      [int]; the properties of paytable parsing take field keys of this kind
      ([plain_keys]) as a hypothesis. *)

From Stdlib Require Import ZArith QArith Lia Lqa Ascii.
From Stdlib Require Import Floats.PrimFloat Numbers.Cyclic.Int63.Uint63.
From Stdlib Require Import Sorting.Sorted.
From stdpp Require Import base option list gmap strings pretty.

Local Open Scope nat_scope.

(** ** Exceptions and results *)

Inductive exn : Set :=
  | IndexError
  | ZeroDivisionError
  | ValueError
  | TypeError.

Inductive result (A : Type) : Type :=
  | Ok (a : A)
  | Raise (e : exn).
Arguments Ok {A} a.
Arguments Raise {A} e.

Global Instance result_ret : MRet result := λ A a, Ok a.
Global Instance result_bind : MBind result := λ A B f m,
  match m with
  | Ok a => f a
  | Raise e => Raise e
  end.

Definition is_Ok {A} (m : result A) : Prop := ∃ a, m = Ok a.

(** [for x in xs: acc = body(acc, x)] where the body may raise. *)
Fixpoint foldM {A B} (body : B → A → result B) (acc : B) (xs : list A) : result B :=
  match xs with
  | [] => Ok acc
  | x :: xs' => acc' ← body acc x; foldM body acc' xs'
  end.

(** [[f(x) for x in xs]] where [f] may raise. *)
Fixpoint mapM' {A B} (f : A → result B) (xs : list A) : result (list B) :=
  match xs with
  | [] => Ok []
  | x :: xs' => y ← f x; ys ← mapM' f xs'; Ok (y :: ys)
  end.

(** [l[i]] for a Python integer [i]: negative indices count from the end. *)
Definition py_index {A} (l : list A) (i : Z) : result A :=
  let j := if (i <? 0)%Z then (i + Z.of_nat (length l))%Z else i in
  if (j <? 0)%Z then Raise IndexError
  else from_option Ok (Raise IndexError) (l !! Z.to_nat j).

(** [l[i]] for an index known to be a natural number. *)
Definition nat_index {A} (l : list A) (i : nat) : result A :=
  from_option Ok (Raise IndexError) (l !! i).

(** ** Numbers *)

Class PyNum (N : Type) := {
  of_Z : Z → N;
  num_add : N → N → N;
  num_sub : N → N → N;
  num_mul : N → N → N;
  num_quot : N → N → N;
  num_is_zero : N → bool;
  num_ltb : N → N → bool;
  num_root : N → N;
}.

Declare Scope num_scope.
Delimit Scope num_scope with num.
Notation "x + y" := (num_add x y) : num_scope.
Notation "x - y" := (num_sub x y) : num_scope.
Notation "x * y" := (num_mul x y) : num_scope.
Notation "x <? y" := (num_ltb x y) : num_scope.

(** Exact rational arithmetic.  The square root is not rational: it is any
    function [qroot]. *)
Definition Q_num (qroot : Q → Q) : PyNum Q := {|
  of_Z := inject_Z;
  num_add := Qplus;
  num_sub := Qminus;
  num_mul := Qmult;
  num_quot := Qdiv;
  num_is_zero := λ x, Qeq_bool x 0;
  num_ltb := λ x y, negb (Qle_bool y x);
  num_root := qroot;
|}.

(** IEEE 754 binary64, the arithmetic of Python's [float].  Integers are
    converted exactly when below 2^53 in absolute value. *)
Definition float_of_Z (z : Z) : float :=
  match z with
  | Z0 => PrimFloat.zero
  | Zpos _ => PrimFloat.of_uint63 (Uint63.of_Z z)
  | Zneg p => PrimFloat.opp (PrimFloat.of_uint63 (Uint63.of_Z (Zpos p)))
  end.

Global Instance float_num : PyNum float := {|
  of_Z := float_of_Z;
  num_add := PrimFloat.add;
  num_sub := PrimFloat.sub;
  num_mul := PrimFloat.mul;
  num_quot := PrimFloat.div;
  num_is_zero := λ x, PrimFloat.eqb x PrimFloat.zero;
  num_ltb := PrimFloat.ltb;
  num_root := PrimFloat.sqrt;
|}.

(** ** Strings *)

(** [c.isdigit()] for an ASCII character. *)
Definition is_digit (c : ascii) : bool :=
  let n := nat_of_ascii c in (48 <=? n)%nat && (n <=? 57)%nat.

(** [s.isdigit()]: non-empty and made of digits only. *)
Definition isdigit (s : string) : bool :=
  match s with
  | String.EmptyString => false
  | _ => forallb is_digit (String.list_ascii_of_string s)
  end.

(** [int(s)] for a string that satisfies [isdigit]. *)
Definition int_of_digits (s : string) : nat :=
  fold_left (λ acc c, 10 * acc + (nat_of_ascii c - 48)) (String.list_ascii_of_string s) 0.

(** [l.count(x)] *)
Definition py_count (x : string) (l : list string) : nat :=
  length (filter (λ s, s = x) l).

(** [any(sym == x for sym in l)] *)
Definition py_any_eq (x : string) (l : list string) : bool :=
  existsb (λ sym, bool_decide (sym = x)) l.

(** [sum(xs)] for a list of counts. *)
Definition py_sum (xs : list nat) : nat := foldr Nat.add 0 xs.

(** [s.add(x)] on a set kept as the duplicate-free list of its elements. *)
Definition set_add (x : string) (s : list string) : list string :=
  if bool_decide (x ∈ s) then s else s ++ [x].

(** ** The object store *)

Abbreviation loc := nat (only parsing).
Abbreviation heap := (list (list string)) (only parsing).
Abbreviation grid := (list nat) (only parsing).
Abbreviation screen := (list (list string)) (only parsing).

Definition deref (h : heap) (l : loc) : list string := default [] (h !! l).

(** A new list object. *)
Definition alloc (h : heap) (v : list string) : loc * heap := (length h, h ++ [v]).

(** The contents of a screen, read through the store. *)
Definition read_grid (h : heap) (g : grid) : screen := map (deref h) g.

(** [lst[row] = v] on the list object at [l]. *)
Definition set_item (h : heap) (l : loc) (row : nat) (v : string) : result heap :=
  if bool_decide (row < length (deref h l))
  then Ok (<[l := <[row := v]> (deref h l)]> h)
  else Raise IndexError.

(** The random generator: a stream of raw draws. *)
Abbreviation rng := (nat → nat) (only parsing).

(** [random.randrange(n)] *)
Definition randrange (n : nat) (g : rng) : result (nat * rng) :=
  match n with
  | 0 => Raise ValueError
  | _ => Ok (g 0 mod n, λ k, g (S k))
  end.

(** ** The simulator *)

(** A value stored in the raw paytable: a payout, or an annotation such as
    the ["note"] of the star scatter. *)
Inductive pyval (N : Type) : Type :=
  | Num (x : N)
  | Str (s : string).
Arguments Num {N} x.
Arguments Str {N} s.

(** The configuration dictionary handed to [SlotGameSimulator.__init__];
    an absent optional key is [None]. *)
Record Config (N : Type) : Type := mkConfig {
  c_paytable : list (string * list (string * pyval N));
  c_virtual_reel_strips : list (list string);
  c_bet_per_line : option N;
  c_num_lines : option N;
  c_base_bet_for_paytable_display : option N;
  c_wild_symbol : option string;
  c_scatter_symbols : option (list string);
  c_wild_reels : option (list Z);
  c_star_scatter_reels : option (list Z);
}.
Arguments mkConfig {N}.
Arguments c_paytable {N}.
Arguments c_virtual_reel_strips {N}.
Arguments c_bet_per_line {N}.
Arguments c_num_lines {N}.
Arguments c_base_bet_for_paytable_display {N}.
Arguments c_wild_symbol {N}.
Arguments c_scatter_symbols {N}.
Arguments c_wild_reels {N}.
Arguments c_star_scatter_reels {N}.

(** The attributes of a [SlotGameSimulator] that are fixed after
    construction. *)
Record Simulator (N : Type) : Type := mkSimulator {
  virtual_reel_strips : list (list string);
  num_reels : nat;
  bet_per_line : N;
  num_lines : N;
  total_bet_per_spin : N;
  base_bet_for_paytable_display : N;
  base_bet_per_line_display : N;
  wild_symbol : string;
  scatter_symbols : list string;
  wild_reels : list Z;
  star_scatter_reels : list Z;
  line_pays : gmap (string * nat) (pyval N);
  scatter_pays : gmap string (gmap nat (pyval N));
  regular_symbols : list string;
  paylines : list (list (nat * nat));
}.
Arguments mkSimulator {N}.
Arguments virtual_reel_strips {N}.
Arguments num_reels {N}.
Arguments bet_per_line {N}.
Arguments num_lines {N}.
Arguments total_bet_per_spin {N}.
Arguments base_bet_for_paytable_display {N}.
Arguments base_bet_per_line_display {N}.
Arguments wild_symbol {N}.
Arguments scatter_symbols {N}.
Arguments wild_reels {N}.
Arguments star_scatter_reels {N}.
Arguments line_pays {N}.
Arguments scatter_pays {N}.
Arguments regular_symbols {N}.
Arguments paylines {N}.

(** What [_calculate_spin_payout] updates while it runs: its two locals and
    [self.payout_contributions], a [defaultdict(float)] whose keys are combo
    keys ([None] is the key of "no combination"). *)
Record spin_state (N : Type) : Type := mkSpin {
  current_spin_payout : N;
  is_winning_spin : bool;
  payout_contributions : gmap (option string) N;
}.
Arguments mkSpin {N}.
Arguments current_spin_payout {N}.
Arguments is_winning_spin {N}.
Arguments payout_contributions {N}.

(** The accumulators of [run_simulation]. *)
Record stats (N : Type) : Type := mkStats {
  total_payout : N;
  sum_of_squared_payouts : N;
  total_winning_spins : nat;
  max_win : N;
  contributions : gmap (option string) N;
}.
Arguments mkStats {N}.
Arguments total_payout {N}.
Arguments sum_of_squared_payouts {N}.
Arguments total_winning_spins {N}.
Arguments max_win {N}.
Arguments contributions {N}.

(** The figures [run_simulation] prints once the loop is over. *)
Record report (N : Type) : Type := mkReport {
  r_total_spins : Z;
  r_total_bet : N;
  r_total_payout : N;
  r_rtp : N;
  r_variance : N;
  r_std_dev : N;
  r_hit_frequency : N;
  r_average_win : N;
  r_max_win : N;
  r_contributions : gmap (option string) N;
}.
Arguments mkReport {N}.
Arguments r_total_spins {N}.
Arguments r_total_bet {N}.
Arguments r_total_payout {N}.
Arguments r_rtp {N}.
Arguments r_variance {N}.
Arguments r_std_dev {N}.
Arguments r_hit_frequency {N}.
Arguments r_average_win {N}.
Arguments r_max_win {N}.
Arguments r_contributions {N}.

Definition num_rows : nat := 3.

(** [_define_paylines] *)
Definition _define_paylines : list (list (nat * nat)) :=
  [ [(0, 1); (1, 1); (2, 1); (3, 1); (4, 1)];
    [(0, 0); (1, 0); (2, 0); (3, 0); (4, 0)];
    [(0, 2); (1, 2); (2, 2); (3, 2); (4, 2)];
    [(0, 0); (1, 1); (2, 2); (3, 1); (4, 0)];
    [(0, 2); (1, 1); (2, 0); (3, 1); (4, 2)];
    [(0, 0); (1, 0); (2, 1); (3, 2); (4, 2)];
    [(0, 2); (1, 2); (2, 1); (3, 0); (4, 0)];
    [(0, 1); (1, 2); (2, 2); (3, 2); (4, 1)];
    [(0, 1); (1, 0); (2, 0); (3, 0); (4, 1)];
    [(0, 0); (1, 1); (2, 1); (3, 1); (4, 0)] ].

Section Model.
Context {N : Type} `{!PyNum N}.

(** [a / b] *)
Definition py_div (a b : N) : result N :=
  if num_is_zero b then Raise ZeroDivisionError else Ok (num_quot a b).

(** [math.sqrt(x)] *)
Definition py_sqrt (x : N) : result N :=
  if (x <? of_Z 0)%num then Raise ValueError else Ok (num_root x).

(** A paytable value used as a number; a string operand is a [TypeError]. *)
Definition as_num (v : pyval N) : result N :=
  match v with
  | Num x => Ok x
  | Str _ => Raise TypeError
  end.

(** *** [_parse_paytable] *)

(** [{int(k): v for k, v in data.items() if k.isdigit()}] *)
Definition digit_entries (data : list (string * pyval N)) : gmap nat (pyval N) :=
  fold_left (λ d kv, if isdigit kv.1 then <[int_of_digits kv.1 := kv.2]> d else d)
            data ∅.

(** The inner loop of the regular branch (lines 49-51). *)
Definition add_line_pays (symbol : string) (data : list (string * pyval N))
    (lp : gmap (string * nat) (pyval N)) : gmap (string * nat) (pyval N) :=
  fold_left (λ lp kv, if isdigit kv.1 then <[(symbol, int_of_digits kv.1) := kv.2]> lp else lp)
            data lp.

Definition parse_state : Type :=
  gmap (string * nat) (pyval N) * gmap string (gmap nat (pyval N)) * list string.

(** One iteration of the first loop (lines 42-51). *)
Definition parse_entry (wild : string) (scatters : list string)
    (acc : parse_state) (entry : string * list (string * pyval N)) : parse_state :=
  let '(lp, sp, rs) := acc in
  let '(symbol, data) := entry in
  if bool_decide (symbol = wild) then acc
  else if bool_decide (symbol ∈ scatters) then (lp, <[symbol := digit_entries data]> sp, rs)
  else (add_line_pays symbol data lp, sp, set_add symbol rs).

(** One iteration of the second loop (lines 53-55). *)
Definition parse_regular (wild : string) (scatters : list string)
    (acc : parse_state) (sym_name : string) : parse_state :=
  let '(lp, sp, rs) := acc in
  if negb (bool_decide (sym_name ∈ scatters)) && negb (bool_decide (sym_name = wild))
  then (lp, sp, set_add sym_name rs)
  else acc.

Definition _parse_paytable (paytable : list (string * list (string * pyval N)))
    (wild : string) (scatters : list string) : parse_state :=
  let acc := fold_left (parse_entry wild scatters) paytable (∅, ∅, []) in
  fold_left (parse_regular wild scatters) (map fst paytable) acc.

(** *** [__init__] *)

(** The object built by [__init__], given the quotient computed at line 18. *)
Definition make_simulator (config : Config N) (per_line : N) : Simulator N :=
  let strips := c_virtual_reel_strips config in
  let bet := default (of_Z 1) (c_bet_per_line config) in
  let lines := default (of_Z 10) (c_num_lines config) in
  let base := default (of_Z 100) (c_base_bet_for_paytable_display config) in
  let wild := default "Wild" (c_wild_symbol config) in
  let scatters := default ["DollarScatter"; "StarScatter"] (c_scatter_symbols config) in
  let parsed := _parse_paytable (c_paytable config) wild scatters in
  {| virtual_reel_strips := strips;
     num_reels := length strips;
     bet_per_line := bet;
     num_lines := lines;
     total_bet_per_spin := (bet * lines)%num;
     base_bet_for_paytable_display := base;
     base_bet_per_line_display := per_line;
     wild_symbol := wild;
     scatter_symbols := scatters;
     wild_reels := map (λ r, r - 1)%Z (default [2; 3; 4]%Z (c_wild_reels config));
     star_scatter_reels :=
       map (λ r, r - 1)%Z (default [1; 3; 5]%Z (c_star_scatter_reels config));
     line_pays := parsed.1.1;
     scatter_pays := parsed.1.2;
     regular_symbols := parsed.2;
     paylines := _define_paylines |}.

Definition init (config : Config N) : result (Simulator N) :=
  let lines := default (of_Z 10) (c_num_lines config) in
  let base := default (of_Z 100) (c_base_bet_for_paytable_display config) in
  per_line ← py_div base lines;
  Ok (make_simulator config per_line).

(** *** [_spin_reels] *)

(** [[random.randrange(len(strip)) for strip in self.virtual_reel_strips]] *)
Fixpoint draw_stops (strips : list (list string)) (g : rng) : result (list nat * rng) :=
  match strips with
  | [] => Ok ([], g)
  | strip :: strips' =>
      '(stop, g1) ← randrange (length strip) g;
      '(stops, g2) ← draw_stops strips' g1;
      Ok (stop :: stops, g2)
  end.

(** The three symbols visible on a reel stopped at [start_index]. *)
Definition reel_window (reel_strip : list string) (start_index : nat) : result (list string) :=
  mapM' (λ j, nat_index reel_strip ((start_index + j) mod length reel_strip))
        (seq 0 num_rows).

Definition spin_column (self : Simulator N) (stop_positions : list nat)
    (acc : grid * heap) (i : nat) : result (grid * heap) :=
  let '(visible, h) := acc in
  reel_strip ← nat_index (virtual_reel_strips self) i;
  start_index ← nat_index stop_positions i;
  reel_symbols_column ← reel_window reel_strip start_index;
  let '(l, h') := alloc h reel_symbols_column in
  Ok (visible ++ [l], h').

Definition _spin_reels (self : Simulator N) (h : heap) (g : rng) : result (grid * heap * rng) :=
  '(stop_positions, g') ← draw_stops (virtual_reel_strips self) g;
  '(visible, h') ← foldM (spin_column self stop_positions) ([], h) (seq 0 (num_reels self));
  Ok (visible, h', g').

(** *** [_apply_expanding_wilds] *)

(** [[col[:] for col in visible_symbols]]: every column is copied into a new
    list object. *)
Fixpoint copy_columns (h : heap) (visible_symbols : grid) : grid * heap :=
  match visible_symbols with
  | [] => ([], h)
  | col :: rest =>
      let '(l, h1) := alloc h (deref h col) in
      let '(ls, h2) := copy_columns h1 rest in
      (l :: ls, h2)
  end.

(** The body of the loop over [self.wild_reels] (lines 87-89). *)
Definition expand_reel (self : Simulator N) (current_visible_symbols : grid)
    (h : heap) (reel_idx : Z) : result heap :=
  col ← py_index current_visible_symbols reel_idx;
  if py_any_eq (wild_symbol self) (deref h col)
  then foldM (λ h row_idx, set_item h col row_idx (wild_symbol self)) h (seq 0 num_rows)
  else Ok h.

Definition _apply_expanding_wilds (self : Simulator N) (h : heap) (visible_symbols : grid)
    : result (grid * heap) :=
  let '(current_visible_symbols, h1) := copy_columns h visible_symbols in
  h2 ← foldM (expand_reel self current_visible_symbols) h1 (wild_reels self);
  Ok (current_visible_symbols, h2).

(** *** [_check_line_win] *)

(** The test of lines 138-139. *)
Definition cell_matches (self : Simulator N) (target_symbol symbol_on_line : string) : bool :=
  bool_decide (symbol_on_line = target_symbol)
  || (bool_decide (symbol_on_line = wild_symbol self)
      && negb (bool_decide (target_symbol ∈ scatter_symbols self))).

(** The loop of lines 136-142, with [n] iterations left, at index [i]. *)
Fixpoint count_consecutive (self : Simulator N) (line_symbols : list string)
    (target_symbol : string) (n i consecutive_count : nat) : result nat :=
  match n with
  | 0 => Ok consecutive_count
  | S n' =>
      symbol_on_line ← nat_index line_symbols i;
      if cell_matches self target_symbol symbol_on_line
      then count_consecutive self line_symbols target_symbol n' (S i) (S consecutive_count)
      else Ok consecutive_count
  end.

(** Line 144. *)
Definition min_match (target_symbol : string) : nat :=
  if bool_decide (target_symbol = "Seven") then 2 else 3.

(** The search of lines 145-151: the first [count_match] of
    [range(consecutive_count, min_match - 1, -1)] that is a key of
    [line_pays], with its payout. *)
Fixpoint first_paying_count (self : Simulator N) (target_symbol : string)
    (min_match count_match : nat) : option (nat * pyval N) :=
  if (count_match <? min_match)%nat then None
  else match line_pays self !! (target_symbol, count_match) with
       | Some raw => Some (count_match, raw)
       | None =>
           match count_match with
           | 0 => None
           | S c => first_paying_count self target_symbol min_match c
           end
       end.

(** [f"{target_symbol} x{count_match}"] *)
Definition combo_key (target_symbol : string) (count_match : nat) : string :=
  target_symbol +:+ " x" +:+ pretty count_match.

(** One iteration of the loop over [self.regular_symbols] (lines 135-151). *)
Definition check_symbol (self : Simulator N) (line_symbols : list string)
    (best : N * option string) (target_symbol : string) : result (N * option string) :=
  consecutive_count ←
    count_consecutive self line_symbols target_symbol (num_reels self) 0 0;
  match first_paying_count self target_symbol (min_match target_symbol) consecutive_count with
  | Some (count_match, raw) =>
      raw_payout ← as_num raw;
      if (best.1 <? raw_payout)%num
      then Ok (raw_payout, Some (combo_key target_symbol count_match))
      else Ok best
  | None => Ok best
  end.

Definition _check_line_win (self : Simulator N) (line_symbols : list string)
    : result (N * option string) :=
  foldM (check_symbol self line_symbols) (of_Z 0, None) (regular_symbols self).

(** *** [_calculate_spin_payout] *)

(** [self.payout_contributions[key] += amount] on a [defaultdict(float)]. *)
Definition ledger_credit (key : option string) (amount : N)
    (ledger : gmap (option string) N) : gmap (option string) N :=
  <[key := (default (of_Z 0) (ledger !! key) + amount)%num]> ledger.

(** The three updates made for every win (lines 102-104, 114-116, 124-126). *)
Definition credit (key : option string) (amount : N) (st : spin_state N) : spin_state N :=
  {| current_spin_payout := (current_spin_payout st + amount)%num;
     is_winning_spin := true;
     payout_contributions := ledger_credit key amount (payout_contributions st) |}.

(** [f"{symbol} x{count} (Scatter)"] *)
Definition scatter_key (symbol : string) (count : nat) : string :=
  symbol +:+ " x" +:+ pretty count +:+ " (Scatter)".

(** [symbol in self.scatter_pays and count in self.scatter_pays[symbol]],
    and the entry read when the test holds. *)
Definition scatter_entry (self : Simulator N) (symbol : string) (count : nat)
    : option (pyval N) :=
  scatter_pays self !! symbol ≫= (λ pays, pays !! count).

(** [raw_payout / self.base_bet_for_paytable_display * self.total_bet_per_spin] *)
Definition scale_scatter (self : Simulator N) (raw : pyval N) : result N :=
  raw_payout ← as_num raw;
  q ← py_div raw_payout (base_bet_for_paytable_display self);
  Ok (q * total_bet_per_spin self)%num.

(** The [if] of lines 99-104 (with ["DollarScatter"]) and of lines 111-116
    (with ["StarScatter"]). *)
Definition scatter_win (self : Simulator N) (symbol : string) (count : nat)
    (st : spin_state N) : result (spin_state N) :=
  match scatter_entry self symbol count with
  | Some raw =>
      scaled_payout ← scale_scatter self raw;
      Ok (credit (Some (scatter_key symbol count)) scaled_payout st)
  | None => Ok st
  end.

(** Line 98. *)
Definition dollar_scatter_count (original_visible_symbols : screen) : nat :=
  py_sum (map (py_count "DollarScatter") original_visible_symbols).

(** Lines 106-109. *)
Definition star_scatter_count (self : Simulator N) (original_visible_symbols : screen)
    : result nat :=
  foldM (λ count r_idx,
           col ← py_index original_visible_symbols r_idx;
           Ok (if py_any_eq "StarScatter" col then S count else count))
        0 (star_scatter_reels self).

(** Line 119. *)
Definition line_symbols_of (expanded_visible_symbols : screen) (payline : list (nat * nat))
    : result (list string) :=
  mapM' (λ '(reel_idx, row_idx),
           col ← nat_index expanded_visible_symbols reel_idx;
           nat_index col row_idx)
        payline.

(** [raw_line_payout / self.base_bet_per_line_display * self.bet_per_line] *)
Definition scale_line (self : Simulator N) (raw_line_payout : N) : result N :=
  q ← py_div raw_line_payout (base_bet_per_line_display self);
  Ok (q * bet_per_line self)%num.

(** The body of the loop over [self.paylines] (lines 119-126). *)
Definition eval_payline (self : Simulator N) (expanded_visible_symbols : screen)
    (st : spin_state N) (payline : list (nat * nat)) : result (spin_state N) :=
  line_symbols ← line_symbols_of expanded_visible_symbols payline;
  '(raw_line_payout, winning_combo_key) ← _check_line_win self line_symbols;
  if (of_Z 0 <? raw_line_payout)%num
  then scaled_line_payout ← scale_line self raw_line_payout;
       Ok (credit winning_combo_key scaled_line_payout st)
  else Ok st.

(** Everything after the call of [_apply_expanding_wilds]: it only reads the
    two screens. *)
Definition score_screens (self : Simulator N) (original_visible_symbols
    expanded_visible_symbols : screen) (ledger : gmap (option string) N)
    : result (spin_state N) :=
  let st := {| current_spin_payout := of_Z 0;
               is_winning_spin := false;
               payout_contributions := ledger |} in
  st ← scatter_win self "DollarScatter" (dollar_scatter_count original_visible_symbols) st;
  star ← star_scatter_count self original_visible_symbols;
  st ← scatter_win self "StarScatter" star st;
  foldM (eval_payline self expanded_visible_symbols) st (paylines self).

(** The screen objects are read in the store left by
    [_apply_expanding_wilds]. *)
Definition _calculate_spin_payout (self : Simulator N) (h : heap)
    (original_visible_symbols : grid) (ledger : gmap (option string) N)
    : result (spin_state N * heap) :=
  '(expanded_visible_symbols, h1) ← _apply_expanding_wilds self h original_visible_symbols;
  st ← score_screens self (read_grid h1 original_visible_symbols)
                     (read_grid h1 expanded_visible_symbols) ledger;
  Ok (st, h1).

(** *** [run_simulation] *)

(** The accumulators as reset at lines 162-167. *)
Definition fresh_stats : stats N :=
  {| total_payout := of_Z 0;
     sum_of_squared_payouts := of_Z 0;
     total_winning_spins := 0;
     max_win := of_Z 0;
     contributions := ∅ |}.

(** Lines 178-184; [spin_payout ** 2] is the product of [spin_payout] with
    itself. *)
Definition record_spin (st : stats N) (sp : spin_state N) : stats N :=
  let spin_payout := current_spin_payout sp in
  {| total_payout := (total_payout st + spin_payout)%num;
     sum_of_squared_payouts := (sum_of_squared_payouts st + spin_payout * spin_payout)%num;
     total_winning_spins :=
       if is_winning_spin sp then S (total_winning_spins st) else total_winning_spins st;
     max_win := if (max_win st <? spin_payout)%num then spin_payout else max_win st;
     contributions := payout_contributions sp |}.

(** One iteration of the loop of line 174 (the progress display apart). *)
Definition one_spin (self : Simulator N) (acc : stats N * heap * rng)
    : result (stats N * heap * rng) :=
  let '(st, h, g) := acc in
  '(original_visible_symbols, h1, g1) ← _spin_reels self h g;
  '(sp, h2) ← _calculate_spin_payout self h1 original_visible_symbols (contributions st);
  Ok (record_spin st sp, h2, g1).

(** [for i in range(n)] *)
Fixpoint spin_loop (self : Simulator N) (n : nat) (acc : stats N * heap * rng)
    : result (stats N * heap * rng) :=
  match n with
  | 0 => Ok acc
  | S n' => acc' ← one_spin self acc; spin_loop self n' acc'
  end.

(** Lines 200-207. *)
Definition finalize (self : Simulator N) (total_spins : Z) (st : stats N) : result (report N) :=
  let total_bet := (of_Z total_spins * total_bet_per_spin self)%num in
  q ← py_div (total_payout st) total_bet;
  let rtp := (q * of_Z 100)%num in
  average_payout_per_spin ← py_div (total_payout st) (of_Z total_spins);
  average_squared_payout_per_spin ← py_div (sum_of_squared_payouts st) (of_Z total_spins);
  let variance :=
    (average_squared_payout_per_spin - average_payout_per_spin * average_payout_per_spin)%num in
  std_dev ← py_sqrt variance;
  hits ← py_div (of_Z (Z.of_nat (total_winning_spins st))) (of_Z total_spins);
  let hit_frequency := (hits * of_Z 100)%num in
  average_win_amount ←
    (if (0 <? total_winning_spins st)%nat
     then py_div (total_payout st) (of_Z (Z.of_nat (total_winning_spins st)))
     else Ok (of_Z 0));
  Ok {| r_total_spins := total_spins;
        r_total_bet := total_bet;
        r_total_payout := total_payout st;
        r_rtp := rtp;
        r_variance := variance;
        r_std_dev := std_dev;
        r_hit_frequency := hit_frequency;
        r_average_win := average_win_amount;
        r_max_win := max_win st;
        r_contributions := contributions st |}.

(** [run_simulation]: the report that is printed, or the exception that
    ends the run.  The store of screen objects starts empty. *)
Definition run_simulation (self : Simulator N) (num_spins : Z) (g : rng) : result (report N) :=
  '(st, _, _) ← spin_loop self (Z.to_nat num_spins) (fresh_stats, [], g);
  finalize self num_spins st.

End Model.

(** ** Functional descriptions used in the statements *)

Section Derived.
Context {N : Type} `{!PyNum N}.

(** The effect of one iteration of the loop of [_apply_expanding_wilds] on
    the contents of the copied screen. *)
Definition expand_at (wild : string) (scr : screen) (r : nat) : screen :=
  match scr !! r with
  | Some col => if py_any_eq wild col then <[r := replicate num_rows wild]> scr else scr
  | None => scr
  end.

Definition expand_screen (self : Simulator N) (scr : screen) : screen :=
  fold_left (expand_at (wild_symbol self)) (map Z.to_nat (wild_reels self)) scr.

(** A screen whose columns are objects of the store with [num_rows] cells. *)
Definition screen_in_store (h : heap) (g : grid) : Prop :=
  Forall (λ l, l < length h ∧ length (deref h l) = num_rows) g.

(** Reel indices that designate a reel of an [n]-reel screen. *)
Definition reels_in_range (reels : list Z) (n : nat) : Prop :=
  Forall (λ r, (0 ≤ r < Z.of_nat n)%Z) reels.

(** The state after a sequence of credits, made in order. *)
Definition apply_events (evs : list (option string * N)) (st : spin_state N) : spin_state N :=
  fold_left (λ st ev, credit ev.1 ev.2 st) evs st.

(** The credits of one scatter [if], of one payline, and of a whole spin,
    in the order [_calculate_spin_payout] makes them. *)
Definition scatter_events (self : Simulator N) (symbol : string) (count : nat)
    : result (list (option string * N)) :=
  match scatter_entry self symbol count with
  | Some raw =>
      scaled_payout ← scale_scatter self raw;
      Ok [(Some (scatter_key symbol count), scaled_payout)]
  | None => Ok []
  end.

Definition line_events (self : Simulator N) (expanded_visible_symbols : screen)
    (payline : list (nat * nat)) : result (list (option string * N)) :=
  line_symbols ← line_symbols_of expanded_visible_symbols payline;
  '(raw_line_payout, winning_combo_key) ← _check_line_win self line_symbols;
  if (of_Z 0 <? raw_line_payout)%num
  then scaled_line_payout ← scale_line self raw_line_payout;
       Ok [(winning_combo_key, scaled_line_payout)]
  else Ok [].

Definition spin_events (self : Simulator N) (original_visible_symbols
    expanded_visible_symbols : screen) : result (list (option string * N)) :=
  d ← scatter_events self "DollarScatter" (dollar_scatter_count original_visible_symbols);
  star ← star_scatter_count self original_visible_symbols;
  s ← scatter_events self "StarScatter" star;
  ls ← mapM' (line_events self expanded_visible_symbols) (paylines self);
  Ok (d ++ s ++ concat ls).

(** The ledger after a sequence of credits. *)
Definition apply_credits (evs : list (option string * N))
    (ledger : gmap (option string) N) : gmap (option string) N :=
  fold_left (λ ledger ev, ledger_credit ev.1 ev.2 ledger) evs ledger.

(** The payout after a sequence of credits: [payout += amount] for each. *)
Definition add_payouts (evs : list (option string * N)) (payout : N) : N :=
  fold_left (λ payout ev, payout + ev.2)%num evs payout.

(** The credit of a scatter win as the paytable contract words it: when the
    scatter paytable of [symbol] has an entry [raw] for [count], the key
    ["{symbol} x{count} (Scatter)"] is credited with
    [raw / baseDisplayBet * totalBetPerSpin]. *)
Definition scatter_credit (self : Simulator N) (symbol : string) (count : nat)
    : list (option string * N) :=
  match scatter_pays self !! symbol with
  | Some pays =>
      match pays !! count with
      | Some (Num raw) =>
          [(Some (symbol +:+ " x" +:+ pretty count +:+ " (Scatter)"),
            (num_quot raw (base_bet_for_paytable_display self) * total_bet_per_spin self)%num)]
      | _ => []
      end
  | None => []
  end.

(** The state in which [_calculate_spin_payout] starts. *)
Definition spin_start (ledger : gmap (option string) N) : spin_state N :=
  {| current_spin_payout := of_Z 0;
     is_winning_spin := false;
     payout_contributions := ledger |}.

(** The longest run of cells satisfying [p] at the head of a line. *)
Fixpoint leading_run (p : string → bool) (line : list string) : nat :=
  match line with
  | [] => 0
  | c :: line' => if p c then S (leading_run p line') else 0
  end.

(** A simulator whose scatter paytable has been replaced. *)
Definition with_scatter_pays (self : Simulator N)
    (sp : gmap string (gmap nat (pyval N))) : Simulator N :=
  {| virtual_reel_strips := virtual_reel_strips self;
     num_reels := num_reels self;
     bet_per_line := bet_per_line self;
     num_lines := num_lines self;
     total_bet_per_spin := total_bet_per_spin self;
     base_bet_for_paytable_display := base_bet_for_paytable_display self;
     base_bet_per_line_display := base_bet_per_line_display self;
     wild_symbol := wild_symbol self;
     scatter_symbols := scatter_symbols self;
     wild_reels := wild_reels self;
     star_scatter_reels := star_scatter_reels self;
     line_pays := line_pays self;
     scatter_pays := sp;
     regular_symbols := regular_symbols self;
     paylines := paylines self |}.

(** A line pay comes unchanged from a digit-keyed field of the raw entry of
    its symbol. *)
Definition from_raw (paytable : list (string * list (string * pyval N)))
    (symbol : string) (count : nat) (v : pyval N) : Prop :=
  ∃ data k, (symbol, data) ∈ paytable ∧ (k, v) ∈ data ∧
            isdigit k = true ∧ int_of_digits k = count.

(** What both loops of [_parse_paytable] preserve. *)
Definition parse_invariant (paytable : list (string * list (string * pyval N)))
    (wild : string) (scatters : list string) (acc : parse_state) : Prop :=
  (∀ s c v, (acc.1.1) !! (s, c) = Some v →
            s ≠ wild ∧ (s ∉ scatters) ∧ from_raw paytable s c v) ∧
  (∀ s, s ∈ acc.2 → s ≠ wild ∧ s ∉ scatters).

(** The payline contract in its own words.  A cell matches the regular
    symbol [S] when it is [S] or the wild symbol. *)
Definition matches_or_wild (wild S cell : string) : bool :=
  bool_decide (cell = S ∨ cell = wild).

(** The candidate of [S] on a line: the first count, from the run length
    of [S] down to its minimum, that has a line pay. *)
Definition candidate (self : Simulator N) (line : list string) (S : string)
    : option (nat * pyval N) :=
  first_paying_count self S (min_match S)
    (leading_run (matches_or_wild (wild_symbol self) S) line).

(** The combination kept among the symbols [syms], met in this order: none
    when no candidate pays more than zero; otherwise the candidate of one of
    the symbols with a positive payout, which every symbol met before it pays
    strictly less than and no symbol met after it pays more than. *)
Definition kept_among (self : Simulator N) (line : list string) (syms : list string)
    (best : N) (key : option string) : Prop :=
  match key with
  | None =>
      best = of_Z 0 ∧
      ∀ S c raw, S ∈ syms →
        candidate self line S = Some (c, Num raw) → (of_Z 0 <? raw)%num = false
  | Some k =>
      ∃ pre S post c,
        syms = pre ++ S :: post ∧
        candidate self line S = Some (c, Num best) ∧
        k = S +:+ " x" +:+ pretty c ∧
        (of_Z 0 <? best)%num = true ∧
        (∀ S' c' raw', S' ∈ pre →
           candidate self line S' = Some (c', Num raw') → (raw' <? best)%num = true) ∧
        (∀ S' c' raw', S' ∈ post →
           candidate self line S' = Some (c', Num raw') → (best <? raw')%num = false)
  end.

(** The combination kept for a line, among the regular symbols. *)
Definition kept_combination (self : Simulator N) (line : list string)
    (best : N) (key : option string) : Prop :=
  kept_among self line (regular_symbols self) best key.

(** [isinstance(v, (int, float))] *)
Definition is_number (v : pyval N) : bool :=
  match v with
  | Num _ => true
  | Str _ => false
  end.

(** Every line pay, every scatter pay, is a number. *)
Definition numeric_line_pays (self : Simulator N) : Prop :=
  map_Forall (λ _ v, is_number v = true) (line_pays self).

Definition numeric_scatter_pays (self : Simulator N) : Prop :=
  map_Forall (λ _ pays, map_Forall (λ (_ : nat) v, is_number v = true) pays)
             (scatter_pays self).

(** A simulator on which every five-reel screen can be evaluated: five reels
    and the ten paylines, reel indices within the screen, regular symbols
    apart from the scatter symbols, numbers in the paytables, and non-zero
    divisors in the scaling of payouts. *)
Definition well_formed (self : Simulator N) : Prop :=
  num_reels self = 5 ∧
  paylines self = _define_paylines ∧
  reels_in_range (wild_reels self) 5 ∧
  reels_in_range (star_scatter_reels self) 5 ∧
  Forall (λ S, S ∉ scatter_symbols self) (regular_symbols self) ∧
  numeric_line_pays self ∧
  numeric_scatter_pays self ∧
  num_is_zero (base_bet_for_paytable_display self) = false ∧
  num_is_zero (base_bet_per_line_display self) = false.

(** A paytable value that is the number zero. *)
Definition zero_payout (v : pyval N) : Prop :=
  ∃ x, v = Num x ∧ num_is_zero x = true.

(** Every payout of the raw paytable (every digit-keyed value) is zero. *)
Definition all_payouts_zero (paytable : list (string * list (string * pyval N))) : Prop :=
  Forall (λ entry, Forall (λ kv, isdigit kv.1 = true → zero_payout kv.2) entry.2) paytable.

(** A scatter pay comes unchanged from a digit-keyed field of the raw entry
    of its symbol. *)
Definition scatter_from_raw (paytable : list (string * list (string * pyval N)))
    (sp : gmap string (gmap nat (pyval N))) : Prop :=
  ∀ symbol pays count v,
    sp !! symbol = Some pays → pays !! count = Some v →
    ∃ data k, (symbol, data) ∈ paytable ∧ (k, v) ∈ data ∧ isdigit k = true.

End Derived.

(** ** Concrete configurations *)

Section Examples.
Context {N : Type} `{!PyNum N}.

Definition pay (z : Z) : pyval N := Num (of_Z z).

(** [BASE_GAME_CONFIG] (lines 232-252), completed with reel strips. *)
Definition BASE_GAME_CONFIG (strips : list (list string)) : Config N :=
  {| c_paytable :=
       [ ("Seven", [("5", pay 50000); ("4", pay 2500); ("3", pay 500); ("2", pay 100)]);
         ("Watermelon", [("5", pay 7000); ("4", pay 1200); ("3", pay 400)]);
         ("Grapes", [("5", pay 7000); ("4", pay 1200); ("3", pay 400)]);
         ("Bell", [("5", pay 2000); ("4", pay 400); ("3", pay 200)]);
         ("Plum", [("5", pay 1500); ("4", pay 300); ("3", pay 100)]);
         ("Orange", [("5", pay 1500); ("4", pay 300); ("3", pay 100)]);
         ("Cherry", [("5", pay 1500); ("4", pay 300); ("3", pay 100)]);
         ("Lemon", [("5", pay 1500); ("4", pay 300); ("3", pay 100)]);
         ("DollarScatter", [("5", pay 10000); ("4", pay 2000); ("3", pay 500)]);
         ("StarScatter",
          [("3", pay 2000); ("note", Str "Only appears on 1st, 3rd and 5th reels.")]) ];
     c_virtual_reel_strips := strips;
     c_bet_per_line := Some (of_Z 1);
     c_num_lines := Some (of_Z 10);
     c_base_bet_for_paytable_display := Some (of_Z 100);
     c_wild_symbol := Some "Wild";
     c_scatter_symbols := Some ["DollarScatter"; "StarScatter"];
     c_wild_reels := Some [2; 3; 4]%Z;
     c_star_scatter_reels := Some [1; 3; 5]%Z |}.

(** A configuration with another paytable. *)
Definition with_paytable (config : Config N)
    (paytable : list (string * list (string * pyval N))) : Config N :=
  {| c_paytable := paytable;
     c_virtual_reel_strips := c_virtual_reel_strips config;
     c_bet_per_line := c_bet_per_line config;
     c_num_lines := c_num_lines config;
     c_base_bet_for_paytable_display := c_base_bet_for_paytable_display config;
     c_wild_symbol := c_wild_symbol config;
     c_scatter_symbols := c_scatter_symbols config;
     c_wild_reels := c_wild_reels config;
     c_star_scatter_reels := c_star_scatter_reels config |}.

(** A paytable with an entry for the wild symbol and negative payouts. *)
Definition loose_paytable : list (string * list (string * pyval N)) :=
  [ ("Wild", [("3", pay 100)]);
    ("Seven", [("3", pay (-5)); ("2", pay 100)]);
    ("DollarScatter", [("3", pay (-1))]) ].

(** Five one-symbol reels and a paytable under which every spin pays the
    star scatter: [1 / 100 * 10], a tenth of a credit. *)
Definition tenth_config : Config N :=
  with_paytable (BASE_GAME_CONFIG (replicate 5 ["StarScatter"]))
                [("StarScatter", [("3", pay 1)])].

(** The same reels with a paytable whose payouts are all zero. *)
Definition zero_config : Config N :=
  with_paytable (BASE_GAME_CONFIG (replicate 5 ["StarScatter"]))
                [ ("Seven", [("3", pay 0); ("2", pay 0)]);
                  ("DollarScatter", [("3", pay 0)]);
                  ("StarScatter", [("3", pay 0)]) ].

(** Five short reel strips. *)
Definition demo_strips : list (list string) :=
  [ ["Seven"; "Bell"; "StarScatter"];
    ["Wild"; "Bell"; "Seven"; "Bell"];
    ["Seven"; "StarScatter"];
    ["Bell"];
    ["StarScatter"; "Bell"] ].

(** The simulator built from [BASE_GAME_CONFIG] and [demo_strips]. *)
Definition demo_self : Simulator N :=
  make_simulator (BASE_GAME_CONFIG demo_strips) (num_quot (of_Z 100) (of_Z 10)).

(** A screen held in a store of five column objects. *)
Definition demo_heap : list (list string) :=
  [ ["Seven"; "Bell"; "StarScatter"];
    ["Seven"; "Bell"; "Wild"];
    ["StarScatter"; "Seven"; "StarScatter"];
    ["Bell"; "Bell"; "Bell"];
    ["Bell"; "StarScatter"; "Bell"] ].

Definition demo_grid : list nat := [0; 1; 2; 3; 4].

(** The symbols of a payline after wild expansion. *)
Definition demo_line : list string := ["Seven"; "Wild"; "Wild"; "Bell"; "Seven"].

End Examples.

(** The demonstration simulator over binary64 numbers and over exact
    rationals. *)
Definition demo_float : Simulator float := demo_self.
Definition demo_exact : Simulator Q := demo_self (PyNum0 := Q_num (λ x, x)).

(** [BASE_GAME_CONFIG] with a paytable of zeros for two regular symbols. *)
Definition zero_line_config : Config Q :=
  with_paytable (BASE_GAME_CONFIG (PyNum0 := Q_num (λ x, x)) demo_strips)
    [ ("Seven", [("3", Num 0%Q); ("2", Num 0%Q)]); ("Bell", [("3", Num 0%Q)]) ].

(** ** Further descriptions: indices, parsed paytables and ledger amounts *)

Section MoreDerived.
Context {N : Type} `{!PyNum N}.

(** The position a Python index designates in a list of [n] items, when
    it designates one. *)
Definition norm_index (n : nat) (r : Z) : Z :=
  if (r <? 0)%Z then (r + Z.of_nat n)%Z else r.

(** An index that designates an item of a list of [n] items. *)
Definition valid_index (n : nat) (r : Z) : Prop :=
  (- Z.of_nat n ≤ r < Z.of_nat n)%Z.

(** A field key on which [isdigit] and [int_of_digits] are [str.isdigit]
    and [int] of Python: a string of ASCII characters, at most 4300 of them
    (the default limit of [int] on the number of digits).  Outside of these,
    [str.isdigit] accepts other digits and [int] can raise [ValueError]. *)
Definition plain_key (k : string) : Prop :=
  String.length k ≤ 4300 ∧
  Forall (λ c, nat_of_ascii c < 128) (String.list_ascii_of_string k).

(** A paytable whose entries have such field keys. *)
Definition plain_keys (paytable : list (string * list (string * pyval N))) : Prop :=
  Forall (λ entry, Forall (λ kv, plain_key kv.1) entry.2) paytable.

(** The value [v] is that of the last field of the entry [data] whose key is
    made of digits and denotes [count]. *)
Definition last_digit_field (data : list (string * pyval N)) (count : nat)
    (v : pyval N) : Prop :=
  ∃ pre k post,
    data = pre ++ (k, v) :: post ∧ isdigit k = true ∧ int_of_digits k = count ∧
    ∀ k' v', (k', v') ∈ post → isdigit k' = true → int_of_digits k' ≠ count.

(** The state of the model after the first loop of [_parse_paytable], in
    which the set of regular symbols is a list in the order of insertion. *)
Definition first_loop_state (paytable : list (string * list (string * pyval N)))
    (wild : string) (scatters : list string) (acc : parse_state) : Prop :=
  acc.2 = filter (λ s, s ≠ wild ∧ s ∉ scatters) (map fst paytable) ∧
  (∀ s, s ∉ map fst paytable →
        (acc.1.2) !! s = None ∧ ∀ c, (acc.1.1) !! (s, c) = None) ∧
  (∀ s data, (s, data) ∈ paytable →
     (acc.1.2) !! s
     = (if bool_decide (s ≠ wild ∧ s ∈ scatters) then Some (digit_entries data) else None) ∧
     ∀ c, (acc.1.1) !! (s, c)
          = (if bool_decide (s ≠ wild ∧ s ∉ scatters) then digit_entries data !! c else None)).

(** What [_parse_paytable] makes of a paytable dictionary.  The regular
    symbols, a set, are the keys other than the wild symbol and the scatter
    symbols; a scatter key has the scatter pays, and a regular key the line
    pays, that the digit-keyed fields of its entry give; nothing else is
    stored. *)
Definition parsed_as (paytable : list (string * list (string * pyval N)))
    (wild : string) (scatters : list string) (acc : parse_state) : Prop :=
  (∀ s, s ∈ acc.2 ↔ s ∈ map fst paytable ∧ s ≠ wild ∧ s ∉ scatters) ∧
  (∀ s, s ∉ map fst paytable →
        (acc.1.2) !! s = None ∧ ∀ c, (acc.1.1) !! (s, c) = None) ∧
  (∀ s data, (s, data) ∈ paytable →
     (if bool_decide (s ≠ wild ∧ s ∈ scatters)
      then ∃ pays, (acc.1.2) !! s = Some pays ∧
                   ∀ c v, pays !! c = Some v ↔ last_digit_field data c v
      else (acc.1.2) !! s = None) ∧
     ∀ c v, (acc.1.1) !! (s, c) = Some v ↔
            s ≠ wild ∧ (s ∉ scatters) ∧ last_digit_field data c v).

(** The amount a ledger holds under [key] after a sequence of credits, as
    [+=] on a [defaultdict(float)] makes it: a credit under [key] adds its
    amount to the amount held, zero when none was held; a credit under
    another key leaves it. *)
Definition amount_after (evs : list (option string * N)) (key : option string)
    (held : option N) : option N :=
  fold_left (λ held ev,
               if bool_decide (ev.1 = key)
               then Some (default (of_Z 0) held + ev.2)%num
               else held)
            evs held.

(** A simulator whose line paytable has been replaced. *)
Definition with_line_pays (self : Simulator N)
    (lp : gmap (string * nat) (pyval N)) : Simulator N :=
  {| virtual_reel_strips := virtual_reel_strips self;
     num_reels := num_reels self;
     bet_per_line := bet_per_line self;
     num_lines := num_lines self;
     total_bet_per_spin := total_bet_per_spin self;
     base_bet_for_paytable_display := base_bet_for_paytable_display self;
     base_bet_per_line_display := base_bet_per_line_display self;
     wild_symbol := wild_symbol self;
     scatter_symbols := scatter_symbols self;
     wild_reels := wild_reels self;
     star_scatter_reels := star_scatter_reels self;
     line_pays := lp;
     scatter_pays := scatter_pays self;
     regular_symbols := regular_symbols self;
     paylines := paylines self |}.

End MoreDerived.

(** ** The breakdown of the report *)

Section Breakdown.
Context {N : Type} `{!PyNum N}.

(** [sorted(items, key=lambda item: item[1], reverse=True)] (line 223): the
    items by decreasing amount; the sort is stable, items with equal amounts
    stay in the order they had. *)
Fixpoint insert_desc (item : option string * N) (sorted : list (option string * N))
    : list (option string * N) :=
  match sorted with
  | [] => [item]
  | item' :: rest =>
      if (item.2 <? item'.2)%num then item' :: insert_desc item rest
      else item :: sorted
  end.

Definition sorted_contributions (items : list (option string * N))
    : list (option string * N) :=
  foldr insert_desc [] items.

(** The literal [0.0001]. *)
Definition print_threshold : N := num_quot (of_Z 1) (of_Z 10000).

(** The body of the loop of lines 224-227; a printed line is kept as the
    combination, its payout sum and its share of the total bet in percent. *)
Definition breakdown_line (self : Simulator N) (total_spins : Z)
    (printed : list (option string * N * N)) (item : option string * N)
    : result (list (option string * N * N)) :=
  let '(combo, payout_sum) := item in
  q ← py_div payout_sum (of_Z total_spins * total_bet_per_spin self)%num;
  let contribution_percent := (q * of_Z 100)%num in
  if (print_threshold <? contribution_percent)%num
  then Ok (printed ++ [(combo, payout_sum, contribution_percent)])
  else Ok printed.

(** Amounts that compare as the numbers of an order do: of two amounts at
    most one is less than the other, and an amount that is not less than a
    second, itself not less than a third, is not less than the third. *)
Definition comparable_amounts (xs : list N) : Prop :=
  Forall (λ x,
    Forall (λ y,
      ((x <? y)%num = true → (y <? x)%num = false) ∧
      Forall (λ z, (x <? y)%num = false → (y <? z)%num = false → (x <? z)%num = false) xs)
      xs) xs.

(** Lines 223-227, for the items of [self.payout_contributions]. *)
Definition contribution_breakdown (self : Simulator N) (total_spins : Z)
    (items : list (option string * N)) : result (list (option string * N * N)) :=
  foldM (breakdown_line self total_spins) [] (sorted_contributions items).

End Breakdown.

(** ** Further concrete configurations *)

Section MoreExamples.
Context {N : Type} `{!PyNum N}.

(** A configuration with other wild reels. *)
Definition with_wild_reels (config : Config N) (reels : list Z) : Config N :=
  {| c_paytable := c_paytable config;
     c_virtual_reel_strips := c_virtual_reel_strips config;
     c_bet_per_line := c_bet_per_line config;
     c_num_lines := c_num_lines config;
     c_base_bet_for_paytable_display := c_base_bet_for_paytable_display config;
     c_wild_symbol := c_wild_symbol config;
     c_scatter_symbols := c_scatter_symbols config;
     c_wild_reels := Some reels;
     c_star_scatter_reels := c_star_scatter_reels config |}.

(** The simulator built from [BASE_GAME_CONFIG] with these wild reels. *)
Definition wild_reels_self (reels : list Z) : Simulator N :=
  make_simulator (with_wild_reels (BASE_GAME_CONFIG demo_strips) reels)
                 (num_quot (of_Z 100) (of_Z 10)).

(** A screen with wilds on the first, the third and the last reel. *)
Definition edge_heap : list (list string) :=
  [ ["Wild"; "Bell"; "Seven"];
    ["Bell"; "Bell"; "Bell"];
    ["Seven"; "Wild"; "Bell"];
    ["Bell"; "Seven"; "Bell"];
    ["Bell"; "Bell"; "Wild"] ].

(** A screen without any win: no scatter, no wild, and no two neighbouring
    reels with a symbol in common. *)
Definition losing_heap : list (list string) :=
  [ ["Bell"; "Bell"; "Bell"];
    ["Plum"; "Plum"; "Plum"];
    ["Bell"; "Bell"; "Bell"];
    ["Plum"; "Plum"; "Plum"];
    ["Bell"; "Bell"; "Bell"] ].

End MoreExamples.

(** Ledger items, as a run may leave them. *)
Definition demo_items : list (option string * float) :=
  [ (Some "Bell x3", 40%float); (Some "Seven x3", 100%float);
    (Some "StarScatter x3 (Scatter)", 0%float); (Some "Plum x3", 40%float) ].

(** An entry in which two fields denote the count 3. *)
Definition twice_three : list (string * pyval float) :=
  [ ("3", Num 100%float); ("note", Str "three of a kind"); ("03", Num 250%float);
    ("4", Num 400%float) ].

(** * Properties *)

(** ** Results *)

Lemma bind_Ok {A B} (m : result A) (f : A → result B) (b : B) :
  m ≫= f = Ok b ↔ ∃ a, m = Ok a ∧ f a = Ok b.
Proof.
  destruct m as [a|e]; simpl; split.
  - intros H. by exists a.
  - by intros (a' & [= ->] & H).
  - done.
  - by intros (a' & [=] & _).
Qed.

Lemma py_index_nat {A} (l : list A) (r : Z) :
  (0 ≤ r)%Z → py_index l r = nat_index l (Z.to_nat r).
Proof.
  intros Hr. unfold py_index, nat_index.
  destruct (Z.ltb_spec r 0) as [|_]; [lia|].
  by destruct (Z.ltb_spec r 0) as [|_]; [lia|].
Qed.

Lemma py_any_eq_true (x : string) (l : list string) :
  py_any_eq x l = true ↔ x ∈ l.
Proof.
  unfold py_any_eq. rewrite existsb_exists. split.
  - intros (y & Hy%list_elem_of_In & Heq%bool_decide_eq_true). by subst.
  - intros Hx. exists x. split; [by apply list_elem_of_In | by apply bool_decide_eq_true].
Qed.

(** ** The object store *)

Lemma deref_app_l (h h' : heap) (l : loc) :
  l < length h → deref (h ++ h') l = deref h l.
Proof. intros Hl. unfold deref. by rewrite lookup_app_l. Qed.

Lemma deref_app_r (h h' : heap) (r : nat) :
  deref (h ++ h') (length h + r) = default [] (h' !! r).
Proof.
  unfold deref. rewrite lookup_app_r by lia. do 2 f_equal. lia.
Qed.

Lemma read_grid_app_l (h h' : heap) (g : grid) :
  Forall (λ l, l < length h) g → read_grid (h ++ h') g = read_grid h g.
Proof.
  unfold read_grid. induction 1 as [|l g Hl _ IH]; simpl; [done|].
  by rewrite deref_app_l, IH.
Qed.

Lemma read_grid_fresh (h scr : heap) :
  read_grid (h ++ scr) (seq (length h) (length scr)) = scr.
Proof.
  unfold read_grid. apply list_eq. intros i.
  rewrite list_lookup_fmap. destruct (scr !! i) as [col|] eqn:Hi.
  - rewrite lookup_seq_lt by (by eapply lookup_lt_Some). simpl.
    by rewrite deref_app_r, Hi.
  - rewrite lookup_seq_ge by (by apply lookup_ge_None). done.
Qed.

Lemma copy_columns_spec (h : heap) (g : grid) :
  Forall (λ l, l < length h) g →
  copy_columns h g = (seq (length h) (length g), h ++ read_grid h g).
Proof.
  revert h. induction g as [|col rest IH]; intros h Hg; simpl.
  - by rewrite app_nil_r.
  - inversion Hg as [|? ? Hcol Hrest]; subst.
    rewrite IH.
    + rewrite length_app. simpl. rewrite Nat.add_1_r.
      rewrite read_grid_app_l by done. by rewrite <- app_assoc.
    + rewrite length_app. simpl. eapply Forall_impl; [exact Hrest|]. simpl. lia.
Qed.

Lemma set_item_app_r (h scr : heap) (r row : nat) (col : list string) (v : string) :
  scr !! r = Some col → row < length col →
  set_item (h ++ scr) (length h + r) row v = Ok (h ++ <[r := <[row := v]> col]> scr).
Proof.
  intros Hr Hrow. unfold set_item. rewrite deref_app_r, Hr. simpl.
  rewrite bool_decide_eq_true_2 by done.
  by rewrite insert_app_r.
Qed.

Lemma fill_rows_spec (h scr : heap) (r : nat) (col : list string) (w : string) :
  scr !! r = Some col → length col = num_rows →
  foldM (λ h' row_idx, set_item h' (length h + r) row_idx w) (h ++ scr) (seq 0 num_rows)
  = Ok (h ++ <[r := replicate num_rows w]> scr).
Proof.
  intros Hr Hlen.
  destruct col as [|c0 [|c1 [|c2 [|]]]]; try discriminate Hlen.
  assert (Hlt : r < length scr) by (by eapply lookup_lt_Some).
  unfold num_rows. simpl.
  erewrite set_item_app_r by (eassumption || (simpl; lia)). simpl.
  erewrite set_item_app_r; [|by apply list_lookup_insert_eq|simpl; lia]. simpl.
  erewrite set_item_app_r; [|by apply list_lookup_insert_eq; rewrite length_insert|simpl; lia].
  simpl. by rewrite !list_insert_insert_eq.
Qed.

(** ** Wild expansion *)

Section Expansion.
Context {N : Type} `{!PyNum N}.
Implicit Types (self : Simulator N) (h scr : heap) (g : grid).

Lemma expand_at_length wild scr r : length (expand_at wild scr r) = length scr.
Proof.
  unfold expand_at. destruct (scr !! r); [|done].
  destruct (py_any_eq _ _); [|done]. by rewrite length_insert.
Qed.

Lemma expand_at_rows wild scr r :
  Forall (λ col, length col = num_rows) scr →
  Forall (λ col, length col = num_rows) (expand_at wild scr r).
Proof.
  intros Hscr. unfold expand_at. destruct (scr !! r); [|done].
  destruct (py_any_eq _ _); [|done].
  apply Forall_insert; [done|]. by rewrite length_replicate.
Qed.

(** A cell-wise reading of one expansion step. *)
Lemma expand_at_lookup wild scr r i col :
  scr !! i = Some col →
  expand_at wild scr r !! i
  = Some (if bool_decide (r = i ∧ wild ∈ col) then replicate num_rows wild else col).
Proof.
  intros Hi. unfold expand_at. destruct (scr !! r) as [col'|] eqn:Hr.
  - destruct (py_any_eq wild col') eqn:Hany.
    + destruct (decide (r = i)) as [->|Hne].
      * assert (col' = col) as -> by congruence.
        apply py_any_eq_true in Hany.
        rewrite bool_decide_eq_true_2 by done.
        apply list_lookup_insert_eq. by eapply lookup_lt_Some.
      * rewrite list_lookup_insert_ne by done.
        rewrite bool_decide_eq_false_2 by tauto. done.
    + rewrite bool_decide_eq_false_2; [done|].
      intros [-> Hin]. assert (col' = col) as -> by congruence.
      apply py_any_eq_true in Hin. congruence.
  - rewrite bool_decide_eq_false_2; [done|]. intros [-> _]. congruence.
Qed.

Lemma fold_expand_at_lookup wild (rs : list nat) scr i col :
  scr !! i = Some col →
  fold_left (expand_at wild) rs scr !! i
  = Some (if bool_decide (i ∈ rs ∧ wild ∈ col) then replicate num_rows wild else col).
Proof.
  revert scr col. induction rs as [|r rs IH]; intros scr col Hi; cbn [fold_left].
  - rewrite bool_decide_eq_false_2; [done|]. intros [Hin _]. by apply not_elem_of_nil in Hin.
  - erewrite IH by (by apply expand_at_lookup).
    destruct (decide (r = i ∧ wild ∈ col)) as [[-> Hw]|Hno].
    + rewrite (bool_decide_eq_true_2 (i = i ∧ _)) by done.
      rewrite (bool_decide_eq_true_2 (i ∈ i :: rs ∧ _)) by (split; [left|done]).
      by destruct (bool_decide _).
    + rewrite (bool_decide_eq_false_2 (r = i ∧ _)) by done.
      f_equal. rewrite (bool_decide_ext (i ∈ r :: rs ∧ wild ∈ col) (i ∈ rs ∧ wild ∈ col)); [done|].
      rewrite elem_of_cons. split.
      * intros [[Heq|Hin] Hw]; [|done]. exfalso. apply Hno. by split.
      * intros [Hin Hw]. auto.
Qed.

Lemma expand_reel_spec self h scr (reel_idx : Z) :
  Forall (λ col, length col = num_rows) scr →
  (0 ≤ reel_idx < Z.of_nat (length scr))%Z →
  expand_reel self (seq (length h) (length scr)) (h ++ scr) reel_idx
  = Ok (h ++ expand_at (wild_symbol self) scr (Z.to_nat reel_idx)).
Proof.
  intros Hrows Hrange. unfold expand_reel.
  rewrite py_index_nat by lia. unfold nat_index.
  rewrite lookup_seq_lt by lia. simpl.
  destruct (lookup_lt_is_Some_2 scr (Z.to_nat reel_idx)) as [col Hcol]; [lia|].
  rewrite deref_app_r, Hcol. simpl. unfold expand_at. rewrite Hcol.
  destruct (py_any_eq _ col); [|done].
  apply (fill_rows_spec _ _ _ col); [done|].
  exact (Forall_lookup_1 _ _ _ _ Hrows Hcol).
Qed.

Lemma expand_loop_spec self h (reels : list Z) scr :
  Forall (λ col, length col = num_rows) scr →
  reels_in_range reels (length scr) →
  foldM (expand_reel self (seq (length h) (length scr))) (h ++ scr) reels
  = Ok (h ++ fold_left (expand_at (wild_symbol self)) (map Z.to_nat reels) scr).
Proof.
  revert scr. induction reels as [|r reels IH]; intros scr Hrows Hrange; simpl; [done|].
  inversion Hrange as [|? ? Hr Hrest]; subst.
  rewrite expand_reel_spec by done. simpl.
  rewrite <- (expand_at_length (wild_symbol self) scr (Z.to_nat r)).
  apply IH; [by apply expand_at_rows|]. by rewrite expand_at_length.
Qed.

Lemma screen_in_store_valid h g :
  screen_in_store h g → Forall (λ l, l < length h) g.
Proof. intros Hg. eapply Forall_impl; [exact Hg|]. simpl. tauto. Qed.

Lemma screen_in_store_rows h g :
  screen_in_store h g → Forall (λ col, length col = num_rows) (read_grid h g).
Proof.
  unfold read_grid. intros Hg. apply Forall_fmap.
  eapply Forall_impl; [exact Hg|]. simpl. tauto.
Qed.

Lemma read_grid_length h g : length (read_grid h g) = length g.
Proof. unfold read_grid. apply length_map. Qed.

(** [_apply_expanding_wilds] as a function of the contents of the screen. *)
Lemma apply_expanding_wilds_pure self h g :
  screen_in_store h g →
  reels_in_range (wild_reels self) (length g) →
  _apply_expanding_wilds self h g
  = Ok (seq (length h) (length g), h ++ expand_screen self (read_grid h g)).
Proof.
  intros Hg Hrange. unfold _apply_expanding_wilds.
  rewrite copy_columns_spec by (by apply screen_in_store_valid).
  rewrite <- (read_grid_length h g).
  rewrite expand_loop_spec; [done|by apply screen_in_store_rows|].
  by rewrite read_grid_length.
Qed.

Lemma expand_screen_length self scr : length (expand_screen self scr) = length scr.
Proof.
  unfold expand_screen. generalize (map Z.to_nat (wild_reels self)) as rs.
  intros rs. revert scr. induction rs as [|r rs IH]; intros scr; simpl; [done|].
  by rewrite IH, expand_at_length.
Qed.

Lemma expand_screen_rows self scr :
  Forall (λ col, length col = num_rows) scr →
  Forall (λ col, length col = num_rows) (expand_screen self scr).
Proof.
  unfold expand_screen. generalize (map Z.to_nat (wild_reels self)) as rs.
  intros rs. revert scr. induction rs as [|r rs IH]; intros scr Hrows; simpl; [done|].
  apply IH. by apply expand_at_rows.
Qed.

End Expansion.

Section ExpansionClaim.
Context {N : Type} `{!PyNum N}.

(** C3.  [_apply_expanding_wilds] returns a new screen in which the column
    of reel [r] is three wild symbols when [r] is one of [wild_reels] and the
    input column holds a wild symbol, and the input column otherwise; every
    object of the store that existed before the call, hence the input screen,
    is left as it was. *)
Theorem apply_expanding_wilds_frame (self : Simulator N) (h : heap) (g : grid) :
  screen_in_store h g →
  reels_in_range (wild_reels self) (length g) →
  ∃ g' h',
    _apply_expanding_wilds self h g = Ok (g', h') ∧
    length g' = length g ∧
    (∀ l, l < length h → h' !! l = h !! l) ∧
    read_grid h' g = read_grid h g ∧
    ∀ r col, read_grid h g !! r = Some col →
      read_grid h' g' !! r
      = Some (if bool_decide (Z.of_nat r ∈ wild_reels self ∧ wild_symbol self ∈ col)
              then replicate num_rows (wild_symbol self)
              else col).
Proof.
  intros Hg Hrange. eexists _, _.
  split; [by apply apply_expanding_wilds_pure|].
  split; [by rewrite length_seq|].
  split; [intros l Hl; by rewrite lookup_app_l|].
  split; [apply read_grid_app_l; by apply screen_in_store_valid|].
  intros r col Hr.
  assert (Hlen : length g = length (expand_screen self (read_grid h g)))
    by (by rewrite expand_screen_length, read_grid_length).
  rewrite Hlen, read_grid_fresh. unfold expand_screen.
  erewrite fold_expand_at_lookup by done.
  f_equal.
  rewrite (bool_decide_ext (r ∈ map Z.to_nat (wild_reels self) ∧ wild_symbol self ∈ col)
             (Z.of_nat r ∈ wild_reels self ∧ wild_symbol self ∈ col)); [done|].
  rewrite list_elem_of_fmap. split.
  - intros [(z & -> & Hz) Hw]. split; [|done].
    assert (0 ≤ z)%Z by (apply (proj1 (Forall_forall _ _) Hrange) in Hz; lia).
    by rewrite Z2Nat.id.
  - intros [Hin Hw]. split; [|done]. exists (Z.of_nat r). by rewrite Nat2Z.id.
Qed.

End ExpansionClaim.

Lemma apply_expanding_wilds_frame_witness :
  ∃ g' h',
    _apply_expanding_wilds demo_float demo_heap demo_grid = Ok (g', h') ∧
    length g' = length demo_grid ∧
    (∀ l, l < length demo_heap → h' !! l = demo_heap !! l) ∧
    read_grid h' demo_grid = read_grid demo_heap demo_grid ∧
    ∀ r col, read_grid demo_heap demo_grid !! r = Some col →
      read_grid h' g' !! r
      = Some (if bool_decide (Z.of_nat r ∈ wild_reels demo_float
                              ∧ wild_symbol demo_float ∈ col)
              then replicate num_rows (wild_symbol demo_float)
              else col).
Proof.
  apply (apply_expanding_wilds_frame demo_float demo_heap demo_grid).
  - unfold screen_in_store, demo_grid, demo_heap.
    repeat (apply Forall_cons_2; [split; [simpl; lia|reflexivity]|]). apply Forall_nil_2.
  - unfold reels_in_range. simpl.
    repeat (apply Forall_cons_2; [lia|]). apply Forall_nil_2.
Defined.

(** ** Spin evaluation as a sequence of credits *)

Section Events.
Context {N : Type} `{!PyNum N}.
Implicit Types (self : Simulator N) (st : spin_state N).
Implicit Types (evs : list (option string * N)) (ledger : gmap (option string) N).

Lemma apply_events_app evs1 evs2 st :
  apply_events (evs1 ++ evs2) st = apply_events evs2 (apply_events evs1 st).
Proof. unfold apply_events. apply fold_left_app. Qed.

Lemma apply_events_payout evs st :
  current_spin_payout (apply_events evs st) = add_payouts evs (current_spin_payout st).
Proof.
  revert st. induction evs as [|ev evs IH]; intros st; [done|].
  unfold apply_events, add_payouts in *. simpl. by rewrite IH.
Qed.

Lemma apply_events_winning evs st :
  is_winning_spin (apply_events evs st)
  = match evs with [] => is_winning_spin st | _ => true end.
Proof.
  revert st. induction evs as [|ev evs IH]; intros st; [done|].
  unfold apply_events in *. simpl. rewrite IH. by destruct evs.
Qed.

Lemma apply_events_ledger evs st :
  payout_contributions (apply_events evs st) = apply_credits evs (payout_contributions st).
Proof.
  revert st. induction evs as [|ev evs IH]; intros st; [done|].
  unfold apply_events, apply_credits in *. simpl. by rewrite IH.
Qed.

Lemma scatter_win_events self symbol count st :
  scatter_win self symbol count st
  = evs ← scatter_events self symbol count; Ok (apply_events evs st).
Proof.
  unfold scatter_win, scatter_events.
  destruct (scatter_entry self symbol count) as [raw|]; [|done].
  by destruct (scale_scatter self raw).
Qed.

Lemma eval_payline_events self expanded st payline :
  eval_payline self expanded st payline
  = evs ← line_events self expanded payline; Ok (apply_events evs st).
Proof.
  unfold eval_payline, line_events.
  destruct (line_symbols_of expanded payline) as [line|]; [|done]. simpl.
  destruct (_check_line_win self line) as [[raw key]|]; [|done]. simpl.
  destruct (num_ltb _ raw); [|done].
  by destruct (scale_line self raw).
Qed.

Lemma paylines_events self expanded st (pls : list (list (nat * nat))) :
  foldM (eval_payline self expanded) st pls
  = ls ← mapM' (line_events self expanded) pls; Ok (apply_events (concat ls) st).
Proof.
  revert st. induction pls as [|pl pls IH]; intros st; [done|].
  simpl. rewrite eval_payline_events.
  destruct (line_events self expanded pl) as [evs|]; [|done]. simpl.
  rewrite IH. destruct (mapM' _ pls) as [ls|]; [|done]. simpl.
  by rewrite apply_events_app.
Qed.

Lemma score_screens_events self original expanded ledger :
  score_screens self original expanded ledger
  = evs ← spin_events self original expanded; Ok (apply_events evs (spin_start ledger)).
Proof.
  unfold score_screens, spin_events. fold (spin_start ledger).
  rewrite scatter_win_events.
  destruct (scatter_events self "DollarScatter" _) as [d|]; [|done]. simpl.
  destruct (star_scatter_count self original) as [star|]; [|done]. simpl.
  rewrite scatter_win_events.
  destruct (scatter_events self "StarScatter" star) as [s|]; [|done]. simpl.
  rewrite paylines_events.
  destruct (mapM' _ (paylines self)) as [ls|]; [|done]. simpl.
  by rewrite !apply_events_app.
Qed.

(** [_calculate_spin_payout] as a function of the contents of the screen:
    the credits depend on the contents only, and are then applied to the
    ledger. *)
Lemma calculate_spin_payout_pure self (h : heap) (g : grid) ledger :
  screen_in_store h g →
  reels_in_range (wild_reels self) (length g) →
  _calculate_spin_payout self h g ledger
  = evs ← spin_events self (read_grid h g) (expand_screen self (read_grid h g));
    Ok (apply_events evs (spin_start ledger), h ++ expand_screen self (read_grid h g)).
Proof.
  intros Hg Hrange. unfold _calculate_spin_payout.
  rewrite apply_expanding_wilds_pure by done. simpl.
  rewrite read_grid_app_l by (by apply screen_in_store_valid).
  assert (Hlen : length g = length (expand_screen self (read_grid h g)))
    by (by rewrite expand_screen_length, read_grid_length).
  rewrite Hlen, read_grid_fresh, score_screens_events.
  by destruct (spin_events _ _ _).
Qed.

Lemma screen_in_store_app (h h' : heap) (g : grid) :
  screen_in_store h g → screen_in_store (h ++ h') g.
Proof.
  intros Hg. eapply Forall_impl; [exact Hg|]. simpl. intros l [Hl Hrows].
  rewrite length_app, deref_app_l by done. split; [lia|done].
Qed.

(** C8.  Evaluating a screen a second time, in the store and with any
    ledger left by earlier evaluations, gives the payout and the winning flag
    of the first evaluation and applies the same credits to the ledger; an
    evaluation that raises does so whatever the ledger. *)
Theorem spin_evaluation_deterministic self (h : heap) (g : grid) ledger :
  screen_in_store h g →
  reels_in_range (wild_reels self) (length g) →
  match _calculate_spin_payout self h g ledger with
  | Ok (st, h1) =>
      ∀ ledger', ∃ st' h2 evs,
        _calculate_spin_payout self h1 g ledger' = Ok (st', h2) ∧
        current_spin_payout st' = current_spin_payout st ∧
        is_winning_spin st' = is_winning_spin st ∧
        payout_contributions st = apply_credits evs ledger ∧
        payout_contributions st' = apply_credits evs ledger'
  | Raise e => ∀ ledger', _calculate_spin_payout self h g ledger' = Raise e
  end.
Proof.
  intros Hg Hrange. rewrite calculate_spin_payout_pure by done.
  destruct (spin_events _ _ _) as [evs|e] eqn:Hevs; simpl.
  - intros ledger'. eexists _, _, evs.
    rewrite calculate_spin_payout_pure by (by try apply screen_in_store_app).
    rewrite read_grid_app_l by (by apply screen_in_store_valid).
    rewrite Hevs. simpl. split; [done|].
    rewrite !apply_events_payout, !apply_events_winning, !apply_events_ledger.
    done.
  - intros ledger'. rewrite calculate_spin_payout_pure by done. by rewrite Hevs.
Qed.

End Events.

Lemma spin_evaluation_deterministic_witness :
  match _calculate_spin_payout demo_float demo_heap demo_grid ∅ with
  | Ok (st, h1) =>
      ∀ ledger', ∃ st' h2 evs,
        _calculate_spin_payout demo_float h1 demo_grid ledger'
        = Ok (st', h2) ∧
        current_spin_payout st' = current_spin_payout st ∧
        is_winning_spin st' = is_winning_spin st ∧
        payout_contributions st = apply_credits evs ∅ ∧
        payout_contributions st' = apply_credits evs ledger'
  | Raise e =>
      ∀ ledger',
        _calculate_spin_payout demo_float demo_heap demo_grid ledger'
        = Raise e
  end.
Proof.
  apply (spin_evaluation_deterministic demo_float demo_heap demo_grid).
  - unfold screen_in_store, demo_grid, demo_heap.
    repeat (apply Forall_cons_2; [split; [simpl; lia|reflexivity]|]). apply Forall_nil_2.
  - unfold reels_in_range. simpl.
    repeat (apply Forall_cons_2; [lia|]). apply Forall_nil_2.
Defined.

(** ** Scatter evaluation *)

Section Scatter.
Context {N : Type} `{!PyNum N}.
Implicit Types (self : Simulator N) (scr : screen).

Lemma dollar_scatter_count_cells scr :
  dollar_scatter_count scr = length (filter (λ s, s = "DollarScatter") (concat scr)).
Proof.
  unfold dollar_scatter_count. induction scr as [|col scr IH]; [done|].
  simpl. rewrite filter_app, length_app, <- IH. done.
Qed.

Lemma star_scatter_loop scr (reels : list Z) (count : nat) :
  reels_in_range reels (length scr) →
  foldM (λ count r_idx,
           col ← py_index scr r_idx;
           Ok (if py_any_eq "StarScatter" col then S count else count))
        count reels
  = Ok (count + length (filter (λ r, "StarScatter" ∈ default [] (scr !! Z.to_nat r)) reels)).
Proof.
  revert count. induction reels as [|r reels IH]; intros count Hrange; simpl.
  - by rewrite Nat.add_0_r.
  - inversion Hrange as [|? ? Hr Hrest]; subst.
    rewrite py_index_nat by lia. unfold nat_index.
    destruct (lookup_lt_is_Some_2 scr (Z.to_nat r)) as [col Hcol]; [lia|].
    rewrite Hcol. simpl. rewrite IH by done. f_equal.
    rewrite filter_cons. rewrite Hcol. simpl.
    destruct (py_any_eq "StarScatter" col) eqn:Hany.
    + apply py_any_eq_true in Hany. rewrite decide_True by done. simpl. lia.
    + rewrite decide_False; [done|]. intros Hin%py_any_eq_true. congruence.
Qed.

Lemma star_scatter_count_reels self scr :
  reels_in_range (star_scatter_reels self) (length scr) →
  star_scatter_count self scr
  = Ok (length (filter (λ r, "StarScatter" ∈ default [] (scr !! Z.to_nat r))
                       (star_scatter_reels self))).
Proof. intros Hrange. unfold star_scatter_count. by rewrite star_scatter_loop. Qed.

Lemma scatter_events_credit self symbol count evs :
  scatter_events self symbol count = Ok evs → evs = scatter_credit self symbol count.
Proof.
  unfold scatter_events, scatter_credit, scatter_entry, scale_scatter, scatter_key, py_div.
  destruct (scatter_pays self !! symbol) as [pays|]; simpl; [|congruence].
  destruct (pays !! count) as [[raw|s]|]; simpl; [|done|congruence].
  destruct (num_is_zero _); simpl; congruence.
Qed.

(** What a successful evaluation has credited. *)
Lemma calculate_spin_payout_credits self (h : heap) (g : grid)
    (ledger : gmap (option string) N) (st : spin_state N) (h1 : heap) :
  screen_in_store h g →
  reels_in_range (wild_reels self) (length g) →
  reels_in_range (star_scatter_reels self) (length g) →
  _calculate_spin_payout self h g ledger = Ok (st, h1) →
  let original := read_grid h g in
  let dollar := length (filter (λ s, s = "DollarScatter") (concat original)) in
  let star :=
    length (filter (λ r, "StarScatter" ∈ default [] (original !! Z.to_nat r))
                   (star_scatter_reels self)) in
  let scatter :=
    scatter_credit self "DollarScatter" dollar ++ scatter_credit self "StarScatter" star in
  ∃ lines,
    mapM' (line_events self (expand_screen self original)) (paylines self) = Ok lines ∧
    current_spin_payout st = add_payouts (scatter ++ concat lines) (of_Z 0) ∧
    (scatter ≠ [] → is_winning_spin st = true) ∧
    payout_contributions st = apply_credits (scatter ++ concat lines) ledger.
Proof.
  intros Hg Hwild Hstar Hcalc. simpl.
  rewrite calculate_spin_payout_pure in Hcalc by done.
  apply bind_Ok in Hcalc as (evs & Hevs & [= <- <-]).
  unfold spin_events in Hevs.
  apply bind_Ok in Hevs as (d & Hd & Hevs).
  rewrite star_scatter_count_reels in Hevs by (by rewrite read_grid_length).
  simpl in Hevs.
  apply bind_Ok in Hevs as (s & Hs & Hevs).
  apply bind_Ok in Hevs as (lines & Hlines & [= <-]).
  rewrite dollar_scatter_count_cells in Hd.
  apply scatter_events_credit in Hd as ->. apply scatter_events_credit in Hs as ->.
  exists lines. split; [done|].
  rewrite apply_events_payout, apply_events_winning, apply_events_ledger.
  rewrite !(assoc_L (++)). split; [done|]. split; [|done].
  intros Hne.
  match goal with |- match ?l with _ => _ end = _ => destruct l eqn:Heq end; [|done].
  apply app_eq_nil in Heq as [Heq _]. done.
Qed.

End Scatter.


(** ** Scatter symbols are recognised by name *)

Section ScatterNames.
Context {N : Type} `{!PyNum N}.
Implicit Types (self : Simulator N) (sp : gmap string (gmap nat (pyval N))).

Lemma scatter_win_agree self sp name count st :
  sp !! name = scatter_pays self !! name →
  scatter_win (with_scatter_pays self sp) name count st = scatter_win self name count st.
Proof.
  intros Hsame. unfold scatter_win, scatter_entry, scale_scatter. simpl.
  by rewrite Hsame.
Qed.

Lemma foldM_ext {A B} (f f' : B → A → result B) (acc : B) (xs : list A) :
  (∀ b a, f b a = f' b a) → foldM f acc xs = foldM f' acc xs.
Proof.
  intros Hext. revert acc. induction xs as [|x xs IH]; intros acc; simpl; [done|].
  rewrite Hext. destruct (f' acc x); simpl; auto.
Qed.

Lemma count_consecutive_agree self sp line target (n i count : nat) :
  count_consecutive (with_scatter_pays self sp) line target n i count
  = count_consecutive self line target n i count.
Proof.
  revert i count. induction n as [|n IH]; intros i count; simpl; [done|].
  destruct (nat_index line i) as [symbol_on_line|]; [|done]. simpl.
  change (cell_matches (with_scatter_pays self sp)) with (cell_matches self).
  by rewrite IH.
Qed.

Lemma first_paying_count_agree self sp target (m count : nat) :
  first_paying_count (with_scatter_pays self sp) target m count
  = first_paying_count self target m count.
Proof.
  induction count as [|count IH]; simpl; [done|].
  destruct (_ <? _)%nat; [done|].
  destruct (line_pays self !! _); [done|]. exact IH.
Qed.

Lemma check_line_win_agree self sp line :
  _check_line_win (with_scatter_pays self sp) line = _check_line_win self line.
Proof.
  unfold _check_line_win. apply foldM_ext. intros best target.
  unfold check_symbol. rewrite count_consecutive_agree. simpl.
  destruct (count_consecutive self line target _ 0 0) as [count|]; [|done]. simpl.
  by rewrite first_paying_count_agree.
Qed.

Lemma eval_payline_agree self sp expanded st payline :
  eval_payline (with_scatter_pays self sp) expanded st payline
  = eval_payline self expanded st payline.
Proof.
  unfold eval_payline.
  destruct (line_symbols_of expanded payline) as [line|]; [|done]. simpl.
  by rewrite check_line_win_agree.
Qed.

Lemma calculate_spin_payout_agree self sp (h : heap) (g : grid) ledger :
  sp !! "DollarScatter" = scatter_pays self !! "DollarScatter" →
  sp !! "StarScatter" = scatter_pays self !! "StarScatter" →
  _calculate_spin_payout (with_scatter_pays self sp) h g ledger
  = _calculate_spin_payout self h g ledger.
Proof.
  intros Hdollar Hstar. unfold _calculate_spin_payout.
  change (_apply_expanding_wilds (with_scatter_pays self sp) h g)
    with (_apply_expanding_wilds self h g).
  destruct (_apply_expanding_wilds self h g) as [[expanded h1]|]; [|done]. simpl.
  unfold score_screens. rewrite scatter_win_agree by done.
  destruct (scatter_win self "DollarScatter" _ _) as [st1|]; [|done]. simpl.
  change (star_scatter_count (with_scatter_pays self sp)) with (star_scatter_count self).
  destruct (star_scatter_count self _) as [star|]; [|done]. simpl.
  rewrite scatter_win_agree by done.
  destruct (scatter_win self "StarScatter" _ _) as [st2|]; [|done]. simpl.
  f_equal. apply foldM_ext. intros st payline. apply eval_payline_agree.
Qed.

(** C9.  The scatter paytable of a symbol that is named neither
    ["DollarScatter"] nor ["StarScatter"] is never read: whatever it holds,
    and whether it exists or not, the payout, the winning flag and the
    ledger of every spin are the same; and when the scatter paytable has
    no entry under these two names, no scatter win is credited at all,
    whatever the configured scatter symbols. *)
Theorem scatter_rules_fixed_by_name self (symbol : string) :
  symbol ≠ "DollarScatter" →
  symbol ≠ "StarScatter" →
  (∀ pays (h : heap) (g : grid) ledger,
     _calculate_spin_payout
       (with_scatter_pays self (<[symbol := pays]> (scatter_pays self))) h g ledger
     = _calculate_spin_payout self h g ledger) ∧
  (∀ (h : heap) (g : grid) ledger,
     _calculate_spin_payout
       (with_scatter_pays self (delete symbol (scatter_pays self))) h g ledger
     = _calculate_spin_payout self h g ledger) ∧
  (scatter_pays self !! "DollarScatter" = None →
   scatter_pays self !! "StarScatter" = None →
   ∀ original expanded ledger,
     score_screens self original expanded ledger
     = _ ← star_scatter_count self original;
       foldM (eval_payline self expanded) (spin_start ledger) (paylines self)).
Proof.
  intros Hdollar Hstar. split; [|split].
  - intros pays h g ledger.
    apply calculate_spin_payout_agree; by rewrite lookup_insert_ne.
  - intros h g ledger.
    apply calculate_spin_payout_agree; by rewrite lookup_delete_ne.
  - intros Hd Hs original expanded ledger.
    unfold score_screens, scatter_win, scatter_entry. rewrite Hd, Hs. simpl.
    by destruct (star_scatter_count self original).
Qed.

End ScatterNames.

Lemma scatter_rules_fixed_by_name_witness :
  (∀ pays (h : heap) (g : grid) ledger,
     _calculate_spin_payout
       (with_scatter_pays demo_float (<["BonusScatter" := pays]> (scatter_pays demo_float)))
       h g ledger
     = _calculate_spin_payout demo_float h g ledger) ∧
  (∀ (h : heap) (g : grid) ledger,
     _calculate_spin_payout
       (with_scatter_pays demo_float (delete "BonusScatter" (scatter_pays demo_float)))
       h g ledger
     = _calculate_spin_payout demo_float h g ledger) ∧
  (scatter_pays demo_float !! "DollarScatter" = None →
   scatter_pays demo_float !! "StarScatter" = None →
   ∀ original expanded ledger,
     score_screens demo_float original expanded ledger
     = _ ← star_scatter_count demo_float original;
       foldM (eval_payline demo_float expanded)
             (spin_start ledger) (paylines demo_float)).
Proof.
  apply (scatter_rules_fixed_by_name demo_float "BonusScatter").
  - discriminate.
  - discriminate.
Defined.

(** ** Paytable parsing *)

Lemma fold_left_filter {A B} (f : B → A → B) (P : A → Prop) `{!∀ x, Decision (P x)}
    (l : list A) (acc : B) :
  (∀ b x, ¬ P x → f b x = b) →
  fold_left f l acc = fold_left f (filter P l) acc.
Proof.
  intros Hskip. revert acc. induction l as [|x l IH]; intros acc; [done|].
  rewrite filter_cons. simpl. destruct (decide (P x)) as [HP|HP]; simpl.
  - apply IH.
  - rewrite Hskip by done. apply IH.
Qed.

Lemma fold_left_invariant {A B} (f : B → A → B) (I : B → Prop) (l : list A) (acc : B) :
  I acc → (∀ b x, x ∈ l → I b → I (f b x)) → I (fold_left f l acc).
Proof.
  revert acc. induction l as [|x l IH]; intros acc Hacc Hstep; [done|].
  simpl. apply IH.
  - apply Hstep; [left|done].
  - intros b y Hy. apply Hstep. by right.
Qed.

Section Parsing.
Context {N : Type} `{!PyNum N}.
Implicit Types (paytable : list (string * list (string * pyval N))).
Implicit Types (wild : string) (scatters : list string).

Lemma filter_keys_fst paytable wild :
  map fst (filter (λ e, e.1 ≠ wild) paytable) = filter (λ s, s ≠ wild) (map fst paytable).
Proof.
  induction paytable as [|[symbol data] paytable IH]; [done|].
  cbn [map fst]. rewrite !filter_cons. cbn [fst].
  destruct (decide (symbol ≠ wild)); cbn [map fst]; by rewrite IH.
Qed.

(** Entries under the wild symbol are skipped by both loops. *)
Lemma parse_paytable_skips_wild paytable wild scatters :
  _parse_paytable paytable wild scatters
  = _parse_paytable (filter (λ e, e.1 ≠ wild) paytable) wild scatters.
Proof.
  unfold _parse_paytable. rewrite filter_keys_fst.
  rewrite <- (fold_left_filter (parse_entry wild scatters) (λ e, e.1 ≠ wild)).
  - apply fold_left_filter. intros [[lp sp] rs] sym_name Hwild.
    unfold parse_regular. apply dec_stable in Hwild. subst.
    rewrite (bool_decide_eq_true_2 (wild = wild)) by done.
    by rewrite andb_false_r.
  - intros [[lp sp] rs] [symbol data] Hwild. simpl in Hwild.
    apply dec_stable in Hwild. subst. unfold parse_entry.
    by rewrite bool_decide_eq_true_2.
Qed.

(** C10.  Two configurations that differ only by the paytable entries
    keyed by the wild symbol build the same simulator, so every spin
    evaluation and every simulation run gives the same result. *)
Theorem wild_paytable_irrelevant (config : Config N) paytable' :
  filter (λ e, e.1 ≠ default "Wild" (c_wild_symbol config)) (c_paytable config)
  = filter (λ e, e.1 ≠ default "Wild" (c_wild_symbol config)) paytable' →
  init (with_paytable config paytable') = init config ∧
  ∀ self self',
    init config = Ok self → init (with_paytable config paytable') = Ok self' →
    (∀ (h : heap) (g : grid) ledger,
       _calculate_spin_payout self' h g ledger = _calculate_spin_payout self h g ledger) ∧
    (∀ num_spins (gen : rng),
       run_simulation self' num_spins gen = run_simulation self num_spins gen).
Proof.
  intros Hsame.
  assert (Hinit : init (with_paytable config paytable') = init config).
  { unfold init. simpl. destruct (py_div _ _) as [per_line|]; [|done]. simpl.
    f_equal. unfold make_simulator. simpl.
    rewrite (parse_paytable_skips_wild paytable'), <- Hsame.
    by rewrite <- parse_paytable_skips_wild. }
  split; [done|]. intros self self' Hself Hself'.
  rewrite Hinit, Hself in Hself'. injection Hself' as <-. done.
Qed.

End Parsing.

Lemma wild_paytable_irrelevant_witness :
  let config := BASE_GAME_CONFIG demo_strips in
  let paytable' := ("Wild", [("5", Num 999%float)]) :: c_paytable config in
  init (with_paytable config paytable')
  = init config ∧
  ∀ self self',
    init config = Ok self →
    init (with_paytable config paytable') = Ok self' →
    (∀ (h : heap) (g : grid) ledger,
       _calculate_spin_payout self' h g ledger
       = _calculate_spin_payout self h g ledger) ∧
    (∀ num_spins (gen : rng),
       run_simulation self' num_spins gen
       = run_simulation self num_spins gen).
Proof.
  apply (wild_paytable_irrelevant
           (BASE_GAME_CONFIG demo_strips)).
  reflexivity.
Defined.

Section ParsingNeverRejects.
Context {N : Type} `{!PyNum N}.
Implicit Types (paytable : list (string * list (string * pyval N))).
Implicit Types (wild : string) (scatters : list string).

Lemma add_line_pays_lookup (symbol : string) (data : list (string * pyval N))
    (lp : gmap (string * nat) (pyval N)) (s : string) (c : nat) (v : pyval N) :
  add_line_pays symbol data lp !! (s, c) = Some v →
  lp !! (s, c) = Some v ∨
  (s = symbol ∧ ∃ k, (k, v) ∈ data ∧ isdigit k = true ∧ int_of_digits k = c).
Proof.
  unfold add_line_pays.
  apply (fold_left_invariant _
    (λ lp', lp' !! (s, c) = Some v →
       lp !! (s, c) = Some v ∨
       (s = symbol ∧ ∃ k, (k, v) ∈ data ∧ isdigit k = true ∧ int_of_digits k = c))).
  - auto.
  - intros lp' [k v'] Hin IH. simpl. destruct (isdigit k) eqn:Hk; [|done].
    destruct (decide ((symbol, int_of_digits k) = (s, c))) as [[= <- <-]|Hne].
    + rewrite lookup_insert_eq. intros [= ->]. right. split; [done|]. by exists k.
    + by rewrite lookup_insert_ne.
Qed.

Lemma set_add_elem (x y : string) (s : list string) :
  y ∈ set_add x s → y = x ∨ y ∈ s.
Proof.
  unfold set_add. destruct (bool_decide (x ∈ s)); [auto|].
  rewrite elem_of_app, list_elem_of_singleton. tauto.
Qed.

Lemma parse_paytable_invariant paytable wild scatters :
  parse_invariant paytable wild scatters (_parse_paytable paytable wild scatters).
Proof.
  unfold _parse_paytable. apply fold_left_invariant.
  - apply fold_left_invariant.
    + split; [intros s c v; simpl; by rewrite lookup_empty|].
      intros s Hs. by apply not_elem_of_nil in Hs.
    + intros [[lp sp] rs] [symbol data] Hin [Hlp Hrs]. unfold parse_entry.
      destruct (bool_decide (symbol = wild)) eqn:Hw; [done|]. apply bool_decide_eq_false in Hw.
      destruct (bool_decide (symbol ∈ scatters)) eqn:Hs; [done|]. apply bool_decide_eq_false in Hs.
      split; simpl.
      * intros s c v [Hold|(-> & k & Hk & Hdigit & Hint)]%add_line_pays_lookup; [by apply Hlp|].
        split; [done|]. split; [done|]. by exists data, k.
      * intros s [->|Hold]%set_add_elem; [done|by apply Hrs].
  - intros [[lp sp] rs] sym_name Hin [Hlp Hrs]. unfold parse_regular.
    destruct (bool_decide (sym_name ∈ scatters)) eqn:Hs; [done|]. apply bool_decide_eq_false in Hs.
    destruct (bool_decide (sym_name = wild)) eqn:Hw; [done|]. apply bool_decide_eq_false in Hw.
    split; [done|]. simpl.
    intros s [->|Hold]%set_add_elem; [done|by apply Hrs].
Qed.

End ParsingNeverRejects.

(** ** Finalisation *)

Section Finalisation.
Context {N : Type} `{!PyNum N}.
Implicit Types (self : Simulator N) (st : stats N).

(** The variance computed at line 204. *)
Lemma finalize_Ok self (total_spins : Z) st r :
  finalize self total_spins st = Ok r →
  let mean := num_quot (total_payout st) (of_Z total_spins) in
  r_variance r
  = (num_quot (sum_of_squared_payouts st) (of_Z total_spins) - mean * mean)%num ∧
  (r_variance r <? of_Z 0)%num = false ∧
  r_std_dev r = num_root (r_variance r).
Proof.
  unfold finalize, py_div, py_sqrt. intros Hfin.
  destruct (num_is_zero (_ * _)%num); [done|]. simpl in Hfin.
  destruct (num_is_zero (of_Z total_spins)); [done|]. simpl in Hfin.
  destruct (num_ltb _ (of_Z 0)) eqn:Hneg; [done|]. simpl in Hfin.
  destruct (0 <? total_winning_spins st)%nat.
  - destruct (num_is_zero (of_Z (Z.of_nat _))); [done|]. simpl in Hfin.
    injection Hfin as <-. simpl. by rewrite Hneg.
  - simpl in Hfin. injection Hfin as <-. simpl. by rewrite Hneg.
Qed.

Lemma finalize_negative_variance self (total_spins : Z) st :
  num_is_zero (of_Z total_spins * total_bet_per_spin self)%num = false →
  num_is_zero (of_Z total_spins) = false →
  let mean := num_quot (total_payout st) (of_Z total_spins) in
  (num_quot (sum_of_squared_payouts st) (of_Z total_spins) - mean * mean <? of_Z 0)%num = true →
  finalize self total_spins st = Raise ValueError.
Proof.
  simpl. intros Hbet Hspins Hneg. unfold finalize, py_div, py_sqrt.
  rewrite Hbet, Hspins. simpl. by rewrite Hneg.
Qed.

(** C7 (as the code has it).  The standard deviation of a report is the
    square root of the variance [sumSquaredPayout / numSpins - meanPayout²]
    itself, which is then not negative; when the computed variance is
    negative, [math.sqrt] raises and the run ends with a [ValueError]
    instead of a report. *)
Theorem std_dev_is_root_of_unclamped_variance self (num_spins : Z) (gen : rng) :
  (∀ r, run_simulation self num_spins gen = Ok r →
     (r_variance r <? of_Z 0)%num = false ∧ r_std_dev r = num_root (r_variance r)) ∧
  (∀ st r, finalize self num_spins st = Ok r →
     let mean := num_quot (total_payout st) (of_Z num_spins) in
     r_variance r
     = (num_quot (sum_of_squared_payouts st) (of_Z num_spins) - mean * mean)%num ∧
     (r_variance r <? of_Z 0)%num = false ∧
     r_std_dev r = num_root (r_variance r)) ∧
  (∀ st,
     num_is_zero (of_Z num_spins * total_bet_per_spin self)%num = false →
     num_is_zero (of_Z num_spins) = false →
     let mean := num_quot (total_payout st) (of_Z num_spins) in
     (num_quot (sum_of_squared_payouts st) (of_Z num_spins) - mean * mean <? of_Z 0)%num
     = true →
     finalize self num_spins st = Raise ValueError).
Proof.
  split; [|split].
  - intros r Hrun. unfold run_simulation in Hrun.
    apply bind_Ok in Hrun as ([[st h] gen'] & _ & Hfin).
    by apply finalize_Ok in Hfin as (_ & Hneg & Hroot).
  - intros st r. apply finalize_Ok.
  - intros st. apply finalize_negative_variance.
Qed.

End Finalisation.

(** C7 as stated fails: three spins that each pay a tenth of a credit
    accumulate, in binary64 arithmetic, a variance just below zero, and the
    run ends with the [ValueError] of [math.sqrt]. *)
Lemma negative_variance_raises :
  ∃ self st h gen',
    init tenth_config = Ok self ∧
    spin_loop self 3 (fresh_stats, [], λ k, k) = Ok (st, h, gen') ∧
    PrimFloat.ltb
      (PrimFloat.sub (PrimFloat.div (sum_of_squared_payouts st) 3)
         (PrimFloat.mul (PrimFloat.div (total_payout st) 3) (PrimFloat.div (total_payout st) 3)))
      0 = true ∧
    finalize self 3 st = Raise ValueError ∧
    run_simulation self 3 (λ k, k) = Raise ValueError.
Proof.
  eexists _, _, _, _. split; [reflexivity|].
  split; [vm_compute; reflexivity|].
  split; [vm_compute; reflexivity|].
  split; vm_compute; reflexivity.
Qed.

(** ** Degenerate runs *)

Lemma draw_stops_empty_strip (strips : list (list string)) (gen : rng) :
  [] ∈ strips → draw_stops strips gen = Raise ValueError.
Proof.
  revert gen. induction strips as [|strip strips IH]; intros gen Hin.
  - by apply not_elem_of_nil in Hin.
  - simpl. destruct strip as [|c strip]; [done|].
    apply elem_of_cons in Hin as [?|Hin]; [done|].
    simpl. by rewrite IH.
Qed.

Lemma spin_reels_empty_strip {N} (self : Simulator N) (h : heap) (gen : rng) :
  [] ∈ virtual_reel_strips self → _spin_reels self h gen = Raise ValueError.
Proof. intros Hin. unfold _spin_reels. by rewrite draw_stops_empty_strip. Qed.

Lemma run_simulation_empty_strip {N} `{!PyNum N} (self : Simulator N) (n : Z) (gen : rng) :
  (0 < n)%Z → [] ∈ virtual_reel_strips self →
  run_simulation self n gen = Raise ValueError.
Proof.
  intros Hn Hin. unfold run_simulation.
  destruct (Z.to_nat n) as [|k] eqn:Hk; [lia|].
  simpl. by rewrite spin_reels_empty_strip.
Qed.

Section ExactRuns.
Variable qroot : Q → Q.
Local Abbreviation exact := (Q_num qroot).
Local Open Scope Q_scope.
Implicit Types (self : Simulator Q).

Lemma exact_div_zero (x : Q) :
  ¬ x == 0 → ∃ q, py_div (PyNum0 := exact) 0 x = Ok q ∧ q == 0.
Proof.
  intros Hx. unfold py_div. simpl.
  destruct (Qeq_bool x 0) eqn:Hz; [by apply Qeq_bool_iff in Hz|].
  eexists. split; [done|]. unfold Qdiv. ring.
Qed.

Lemma exact_not_negative (x : Q) : x == 0 → negb (Qle_bool 0 x) = false.
Proof.
  intros Hx. apply negb_false_iff, Qle_bool_iff. rewrite Hx. apply Qle_refl.
Qed.

(** C4 (as the code has it).  A run of zero spins executes no spin and ends
    with the [ZeroDivisionError] of line 201; a run of at least one spin over
    a configuration with an empty reel strip ends with the [ValueError] of
    [random.randrange] while the first screen is drawn; a run of a negative
    number of spins executes no spin and returns a report of zeros. *)
Theorem run_simulation_degenerate_runs self (gen : rng) :
  (∀ acc, spin_loop (PyNum0 := exact) self (Z.to_nat 0) acc = Ok acc) ∧
  run_simulation (PyNum0 := exact) self 0 gen = Raise ZeroDivisionError ∧
  (∀ n, (0 < n)%Z → [] ∈ virtual_reel_strips self →
     (∀ h, _spin_reels self h gen = Raise ValueError) ∧
     run_simulation (PyNum0 := exact) self n gen = Raise ValueError) ∧
  (∀ n, (n < 0)%Z → ¬ total_bet_per_spin self == 0 →
     (∀ acc, spin_loop (PyNum0 := exact) self (Z.to_nat n) acc = Ok acc) ∧
     ∃ r, run_simulation (PyNum0 := exact) self n gen = Ok r ∧
          r_total_spins r = n ∧
          r_total_payout r == 0 ∧ r_rtp r == 0 ∧ r_variance r == 0 ∧
          r_hit_frequency r == 0 ∧ r_contributions r = ∅).
Proof.
  split; [done|]. split; [|split].
  - unfold run_simulation, finalize, py_div. simpl. done.
  - intros n Hn Hin. split.
    + intros h. by apply spin_reels_empty_strip.
    + by apply run_simulation_empty_strip.
  - intros n Hn Hbet.
    assert (Hnat : Z.to_nat n = 0%nat) by lia.
    split; [by rewrite Hnat|].
    unfold run_simulation. rewrite Hnat. simpl. unfold finalize. simpl.
    assert (Hn0 : ¬ inject_Z n == 0).
    { change 0 with (inject_Z 0). rewrite inject_Z_injective. lia. }
    change (inject_Z (Z.of_nat 0)) with 0. change (inject_Z 0) with 0.
    destruct (exact_div_zero (inject_Z n * total_bet_per_spin self)) as (q & -> & Hq).
    { intros Hz. apply Qmult_integral in Hz as [?|?]; tauto. }
    destruct (exact_div_zero (inject_Z n)) as (m & -> & Hm0); [done|].
    cbn [mbind result_bind]. unfold py_sqrt. cbn [num_ltb num_sub num_mul of_Z exact Q_num].
    assert (Hvar : m - m * m == 0) by (rewrite Hm0; ring).
    change (inject_Z 0) with 0. rewrite (exact_not_negative _ Hvar).
    eexists. split; [done|]. cbn [r_total_spins r_total_payout r_rtp r_variance
      r_hit_frequency r_contributions].
    split; [done|]. split; [reflexivity|].
    split; [rewrite Hq; ring|]. split; [done|].
    split; [rewrite Hm0; ring|done].
Qed.

End ExactRuns.

(** C4 as stated fails: with a negative number of spins the run does not
    fail, it returns a report. *)
Lemma negative_spin_count_returns_report :
  ∃ r, run_simulation demo_float (-1) (λ k, k) = Ok r ∧ r_total_spins r = (-1)%Z.
Proof. eexists. split; [vm_compute; reflexivity|reflexivity]. Qed.

(** ** Payline evaluation *)

Section Paylines.
Context {N : Type} `{!PyNum N}.
Implicit Types (self : Simulator N) (line : list string).

Lemma nat_index_middle {A} (pre rest : list A) (x : A) :
  nat_index (pre ++ x :: rest) (length pre) = Ok x.
Proof. unfold nat_index. by rewrite list_lookup_middle. Qed.

(** The loop of lines 136-142 counts the leading run of matching cells. *)
Lemma count_consecutive_run self (pre rest : list string) target (count : nat) :
  count_consecutive self (pre ++ rest) target (length rest) (length pre) count
  = Ok (count + leading_run (cell_matches self target) rest).
Proof.
  revert pre count. induction rest as [|x rest IH]; intros pre count; simpl.
  - by rewrite Nat.add_0_r.
  - rewrite nat_index_middle. simpl.
    destruct (cell_matches self target x); [|by rewrite Nat.add_0_r].
    rewrite (cons_middle x pre rest), (assoc_L (++)).
    replace (S (length pre)) with (length (pre ++ [x]))
      by (rewrite length_app; simpl; lia).
    rewrite IH. f_equal. lia.
Qed.

Lemma cell_matches_regular self target cell :
  target ∉ scatter_symbols self →
  cell_matches self target cell = matches_or_wild (wild_symbol self) target cell.
Proof.
  intros Hreg. unfold cell_matches, matches_or_wild.
  rewrite (bool_decide_eq_false_2 (target ∈ _)) by done. simpl.
  rewrite andb_true_r.
  destruct (decide (cell = target)) as [->|Hne].
  - rewrite (bool_decide_eq_true_2 (target = target)) by done. simpl.
    symmetry. apply bool_decide_eq_true_2. by left.
  - rewrite (bool_decide_eq_false_2 (cell = target)) by done. simpl.
    apply bool_decide_ext. tauto.
Qed.

Lemma leading_run_ext (p q : string → bool) line :
  (∀ c, p c = q c) → leading_run p line = leading_run q line.
Proof.
  intros Hext. induction line as [|c line IH]; simpl; [done|].
  by rewrite Hext, IH.
Qed.

Lemma count_consecutive_regular self line target :
  length line = num_reels self →
  target ∉ scatter_symbols self →
  count_consecutive self line target (num_reels self) 0 0
  = Ok (leading_run (matches_or_wild (wild_symbol self) target) line).
Proof.
  intros <- Hreg.
  pose proof (count_consecutive_run self [] line target 0) as Hrun.
  simpl in Hrun. rewrite Hrun. f_equal.
  apply leading_run_ext. intros c. by apply cell_matches_regular.
Qed.

(** The search of lines 145-151 finds the greatest paying count between the
    minimum and the run length. *)
Lemma first_paying_count_Some self target (m run c : nat) (raw : pyval N) :
  first_paying_count self target m run = Some (c, raw) ↔
  m ≤ c ≤ run ∧ line_pays self !! (target, c) = Some raw ∧
  ∀ c', c < c' ≤ run → line_pays self !! (target, c') = None.
Proof.
  induction run as [|run IH]; simpl.
  - destruct (Nat.ltb_spec 0 m) as [Hm|Hm].
    + split; [done|]. intros ([? ?] & _). lia.
    + destruct (line_pays self !! (target, 0)) as [v|] eqn:Hv.
      * split.
        -- intros [= <- <-]. split; [lia|]. split; [done|]. intros c' ?. lia.
        -- intros (Hc & Hraw & _). assert (c = 0) as -> by lia. congruence.
      * split; [done|]. intros (Hc & Hraw & _). assert (c = 0) as -> by lia. congruence.
  - destruct (Nat.ltb_spec (S run) m) as [Hm|Hm].
    + split; [done|]. intros ([? ?] & _). lia.
    + destruct (line_pays self !! (target, S run)) as [v|] eqn:Hv.
      * split.
        -- intros [= <- <-]. split; [lia|]. split; [done|]. intros c' ?. lia.
        -- intros (Hc & Hraw & Hnone).
           destruct (decide (c = S run)) as [->|Hne]; [congruence|].
           rewrite (Hnone (S run)) in Hv by lia. done.
      * rewrite IH. split.
        -- intros (Hc & Hraw & Hnone). split; [lia|]. split; [done|].
           intros c' Hc'. destruct (decide (c' = S run)) as [->|Hne]; [done|].
           apply Hnone. lia.
        -- intros (Hc & Hraw & Hnone).
           destruct (decide (c = S run)) as [->|Hne]; [congruence|].
           split; [lia|]. split; [done|]. intros c' Hc'. apply Hnone. lia.
Qed.

(** One iteration of the loop over the regular symbols, in terms of the
    candidate of the symbol. *)
Lemma check_symbol_candidate self line (best : N * option string) target :
  length line = num_reels self →
  target ∉ scatter_symbols self →
  check_symbol self line best target
  = match candidate self line target with
    | Some (count_match, raw) =>
        raw_payout ← as_num raw;
        if (best.1 <? raw_payout)%num
        then Ok (raw_payout, Some (combo_key target count_match))
        else Ok best
    | None => Ok best
    end.
Proof.
  intros Hlen Hreg. unfold check_symbol, candidate.
  by rewrite count_consecutive_regular.
Qed.

Lemma candidate_numeric self line target c raw :
  numeric_line_pays self →
  candidate self line target = Some (c, raw) → ∃ x, raw = Num x.
Proof.
  intros Hnum Hcand. unfold candidate in Hcand.
  apply first_paying_count_Some in Hcand as (_ & Hraw & _).
  apply Hnum in Hraw. destruct raw as [x|s]; [by exists x|done].
Qed.

Lemma check_line_win_total self line :
  length line = num_reels self →
  (∀ S, S ∈ regular_symbols self → S ∉ scatter_symbols self) →
  numeric_line_pays self →
  is_Ok (_check_line_win self line).
Proof.
  intros Hlen Hreg Hnum. unfold _check_line_win.
  generalize (of_Z 0, @None string) as best.
  induction (regular_symbols self) as [|target syms IH]; intros best; simpl.
  - by eexists.
  - rewrite check_symbol_candidate by (done || apply Hreg; left).
    destruct (candidate self line target) as [[c raw]|] eqn:Hcand.
    + destruct (candidate_numeric _ _ _ _ _ Hnum Hcand) as [x ->]. simpl.
      destruct (num_ltb _ x); simpl; apply IH; intros S HS; apply Hreg; by right.
    + simpl. apply IH. intros S HS. apply Hreg. by right.
Qed.

End Paylines.

Section ExactPaylines.
Variable qroot : Q → Q.
Local Abbreviation exact := (Q_num qroot).
Local Open Scope Q_scope.
Implicit Types (self : Simulator Q) (line : list string).

Lemma exact_ltb_lt (x y : Q) : num_ltb (PyNum := exact) x y = true ↔ x < y.
Proof.
  simpl. rewrite negb_true_iff, <- not_true_iff_false, Qle_bool_iff.
  split; [apply Qnot_le_lt|apply Qlt_not_le].
Qed.

Lemma exact_ltb_ge (x y : Q) : num_ltb (PyNum := exact) x y = false ↔ y <= x.
Proof. simpl. by rewrite negb_false_iff, Qle_bool_iff. Qed.

(** The invariant of the loop over the regular symbols. *)
Lemma check_symbol_keeps self line (syms : list string) best key target best' key' :
  length line = num_reels self →
  target ∉ scatter_symbols self →
  kept_among (PyNum0 := exact) self line syms best key →
  check_symbol (PyNum0 := exact) self line (best, key) target = Ok (best', key') →
  kept_among (PyNum0 := exact) self line (syms ++ [target]) best' key'.
Proof.
  intros Hlen Hreg Hkept. rewrite check_symbol_candidate by done.
  destruct (candidate self line target) as [[c [raw|s]]|] eqn:Hcand; simpl; [| done |].
  - destruct (negb (Qle_bool raw best)) eqn:Hlt.
    + (* the candidate of [target] pays more: it is kept *)
      intros [= <- <-]. apply (exact_ltb_lt best raw) in Hlt.
      exists syms, target, [], c. split; [done|]. split; [done|]. split; [done|].
      destruct key as [k|].
      * destruct Hkept as (pre & S0 & post & c0 & -> & Hc0 & _ & Hpos & Hpre & Hpost).
        apply exact_ltb_lt in Hpos.
        split; [apply exact_ltb_lt; change (inject_Z 0) with 0 in *; lra|].
        split; [|intros S' c' raw' HS'; by apply not_elem_of_nil in HS'].
        intros S' c' raw' HS' Hc'. apply exact_ltb_lt.
        apply elem_of_app in HS' as [HS'|HS']; [|apply elem_of_cons in HS' as [->|HS']].
        -- specialize (Hpre _ _ _ HS' Hc'). apply exact_ltb_lt in Hpre. lra.
        -- rewrite Hc0 in Hc'. injection Hc' as _ <-. done.
        -- specialize (Hpost _ _ _ HS' Hc'). apply exact_ltb_ge in Hpost. lra.
      * destruct Hkept as [-> Hnone].
        split; [by apply exact_ltb_lt|].
        split; [|intros S' c' raw' HS'; by apply not_elem_of_nil in HS'].
        intros S' c' raw' HS' Hc'. apply exact_ltb_lt.
        specialize (Hnone _ _ _ HS' Hc'). apply exact_ltb_ge in Hnone.
        change (inject_Z 0) with 0 in *. lra.
    + (* it does not: the combination kept so far stays *)
      intros [= <- <-]. apply (exact_ltb_ge best raw) in Hlt.
      destruct key as [k|].
      * destruct Hkept as (pre & S0 & post & c0 & -> & Hc0 & Hk & Hpos & Hpre & Hpost).
        exists pre, S0, (post ++ [target]), c0.
        split; [by rewrite <- (assoc_L (++))|]. split; [done|]. split; [done|].
        split; [done|]. split; [done|].
        intros S' c' raw' HS' Hc'.
        apply elem_of_app in HS' as [HS'|HS']; [by eapply Hpost|].
        apply list_elem_of_singleton in HS' as ->.
        rewrite Hcand in Hc'. injection Hc' as _ <-. by apply exact_ltb_ge.
      * destruct Hkept as [-> Hnone]. split; [done|].
        intros S' c' raw' HS' Hc'.
        apply elem_of_app in HS' as [HS'|HS']; [by eapply Hnone|].
        apply list_elem_of_singleton in HS' as ->.
        rewrite Hcand in Hc'. injection Hc' as _ <-. by apply exact_ltb_ge.
  - (* [target] has no candidate *)
    intros [= <- <-]. destruct key as [k|].
    + destruct Hkept as (pre & S0 & post & c0 & -> & Hc0 & Hk & Hpos & Hpre & Hpost).
      exists pre, S0, (post ++ [target]), c0.
      split; [by rewrite <- (assoc_L (++))|]. split; [done|]. split; [done|].
      split; [done|]. split; [done|].
      intros S' c' raw' HS' Hc'.
      apply elem_of_app in HS' as [HS'|HS']; [by eapply Hpost|].
      apply list_elem_of_singleton in HS' as ->. congruence.
    + destruct Hkept as [-> Hnone]. split; [done|].
      intros S' c' raw' HS' Hc'.
      apply elem_of_app in HS' as [HS'|HS']; [by eapply Hnone|].
      apply list_elem_of_singleton in HS' as ->. congruence.
Qed.

Lemma check_symbols_keep self line (seen rest : list string) best key best' key' :
  length line = num_reels self →
  (∀ S, S ∈ rest → S ∉ scatter_symbols self) →
  kept_among (PyNum0 := exact) self line seen best key →
  foldM (check_symbol (PyNum0 := exact) self line) (best, key) rest = Ok (best', key') →
  kept_among (PyNum0 := exact) self line (seen ++ rest) best' key'.
Proof.
  intros Hlen. revert seen best key.
  induction rest as [|target rest IH]; intros seen best key Hreg Hkept; simpl.
  - intros [= <- <-]. by rewrite app_nil_r.
  - intros ([best1 key1] & Hstep & Hrest)%bind_Ok.
    rewrite (cons_middle target seen rest), (assoc_L (++)).
    apply (IH _ best1 key1); [intros S HS; apply Hreg; by right| |done].
    eapply check_symbol_keeps; [done|apply Hreg; left|done|done].
Qed.

Lemma check_line_win_keeps self line best key :
  length line = num_reels self →
  (∀ S, S ∈ regular_symbols self → S ∉ scatter_symbols self) →
  _check_line_win (PyNum0 := exact) self line = Ok (best, key) →
  kept_combination (PyNum0 := exact) self line best key.
Proof.
  intros Hlen Hreg Hwin. unfold kept_combination.
  apply (check_symbols_keep self line [] (regular_symbols self) (inject_Z 0) None);
    [done|done| |done].
  split; [done|]. intros S c raw HS. by apply not_elem_of_nil in HS.
Qed.

End ExactPaylines.

(** ** Simulators built by [__init__] *)

Section Built.
Context {N : Type} `{!PyNum N}.

Lemma init_Ok (config : Config N) (self : Simulator N) :
  init config = Ok self →
  self = make_simulator config
           (num_quot (default (of_Z 100) (c_base_bet_for_paytable_display config))
                     (default (of_Z 10) (c_num_lines config))).
Proof.
  unfold init, py_div. destruct (num_is_zero _); [done|]. simpl. by intros [= <-].
Qed.

Lemma init_per_line (config : Config N) (self : Simulator N) :
  init config = Ok self →
  base_bet_per_line_display self
  = num_quot (base_bet_for_paytable_display self) (num_lines self).
Proof. intros ->%init_Ok. done. Qed.

Lemma init_regular_symbols (config : Config N) (self : Simulator N) :
  init config = Ok self →
  ∀ S, S ∈ regular_symbols self → S ∉ scatter_symbols self.
Proof.
  intros ->%init_Ok S HS. simpl in *.
  by apply parse_paytable_invariant in HS as [_ Hreg].
Qed.

End Built.

Lemma mapM'_Forall2 {A B} (f : A → result B) (xs : list A) (ys : list B) :
  mapM' f xs = Ok ys → Forall2 (λ x y, f x = Ok y) xs ys.
Proof.
  revert ys. induction xs as [|x xs IH]; intros ys; simpl.
  - intros [= <-]. constructor.
  - intros (y & Hy & Hrest)%bind_Ok.
    apply bind_Ok in Hrest as (ys' & Hys' & [= <-]).
    constructor; [done|by apply IH].
Qed.

(** The credit of a payline and the payout of a spin, in any arithmetic. *)
Section LineCredits.
Context {N : Type} `{!PyNum N}.
Implicit Types (self : Simulator N) (st : spin_state N).

Lemma line_events_amount self (expanded : screen) (payline : list (nat * nat))
    (evs : list (option string * N)) :
  line_events self expanded payline = Ok evs →
  ∃ cells best key,
    line_symbols_of expanded payline = Ok cells ∧
    _check_line_win self cells = Ok (best, key) ∧
    evs = if (of_Z 0 <? best)%num
          then [(key, (num_quot best (base_bet_per_line_display self)
                       * bet_per_line self)%num)]
          else [].
Proof.
  unfold line_events.
  destruct (line_symbols_of _ payline) as [cells|] eqn:Hcells; [|done]. simpl.
  destruct (_check_line_win self cells) as [[best key]|] eqn:Hwin; [|done]. simpl.
  intros Hev. exists cells, best, key. split; [done|]. split; [done|].
  destruct (num_ltb _ best); [|by injection Hev as <-].
  unfold scale_line, py_div in Hev.
  destruct (num_is_zero _); [done|]. simpl in Hev. by injection Hev as <-.
Qed.

Lemma eval_payline_effect self (expanded : screen) (payline : list (nat * nat)) st st' :
  eval_payline self expanded st payline = Ok st' →
  ∃ cells best key,
    line_symbols_of expanded payline = Ok cells ∧
    _check_line_win self cells = Ok (best, key) ∧
    if (of_Z 0 <? best)%num
    then current_spin_payout st'
         = (current_spin_payout st
            + num_quot best (base_bet_per_line_display self) * bet_per_line self)%num ∧
         is_winning_spin st' = true ∧
         payout_contributions st' !! key
         = Some (default (of_Z 0) (payout_contributions st !! key)
                 + num_quot best (base_bet_per_line_display self) * bet_per_line self)%num ∧
         ∀ k, k ≠ key → payout_contributions st' !! k = payout_contributions st !! k
    else st' = st.
Proof.
  rewrite eval_payline_events.
  intros (evs & Hevs & [= <-])%bind_Ok.
  apply line_events_amount in Hevs as (cells & best & key & Hcells & Hwin & ->).
  exists cells, best, key. split; [done|]. split; [done|].
  destruct (num_ltb _ best); [|done]. simpl.
  split; [done|]. split; [done|]. unfold ledger_credit.
  split; [by rewrite lookup_insert_eq|].
  intros k Hk. by rewrite lookup_insert_ne.
Qed.

Lemma spin_payout_is_sum self (h : heap) (g : grid) (ledger : gmap (option string) N)
    st (h1 : heap) :
  _calculate_spin_payout self h g ledger = Ok (st, h1) →
  ∃ expanded d star s lines,
    _apply_expanding_wilds self h g = Ok (expanded, h1) ∧
    scatter_events self "DollarScatter" (dollar_scatter_count (read_grid h1 g)) = Ok d ∧
    star_scatter_count self (read_grid h1 g) = Ok star ∧
    scatter_events self "StarScatter" star = Ok s ∧
    Forall2 (λ payline evs,
               ∃ cells best key,
                 line_symbols_of (read_grid h1 expanded) payline = Ok cells ∧
                 _check_line_win self cells = Ok (best, key) ∧
                 evs = if (of_Z 0 <? best)%num
                       then [(key, (num_quot best (base_bet_per_line_display self)
                                    * bet_per_line self)%num)]
                       else [])
            (paylines self) lines ∧
    current_spin_payout st = add_payouts (d ++ s ++ concat lines) (of_Z 0).
Proof.
  unfold _calculate_spin_payout.
  destruct (_apply_expanding_wilds self h g) as [[expanded h2]|]; [|done]. simpl.
  intros (st3 & Hscore & [= <- <-])%bind_Ok.
  rewrite score_screens_events in Hscore.
  apply bind_Ok in Hscore as (evs & Hevs & [= <-]).
  unfold spin_events in Hevs.
  apply bind_Ok in Hevs as (d & Hd & Hevs).
  apply bind_Ok in Hevs as (star & Hstar & Hevs).
  apply bind_Ok in Hevs as (s & Hs & Hevs).
  apply bind_Ok in Hevs as (lines & Hlines & [= <-]).
  exists expanded, d, star, s, lines.
  split; [done|]. split; [done|]. split; [done|]. split; [done|].
  split; [|by rewrite apply_events_payout].
  apply mapM'_Forall2 in Hlines. eapply Forall2_impl; [exact Hlines|].
  intros payline evs. apply line_events_amount.
Qed.

End LineCredits.

Section PaylineClaim.
Variable qroot : Q → Q.
Local Abbreviation exact := (Q_num qroot).
Local Open Scope Q_scope.


End PaylineClaim.


(** The line [Seven Wild Wild Bell Seven] under [BASE_GAME_CONFIG]: Seven
    runs over three cells and pays 500, more than the other symbols. *)
Example check_line_win_demo :
  _check_line_win (PyNum0 := Q_num (λ x, x)) demo_exact demo_line
  = Ok (500%Q, Some "Seven x3").
Proof. vm_compute. reflexivity. Qed.

(** ** Drawing a screen *)

Section Spinning.
Context {N : Type} `{!PyNum N}.
Implicit Types (self : Simulator N) (h : heap) (gen : rng).

Lemma draw_stops_Ok (strips : list (list string)) gen :
  Forall (λ strip, strip ≠ []) strips →
  ∃ stops gen', draw_stops strips gen = Ok (stops, gen') ∧ length stops = length strips.
Proof.
  revert gen. induction strips as [|strip strips IH]; intros gen Hne; simpl.
  - by exists [], gen.
  - inversion Hne as [|? ? Hstrip Hrest]; subst.
    destruct strip as [|c strip]; [done|]. simpl.
    destruct (IH (λ k, gen (S k)) Hrest) as (stops & gen' & -> & Hlen). simpl.
    eexists _, _. split; [done|]. simpl. by rewrite Hlen.
Qed.

Lemma reel_window_Ok (reel_strip : list string) (start_index : nat) :
  reel_strip ≠ [] →
  ∃ col, reel_window reel_strip start_index = Ok col ∧ length col = num_rows.
Proof.
  intros Hne. unfold reel_window, num_rows. simpl.
  assert (Hpos : length reel_strip ≠ 0) by (by destruct reel_strip).
  assert (Hidx : ∀ j, is_Some (reel_strip !! ((start_index + j) mod length reel_strip))).
  { intros j. apply lookup_lt_is_Some. by apply Nat.mod_upper_bound. }
  unfold nat_index.
  destruct (Hidx 0) as [c0 ->], (Hidx 1) as [c1 ->], (Hidx 2) as [c2 ->]. simpl.
  by eexists.
Qed.

Lemma spin_columns_Ok self (stops : list nat) (k i : nat) (visible : grid) h :
  i + k = length (virtual_reel_strips self) →
  length stops = length (virtual_reel_strips self) →
  Forall (λ strip, strip ≠ []) (virtual_reel_strips self) →
  screen_in_store h visible →
  ∃ visible' h',
    foldM (spin_column self stops) (visible, h) (seq i k) = Ok (visible', h') ∧
    screen_in_store h' visible' ∧ length visible' = length visible + k.
Proof.
  intros Hik Hstops Hne. revert i visible h Hik.
  induction k as [|k IH]; intros i visible h Hik Hvis; simpl.
  - exists visible, h. by rewrite Nat.add_0_r.
  - unfold nat_index.
    destruct (lookup_lt_is_Some_2 (virtual_reel_strips self) i) as [strip Hstrip]; [lia|].
    destruct (lookup_lt_is_Some_2 stops i) as [start Hstart]; [lia|].
    rewrite Hstrip, Hstart. simpl.
    destruct (reel_window_Ok strip start) as (col & -> & Hcol).
    { exact (Forall_lookup_1 _ _ _ _ Hne Hstrip). }
    simpl.
    destruct (IH (S i) (visible ++ [length h]) (h ++ [col])) as (vis' & h' & -> & Hin & Hlen).
    + lia.
    + apply Forall_app. split; [by apply screen_in_store_app|].
      apply Forall_singleton. rewrite length_app. simpl. split; [lia|].
      pose proof (deref_app_r h [col] 0) as Hd. rewrite Nat.add_0_r in Hd.
      by rewrite Hd.
    + exists vis', h'. split; [done|]. split; [done|].
      rewrite Hlen, length_app. simpl. lia.
Qed.

(** [_spin_reels] succeeds when no reel strip is empty, and the screen it
    returns has one new three-cell column per reel. *)
Lemma spin_reels_Ok self h gen :
  num_reels self = length (virtual_reel_strips self) →
  Forall (λ strip, strip ≠ []) (virtual_reel_strips self) →
  ∃ g h' gen',
    _spin_reels self h gen = Ok (g, h', gen') ∧
    screen_in_store h' g ∧ length g = num_reels self.
Proof.
  intros Hreels Hne. unfold _spin_reels.
  destruct (draw_stops_Ok _ gen Hne) as (stops & gen' & -> & Hstops). simpl.
  destruct (spin_columns_Ok self stops (num_reels self) 0 [] h)
    as (g & h' & -> & Hin & Hlen); [lia|done|done|by apply Forall_nil_2|].
  simpl. by exists g, h', gen'.
Qed.

End Spinning.

(** ** Provenance of the scatter pays *)

Section ScatterProvenance.
Context {N : Type} `{!PyNum N}.

Lemma digit_entries_lookup (data : list (string * pyval N)) (count : nat) (v : pyval N) :
  digit_entries data !! count = Some v → ∃ k, (k, v) ∈ data ∧ isdigit k = true.
Proof.
  unfold digit_entries.
  apply (fold_left_invariant _
    (λ d : gmap nat (pyval N),
       d !! count = Some v → ∃ k, (k, v) ∈ data ∧ isdigit k = true)).
  - by rewrite lookup_empty.
  - intros d [k v'] Hin IH. simpl. destruct (isdigit k) eqn:Hk; [|done].
    destruct (decide (int_of_digits k = count)) as [<-|Hne].
    + rewrite lookup_insert_eq. intros [= ->]. by exists k.
    + by rewrite lookup_insert_ne.
Qed.

Lemma parse_paytable_scatter_from_raw (paytable : list (string * list (string * pyval N)))
    (wild : string) (scatters : list string) :
  scatter_from_raw paytable ((_parse_paytable paytable wild scatters).1.2).
Proof.
  unfold _parse_paytable.
  apply (fold_left_invariant _ (λ acc : parse_state, scatter_from_raw paytable (acc.1.2))).
  - apply (fold_left_invariant _ (λ acc : parse_state, scatter_from_raw paytable (acc.1.2))).
    + intros symbol pays count v. simpl. by rewrite lookup_empty.
    + intros [[lp sp] rs] [symbol data] Hin IH. unfold parse_entry.
      destruct (bool_decide (symbol = wild)); [done|].
      destruct (bool_decide (symbol ∈ scatters)); [|done]. simpl in *.
      intros symbol' pays count v Hpays Hv.
      destruct (decide (symbol = symbol')) as [<-|Hne].
      * rewrite lookup_insert_eq in Hpays. injection Hpays as <-.
        apply digit_entries_lookup in Hv as (k & Hk & Hdigit). by exists data, k.
      * rewrite lookup_insert_ne in Hpays by done. by eapply IH.
  - intros [[lp sp] rs] sym_name Hin IH. unfold parse_regular.
    by destruct (_ && _).
Qed.

End ScatterProvenance.

(** ** Reading the paylines of a five-reel screen *)

Lemma line_symbols_of_Ok (scr : screen) :
  length scr = 5 →
  Forall (λ col, length col = num_rows) scr →
  Forall (λ payline, ∃ line, line_symbols_of scr payline = Ok line ∧ length line = 5)
         _define_paylines.
Proof.
  intros Hlen Hrows.
  destruct scr as [|c0 [|c1 [|c2 [|c3 [|c4 [|]]]]]]; try discriminate Hlen.
  repeat match goal with
         | H : Forall _ (_ :: _) |- _ => apply Forall_cons_1 in H as [? H]
         end.
  unfold num_rows in *.
  repeat match goal with
         | H : length ?c = 3 |- _ =>
             destruct c as [|? [|? [|? [|]]]]; try discriminate H; clear H
         end.
  unfold _define_paylines.
  repeat (apply Forall_cons_2; [by eexists|]). apply Forall_nil_2.
Qed.

Lemma mapM'_all_nil {A B} (f : A → result (list B)) (xs : list A) :
  Forall (λ x, f x = Ok []) xs →
  ∃ ys, mapM' f xs = Ok ys ∧ concat ys = [].
Proof.
  induction 1 as [|x xs Hx _ (ys & IH & Hnil)]; simpl.
  - by exists [].
  - rewrite Hx, IH. simpl. exists ([] :: ys). split; [done|]. simpl. exact Hnil.
Qed.

Lemma mapM'_is_Ok {A B} (f : A → result B) (xs : list A) :
  Forall (λ x, is_Ok (f x)) xs → is_Ok (mapM' f xs).
Proof.
  induction 1 as [|x xs [y Hy] _ [ys IH]]; simpl.
  - by eexists.
  - rewrite Hy, IH. by eexists.
Qed.

(** ** Evaluation succeeds on a well-formed simulator *)

Lemma apply_credits_lookup {N} `{!PyNum N} (evs : list (option string * N))
    (ledger : gmap (option string) N) (key : option string) :
  apply_credits evs ledger !! key = amount_after evs key (ledger !! key).
Proof.
  unfold apply_credits, amount_after. revert ledger.
  induction evs as [|[k a] evs IH]; intros ledger; [done|].
  cbn [fold_left fst snd]. rewrite IH. f_equal. unfold ledger_credit.
  destruct (decide (k = key)) as [->|Hne].
  - by rewrite bool_decide_eq_true_2, lookup_insert_eq.
  - by rewrite bool_decide_eq_false_2, lookup_insert_ne.
Qed.

Section WellFormed.
Context {N : Type} `{!PyNum N}.
Variable self : Simulator N.
Hypothesis Hwf : well_formed self.

Lemma well_formed_regular : ∀ S, S ∈ regular_symbols self → S ∉ scatter_symbols self.
Proof.
  destruct Hwf as (_ & _ & _ & _ & Hreg & _). exact (proj1 (Forall_forall _ _) Hreg).
Qed.

Lemma scatter_events_total (symbol : string) (count : nat) :
  is_Ok (scatter_events self symbol count).
Proof.
  destruct Hwf as (_ & _ & _ & _ & _ & _ & Hnum & Hbase & _).
  unfold scatter_events, scatter_entry.
  destruct (scatter_pays self !! symbol) as [pays|] eqn:Hpays; simpl; [|by eexists].
  destruct (pays !! count) as [v|] eqn:Hv; [|by eexists].
  pose proof (Hnum _ _ Hpays _ _ Hv) as Hv'. destruct v as [x|]; [|done].
  unfold scale_scatter, py_div. simpl. rewrite Hbase. by eexists.
Qed.

Lemma line_events_total (expanded : screen) (payline : list (nat * nat)) (line : list string) :
  line_symbols_of expanded payline = Ok line → length line = 5 →
  is_Ok (line_events self expanded payline).
Proof.
  intros Hline Hlen. unfold line_events. rewrite Hline. simpl.
  destruct Hwf as (Hreels & _ & _ & _ & _ & Hnum & _ & _ & Hper).
  destruct (check_line_win_total self line) as [[best key] ->];
    [by rewrite Hreels|apply well_formed_regular|done|].
  simpl. destruct (num_ltb _ best); [|by eexists].
  unfold scale_line, py_div. rewrite Hper. by eexists.
Qed.

Lemma calculate_spin_payout_total (h : heap) (g : grid) (ledger : gmap (option string) N) :
  screen_in_store h g → length g = 5 →
  is_Ok (_calculate_spin_payout self h g ledger).
Proof.
  intros Hg Hlen.
  destruct Hwf as (_ & Hpaylines & Hwild & Hstar & _).
  rewrite calculate_spin_payout_pure by (by rewrite ?Hlen).
  unfold spin_events.
  destruct (scatter_events_total "DollarScatter" (dollar_scatter_count (read_grid h g)))
    as [d ->]. simpl.
  rewrite star_scatter_count_reels by (by rewrite read_grid_length, Hlen). simpl.
  match goal with |- context [scatter_events self "StarScatter" ?c] =>
    destruct (scatter_events_total "StarScatter" c) as [s ->] end.
  simpl.
  destruct (mapM'_is_Ok (line_events self (expand_screen self (read_grid h g)))
              (paylines self)) as [ls ->]; [|by eexists].
  rewrite Hpaylines.
  eapply Forall_impl;
    [apply (line_symbols_of_Ok (expand_screen self (read_grid h g)))|].
  - by rewrite expand_screen_length, read_grid_length.
  - apply expand_screen_rows. by eapply screen_in_store_rows.
  - simpl. intros payline (line & Hline & Hl). by eapply line_events_total.
Qed.

(** C2.  On a well-formed simulator the evaluation of a five-reel screen
    returns, and the scatter counts are taken on the contents the screen had
    when [_calculate_spin_payout] was called: all cells equal to
    ["DollarScatter"], and the reels of [star_scatter_reels] showing
    ["StarScatter"].  For each of the two symbols, an entry of its scatter
    paytable at the count is credited once with
    [raw / base_bet_for_paytable_display * total_bet_per_spin] under the key
    ["{symbol} x{count} (Scatter)"]: the amount is added to the payout and to
    the ledger and the spin is winning.  The amount the ledger holds under a
    key after the spin is the amount it held, zero when it held none, to
    which the amounts credited under this key have been added in order. *)
Theorem scatter_evaluation_spec (h : heap) (g : grid) (ledger : gmap (option string) N) :
  screen_in_store h g →
  length g = 5 →
  let original := read_grid h g in
  let dollar := length (filter (λ s, s = "DollarScatter") (concat original)) in
  let star :=
    length (filter (λ r, "StarScatter" ∈ default [] (original !! Z.to_nat r))
                   (star_scatter_reels self)) in
  let scatter :=
    scatter_credit self "DollarScatter" dollar ++ scatter_credit self "StarScatter" star in
  ∃ st h1 lines,
    _calculate_spin_payout self h g ledger = Ok (st, h1) ∧
    mapM' (line_events self (expand_screen self original)) (paylines self) = Ok lines ∧
    current_spin_payout st = add_payouts (scatter ++ concat lines) (of_Z 0) ∧
    (scatter ≠ [] → is_winning_spin st = true) ∧
    payout_contributions st = apply_credits (scatter ++ concat lines) ledger ∧
    (∀ key, payout_contributions st !! key
            = amount_after (scatter ++ concat lines) key (ledger !! key)).
Proof.
  intros Hg Hlen. simpl.
  destruct (calculate_spin_payout_total h g ledger Hg Hlen) as [[st h1] Hcalc].
  destruct Hwf as (_ & _ & Hwild & Hstar & _).
  destruct (calculate_spin_payout_credits self h g ledger st h1)
    as (lines & Hlines & Hpayout & Hwin & Hledger);
    [done|by rewrite Hlen|by rewrite Hlen|done|].
  exists st, h1, lines. split; [done|]. split; [done|]. split; [done|].
  split; [done|]. split; [done|].
  intros key. rewrite Hledger. apply apply_credits_lookup.
Qed.

End WellFormed.

Lemma scatter_evaluation_spec_witness :
  let original := read_grid demo_heap demo_grid in
  let dollar := length (filter (λ s, s = "DollarScatter") (concat original)) in
  let star :=
    length (filter (λ r, "StarScatter" ∈ default [] (original !! Z.to_nat r))
                   (star_scatter_reels demo_float)) in
  let scatter :=
    scatter_credit demo_float "DollarScatter" dollar
    ++ scatter_credit demo_float "StarScatter" star in
  ∃ st h1 lines,
    _calculate_spin_payout demo_float demo_heap demo_grid ∅ = Ok (st, h1) ∧
    mapM' (line_events demo_float (expand_screen demo_float original))
          (paylines demo_float) = Ok lines ∧
    current_spin_payout st = add_payouts (scatter ++ concat lines) (of_Z 0) ∧
    (scatter ≠ [] → is_winning_spin st = true) ∧
    payout_contributions st = apply_credits (scatter ++ concat lines) ∅ ∧
    (∀ key, payout_contributions st !! key
            = amount_after (scatter ++ concat lines) key
                (@empty (gmap (option string) float) _ !! key)).
Proof.
  apply (scatter_evaluation_spec demo_float).
  - unfold well_formed.
    split; [reflexivity|]. split; [reflexivity|].
    split; [unfold reels_in_range; simpl;
            repeat (apply Forall_cons_2; [lia|]); apply Forall_nil_2|].
    split; [unfold reels_in_range; simpl;
            repeat (apply Forall_cons_2; [lia|]); apply Forall_nil_2|].
    split; [apply (bool_decide_unpack _); vm_compute; reflexivity|].
    split; [apply (bool_decide_unpack _); vm_compute; reflexivity|].
    split; [apply (bool_decide_unpack _); vm_compute; reflexivity|].
    split; reflexivity.
  - unfold screen_in_store, demo_grid, demo_heap.
    repeat (apply Forall_cons_2; [split; [simpl; lia|reflexivity]|]). apply Forall_nil_2.
  - reflexivity.
Defined.

(** ** Runs over a paytable of zeros *)

Section ZeroPaytable.
Variable qroot : Q → Q.
Local Abbreviation exact := (Q_num qroot).
Local Open Scope Q_scope.

Variable self : Simulator Q.
Hypothesis Hreels : num_reels self = 5%nat.
Hypothesis Hstrips : length (virtual_reel_strips self) = 5%nat.
Hypothesis Hnonempty : Forall (λ strip, strip ≠ []) (virtual_reel_strips self).
Hypothesis Hwild : reels_in_range (wild_reels self) 5.
Hypothesis Hstar : reels_in_range (star_scatter_reels self) 5.
Hypothesis Hpaylines : paylines self = _define_paylines.
Hypothesis Hregular : ∀ S, S ∈ regular_symbols self → S ∉ scatter_symbols self.
Hypothesis Hline_zero :
  ∀ key v, line_pays self !! key = Some v → zero_payout (PyNum0 := exact) v.
Hypothesis Hscatter_zero :
  ∀ symbol pays count v,
    scatter_pays self !! symbol = Some pays → pays !! count = Some v →
    zero_payout (PyNum0 := exact) v.
Hypothesis Hbase : ¬ base_bet_for_paytable_display self == 0.
Hypothesis Hbet : ¬ total_bet_per_spin self == 0.

Lemma zero_payout_exact (v : pyval Q) :
  zero_payout (PyNum0 := exact) v → ∃ x, v = Num x ∧ x == 0.
Proof. intros (x & -> & Hx). exists x. split; [done|]. by apply Qeq_bool_iff. Qed.

Lemma numeric_of_zero : numeric_line_pays self.
Proof. intros key v Hv. by destruct (Hline_zero _ _ Hv) as (x & -> & _). Qed.

(** A scatter win over a paytable of zeros is a credit of zero. *)
Lemma scatter_events_zero (symbol : string) (count : nat) :
  ∃ evs, scatter_events (PyNum0 := exact) self symbol count = Ok evs ∧
         Forall (λ ev, ev.2 == 0) evs ∧
         (scatter_pays self !! symbol = None → evs = []).
Proof.
  unfold scatter_events, scatter_entry.
  destruct (scatter_pays self !! symbol) as [pays|] eqn:Hpays; simpl;
    [|by exists []].
  destruct (pays !! count) as [v|] eqn:Hv; [|by exists []].
  destruct (zero_payout_exact v) as (x & -> & Hx); [by eapply Hscatter_zero|].
  unfold scale_scatter, py_div. simpl.
  destruct (Qeq_bool _ 0) eqn:Hz; [by apply Qeq_bool_iff in Hz|]. simpl.
  eexists. split; [done|]. split; [|done].
  apply Forall_singleton. simpl. rewrite Hx. unfold Qdiv. ring.
Qed.

(** No line wins over a paytable of zeros. *)
Lemma line_events_zero (expanded : screen) (payline : list (nat * nat)) (line : list string) :
  line_symbols_of expanded payline = Ok line → length line = 5%nat →
  line_events (PyNum0 := exact) self expanded payline = Ok [].
Proof.
  intros Hline Hlen. unfold line_events. rewrite Hline. simpl.
  assert (Hlen' : length line = num_reels self) by (by rewrite Hreels).
  destruct (check_line_win_total (PyNum0 := exact) self line Hlen' Hregular numeric_of_zero)
    as [[best key] Hwin].
  rewrite Hwin. simpl.
  apply check_line_win_keeps in Hwin; [|done|done].
  destruct key as [k|].
  - destruct Hwin as (pre & S0 & post & c & _ & Hcand & _ & Hpos & _).
    apply exact_ltb_lt in Hpos.
    apply first_paying_count_Some in Hcand as (_ & Hraw & _).
    apply Hline_zero, zero_payout_exact in Hraw as (x & [= <-] & Hx).
    change (0 < best) in Hpos. lra.
  - destruct Hwin as [-> _]. done.
Qed.

Lemma add_payouts_zero (evs : list (option string * Q)) (payout : Q) :
  Forall (λ ev, ev.2 == 0) evs → payout == 0 →
  add_payouts (PyNum0 := exact) evs payout == 0.
Proof.
  intros Hevs. revert payout. induction Hevs as [|ev evs Hev _ IH]; intros payout Hp; [done|].
  unfold add_payouts in *. simpl. apply IH. rewrite Hp, Hev. ring.
Qed.

(** A spin over a paytable of zeros pays zero; it is winning only through
    a scatter entry. *)
Lemma calculate_spin_payout_zero (h : heap) (g : grid) (ledger : gmap (option string) Q) :
  screen_in_store h g → length g = 5%nat →
  ∃ st h',
    _calculate_spin_payout (PyNum0 := exact) self h g ledger = Ok (st, h') ∧
    current_spin_payout st == 0 ∧
    (scatter_pays self !! "DollarScatter" = None →
     scatter_pays self !! "StarScatter" = None →
     is_winning_spin st = false).
Proof.
  intros Hg Hlen.
  rewrite calculate_spin_payout_pure by (by rewrite ?Hlen).
  unfold spin_events.
  destruct (scatter_events_zero "DollarScatter" (dollar_scatter_count (read_grid h g)))
    as (d & -> & Hd & Hdnil). simpl.
  rewrite star_scatter_count_reels by (by rewrite read_grid_length, Hlen). simpl.
  match goal with |- context [scatter_events self "StarScatter" ?c] =>
    destruct (scatter_events_zero "StarScatter" c) as (s & -> & Hs & Hsnil) end.
  simpl.
  destruct (mapM'_all_nil (line_events (PyNum0 := exact) self
              (expand_screen self (read_grid h g))) (paylines self))
    as (ls & -> & Hls).
  { rewrite Hpaylines.
    eapply Forall_impl;
      [apply (line_symbols_of_Ok (expand_screen self (read_grid h g)))|].
    - by rewrite expand_screen_length, read_grid_length.
    - apply expand_screen_rows. by eapply screen_in_store_rows.
    - simpl. intros payline (line & Hline & Hl). by eapply line_events_zero. }
  simpl. eexists _, _. split; [done|]. rewrite Hls, app_nil_r.
  rewrite apply_events_payout, apply_events_winning. split.
  - apply add_payouts_zero; [by apply Forall_app|done].
  - intros Hdollar Hstar'. by rewrite (Hdnil Hdollar), (Hsnil Hstar').
Qed.

Lemma exact_py_div (a b : Q) : ¬ b == 0 → py_div (PyNum0 := exact) a b = Ok (a / b).
Proof.
  intros Hb. unfold py_div. simpl.
  by destruct (Qeq_bool b 0) eqn:Hz; [apply Qeq_bool_iff in Hz|].
Qed.

(** The loop keeps the sums at zero. *)
Lemma spin_loop_zero (n : nat) (st : stats Q) (h : heap) (gen : rng) :
  total_payout st == 0 → sum_of_squared_payouts st == 0 →
  ∃ st' h' gen',
    spin_loop (PyNum0 := exact) self n (st, h, gen) = Ok (st', h', gen') ∧
    total_payout st' == 0 ∧ sum_of_squared_payouts st' == 0 ∧
    (scatter_pays self !! "DollarScatter" = None →
     scatter_pays self !! "StarScatter" = None →
     total_winning_spins st' = total_winning_spins st).
Proof.
  revert st h gen. induction n as [|n IH]; intros st h gen Htotal Hsq; simpl.
  - by exists st, h, gen.
  - destruct (spin_reels_Ok self h gen) as (g & h1 & gen1 & -> & Hg & Hlen);
      [by rewrite Hreels, Hstrips|done|]. simpl.
    destruct (calculate_spin_payout_zero h1 g (contributions st) Hg)
      as (sp & h2 & -> & Hpay & Hwin); [by rewrite Hlen|]. simpl.
    destruct (IH (record_spin (PyNum0 := exact) st sp) h2 gen1)
      as (st' & h' & gen' & -> & Htotal' & Hsq' & Hwins).
    + simpl. rewrite Htotal, Hpay. ring.
    + simpl. rewrite Hsq, Hpay. ring.
    + exists st', h', gen'. split; [done|]. split; [done|]. split; [done|].
      intros Hd Hs. rewrite (Hwins Hd Hs). simpl. by rewrite (Hwin Hd Hs).
Qed.

(** The report computed from sums at zero. *)
Lemma finalize_zero (n : Z) (st : stats Q) :
  (0 < n)%Z → total_payout st == 0 → sum_of_squared_payouts st == 0 →
  ∃ r, finalize (PyNum0 := exact) self n st = Ok r ∧
       r_rtp r == 0 ∧ r_variance r == 0 ∧
       r_hit_frequency r
       = inject_Z (Z.of_nat (total_winning_spins st)) / inject_Z n * inject_Z 100.
Proof.
  intros Hn Htotal Hsq. unfold finalize.
  assert (Hn0 : ¬ inject_Z n == 0).
  { change 0 with (inject_Z 0). rewrite inject_Z_injective. lia. }
  cbn [of_Z num_mul num_sub exact Q_num].
  rewrite (exact_py_div _ (inject_Z n * total_bet_per_spin self))
    by (intros Hz; apply Qmult_integral in Hz as [?|?]; tauto).
  cbn [mbind result_bind]. rewrite !(exact_py_div _ (inject_Z n)) by done.
  cbn [mbind result_bind].
  assert (Hvar : sum_of_squared_payouts st / inject_Z n
                 - total_payout st / inject_Z n * (total_payout st / inject_Z n) == 0).
  { rewrite Htotal, Hsq. unfold Qdiv. ring. }
  unfold py_sqrt. cbn [of_Z num_ltb exact Q_num].
  change (inject_Z 0) with 0. rewrite (exact_not_negative _ Hvar).
  cbn [mbind result_bind].
  destruct (0 <? total_winning_spins st)%nat eqn:Hwins.
  - rewrite exact_py_div.
    + cbn [mbind result_bind]. eexists. split; [done|]. simpl.
      split; [rewrite Htotal; unfold Qdiv; ring|]. split; [exact Hvar|done].
    + apply Nat.ltb_lt in Hwins. change 0 with (inject_Z 0).
      rewrite inject_Z_injective. lia.
  - cbn [mbind result_bind]. eexists. split; [done|]. simpl.
    split; [rewrite Htotal; unfold Qdiv; ring|]. split; [exact Hvar|done].
Qed.

Lemma run_simulation_zero (n : Z) (gen : rng) :
  (0 < n)%Z →
  ∃ r, run_simulation (PyNum0 := exact) self n gen = Ok r ∧
       r_rtp r == 0 ∧ r_variance r == 0 ∧
       (scatter_pays self !! "DollarScatter" = None →
        scatter_pays self !! "StarScatter" = None →
        r_hit_frequency r == 0).
Proof.
  intros Hn. unfold run_simulation.
  destruct (spin_loop_zero (Z.to_nat n) (fresh_stats (PyNum0 := exact)) [] gen)
    as (st & h & gen' & -> & Htotal & Hsq & Hwins); [done|done|].
  cbn [mbind result_bind].
  destruct (finalize_zero n st Hn Htotal Hsq) as (r & -> & Hrtp & Hvar & Hhit).
  exists r. split; [done|]. split; [done|]. split; [done|].
  intros Hd Hs. rewrite Hhit, (Hwins Hd Hs). simpl. unfold Qdiv. ring.
Qed.

End ZeroPaytable.

Section ZeroPaytableClaim.
Variable qroot : Q → Q.
Local Abbreviation exact := (Q_num qroot).
Local Open Scope Q_scope.

Lemma all_payouts_zero_line (config : Config Q) (self : Simulator Q) :
  init (PyNum0 := exact) config = Ok self →
  all_payouts_zero (PyNum0 := exact) (c_paytable config) →
  ∀ key v, line_pays self !! key = Some v → zero_payout (PyNum0 := exact) v.
Proof.
  intros ->%init_Ok Hzero [symbol count] v Hv. simpl in Hv.
  apply parse_paytable_invariant in Hv as (_ & _ & data & k & Hdata & Hk & Hdigit & _).
  pose proof (proj1 (Forall_forall _ _) Hzero _ Hdata) as Hentry. simpl in Hentry.
  by apply (proj1 (Forall_forall _ _) Hentry _ Hk).
Qed.

Lemma all_payouts_zero_scatter (config : Config Q) (self : Simulator Q) :
  init (PyNum0 := exact) config = Ok self →
  all_payouts_zero (PyNum0 := exact) (c_paytable config) →
  ∀ symbol pays count v,
    scatter_pays self !! symbol = Some pays → pays !! count = Some v →
    zero_payout (PyNum0 := exact) v.
Proof.
  intros ->%init_Ok Hzero symbol pays count v Hpays Hv. simpl in Hpays.
  destruct (parse_paytable_scatter_from_raw _ _ _ _ _ _ _ Hpays Hv)
    as (data & k & Hdata & Hk & Hdigit).
  pose proof (proj1 (Forall_forall _ _) Hzero _ Hdata) as Hentry. simpl in Hentry.
  by apply (proj1 (Forall_forall _ _) Hentry _ Hk).
Qed.


End ZeroPaytableClaim.



(** ** The embedding at work on [BASE_GAME_CONFIG] *)

Example parse_base_game :
  regular_symbols demo_float
  = ["Seven"; "Watermelon"; "Grapes"; "Bell"; "Plum"; "Orange"; "Cherry"; "Lemon"] ∧
  line_pays demo_float !! ("Seven", 2) = Some (Num 100%float) ∧
  line_pays demo_float !! ("Bell", 2) = None ∧
  scatter_entry demo_float "StarScatter" 3 = Some (Num 2000%float) ∧
  scatter_pays demo_float !! "Wild" = None.
Proof. repeat split; vm_compute; reflexivity. Qed.

Example expand_demo_screen :
  ('(g, h) ← _apply_expanding_wilds demo_float demo_heap demo_grid;
   Ok (g, read_grid h g, read_grid h demo_grid))
  = Ok ([5; 6; 7; 8; 9],
        [ ["Seven"; "Bell"; "StarScatter"];
          ["Wild"; "Wild"; "Wild"];
          ["StarScatter"; "Seven"; "StarScatter"];
          ["Bell"; "Bell"; "Bell"];
          ["Bell"; "StarScatter"; "Bell"] ],
        demo_heap).
Proof. vm_compute. reflexivity. Qed.

(** The demonstration screen pays the star scatter (200), two lines of two
    Sevens (10 each) and two lines of three Sevens (50 each). *)
Example spin_demo_screen :
  ∃ st h,
    _calculate_spin_payout demo_float demo_heap demo_grid ∅ = Ok (st, h) ∧
    current_spin_payout st = 320%float ∧
    is_winning_spin st = true ∧
    payout_contributions st !! Some "StarScatter x3 (Scatter)" = Some 200%float ∧
    payout_contributions st !! Some "Seven x2" = Some 20%float ∧
    payout_contributions st !! Some "Seven x3" = Some 100%float ∧
    size (payout_contributions st) = 3.
Proof. eexists _, _. split; [vm_compute; reflexivity|]. repeat split; vm_compute; reflexivity. Qed.

Example spin_reels_demo :
  ∃ g h gen,
    _spin_reels demo_float [] (λ k, k) = Ok (g, h, gen) ∧
    read_grid h g
    = [ ["Seven"; "Bell"; "StarScatter"];
        ["Bell"; "Seven"; "Bell"];
        ["Seven"; "StarScatter"; "Seven"];
        ["Bell"; "Bell"; "Bell"];
        ["StarScatter"; "Bell"; "StarScatter"] ].
Proof. eexists _, _, _. split; [vm_compute; reflexivity|]. vm_compute. reflexivity. Qed.

(** Bell runs over four cells thanks to the wilds and pays 400; Seven has no
    run. *)
Example check_line_win_wilds :
  _check_line_win demo_float ["Bell"; "Bell"; "Wild"; "Wild"; "Seven"]
  = Ok (400%float, Some "Bell x4").
Proof. vm_compute. reflexivity. Qed.

(** * Further properties of the code *)

(** ** Python indices in the reel lists *)

Lemma py_index_valid {A} (l : list A) (r : Z) :
  valid_index (length l) r →
  py_index l r = nat_index l (Z.to_nat (norm_index (length l) r)).
Proof.
  unfold valid_index, py_index, nat_index, norm_index. intros Hr.
  destruct (Z.ltb_spec r 0) as [Hneg|Hpos].
  - destruct (Z.ltb_spec (r + Z.of_nat (length l)) 0); [lia|done].
  - destruct (Z.ltb_spec r 0); [lia|done].
Qed.

Lemma py_index_invalid {A} (l : list A) (r : Z) :
  ¬ valid_index (length l) r → py_index l r = Raise IndexError.
Proof.
  unfold valid_index, py_index. intros Hr.
  destruct (Z.ltb_spec r 0) as [Hneg|Hpos].
  - destruct (Z.ltb_spec (r + Z.of_nat (length l)) 0); [done|lia].
  - destruct (Z.ltb_spec r 0); [lia|].
    rewrite lookup_ge_None_2 by lia. done.
Qed.

Lemma norm_index_range (n : nat) (r : Z) :
  valid_index n r → (0 ≤ norm_index n r < Z.of_nat n)%Z.
Proof.
  unfold valid_index, norm_index. intros Hr.
  destruct (Z.ltb_spec r 0); lia.
Qed.

Section PythonIndices.
Context {N : Type} `{!PyNum N}.
Implicit Types (self : Simulator N) (h scr : list (list string)) (g : list nat).

Lemma expand_reel_valid self h scr (reel_idx : Z) :
  Forall (λ col, length col = num_rows) scr →
  valid_index (length scr) reel_idx →
  expand_reel self (seq (length h) (length scr)) (h ++ scr) reel_idx
  = Ok (h ++ expand_at (wild_symbol self) scr
                 (Z.to_nat (norm_index (length scr) reel_idx))).
Proof.
  intros Hrows Hvalid. pose proof (norm_index_range _ _ Hvalid) as Hrange.
  unfold expand_reel.
  pose proof (py_index_valid (seq (length h) (length scr)) reel_idx) as Hidx.
  rewrite length_seq in Hidx. rewrite Hidx by done. unfold nat_index.
  rewrite lookup_seq_lt by lia. simpl.
  destruct (lookup_lt_is_Some_2 scr (Z.to_nat (norm_index (length scr) reel_idx)))
    as [col Hcol]; [lia|].
  rewrite deref_app_r, Hcol. simpl. unfold expand_at. rewrite Hcol.
  destruct (py_any_eq _ col); [|done].
  apply (fill_rows_spec _ _ _ col); [done|].
  exact (Forall_lookup_1 _ _ _ _ Hrows Hcol).
Qed.

Lemma expand_reel_invalid self h scr (reel_idx : Z) :
  ¬ valid_index (length scr) reel_idx →
  expand_reel self (seq (length h) (length scr)) (h ++ scr) reel_idx = Raise IndexError.
Proof.
  intros Hinvalid. unfold expand_reel.
  rewrite py_index_invalid; [done|]. by rewrite length_seq.
Qed.

Lemma expand_loop_valid self h (reels : list Z) scr (n : nat) :
  length scr = n →
  Forall (λ col, length col = num_rows) scr →
  Forall (valid_index n) reels →
  foldM (expand_reel self (seq (length h) n)) (h ++ scr) reels
  = Ok (h ++ fold_left (expand_at (wild_symbol self))
                 (map (λ r, Z.to_nat (norm_index n r)) reels) scr).
Proof.
  revert scr. induction reels as [|r reels IH]; intros scr Hn Hrows Hvalid; simpl; [done|].
  inversion Hvalid as [|? ? Hr Hrest]; subst.
  rewrite expand_reel_valid by done. simpl.
  apply IH; [by rewrite expand_at_length|by apply expand_at_rows|done].
Qed.

Lemma expand_loop_invalid self h (reels : list Z) scr (n : nat) :
  length scr = n →
  Forall (λ col, length col = num_rows) scr →
  Exists (λ r, ¬ valid_index n r) reels →
  foldM (expand_reel self (seq (length h) n)) (h ++ scr) reels = Raise IndexError.
Proof.
  revert scr. induction reels as [|r reels IH]; intros scr Hn Hrows Hbad; simpl.
  - by apply Exists_nil in Hbad.
  - subst n. destruct (decide (valid_index (length scr) r)) as [Hr|Hr].
    + rewrite expand_reel_valid by done. simpl.
      apply IH; [by rewrite expand_at_length|by apply expand_at_rows|].
      apply Exists_cons in Hbad as [Hbad|Hbad]; [done|done].
    + by rewrite expand_reel_invalid.
Qed.

Lemma fold_expand_at_length (wild : string) (rs : list nat) scr :
  length (fold_left (expand_at wild) rs scr) = length scr.
Proof.
  revert scr. induction rs as [|r rs IH]; intros scr; simpl; [done|].
  by rewrite IH, expand_at_length.
Qed.

(** X1.  [_apply_expanding_wilds] reads [wild_reels] as Python indices: an
    index from [-n] to [-1] designates a reel counted from the last one, so
    that the configured reel number 0, stored as [-1], expands the last reel.
    Column [i] of the result is three wilds when [i] or [i - n] is in
    [wild_reels] and the input column holds a wild; it is the input column
    otherwise, and the objects of the input store are left as they were. *)
Theorem apply_expanding_wilds_python_indices self h g :
  screen_in_store h g →
  Forall (valid_index (length g)) (wild_reels self) →
  ∃ g' h',
    _apply_expanding_wilds self h g = Ok (g', h') ∧
    (∀ l, l < length h → h' !! l = h !! l) ∧
    ∀ i col, read_grid h g !! i = Some col →
      read_grid h' g' !! i
      = Some (if bool_decide ((Z.of_nat i ∈ wild_reels self
                               ∨ (Z.of_nat i - Z.of_nat (length g))%Z ∈ wild_reels self)
                              ∧ wild_symbol self ∈ col)
              then replicate num_rows (wild_symbol self)
              else col).
Proof.
  intros Hg Hvalid. unfold _apply_expanding_wilds.
  rewrite copy_columns_spec by (by apply screen_in_store_valid).
  rewrite (expand_loop_valid self h (wild_reels self) (read_grid h g) (length g))
    by (done || apply read_grid_length || by apply screen_in_store_rows).
  simpl. eexists _, _. split; [done|].
  split; [intros l Hl; by rewrite lookup_app_l|].
  intros i col Hi.
  set (scr' := fold_left _ _ _).
  assert (Hlen : length g = length scr')
    by (unfold scr'; by rewrite fold_expand_at_length, read_grid_length).
  replace (seq (length h) (length g)) with (seq (length h) (length scr'))
    by (by rewrite <- Hlen).
  rewrite read_grid_fresh. unfold scr'.
  erewrite fold_expand_at_lookup by done. f_equal.
  assert (Hi' : i < length g)
    by (rewrite <- (read_grid_length h g); by eapply lookup_lt_Some).
  match goal with
  | |- (if bool_decide ?P then _ else _) = (if bool_decide ?Q then _ else _) =>
      rewrite (bool_decide_ext P Q); [done|]
  end.
  rewrite list_elem_of_fmap. split.
  - intros [(z & Hz & Hin) Hw]. split; [|done].
    pose proof (proj1 (Forall_forall _ _) Hvalid _ Hin) as Hzr.
    unfold valid_index, norm_index in *.
    destruct (Z.ltb_spec z 0).
    + right. replace (Z.of_nat i - _)%Z with z by lia. done.
    + left. replace (Z.of_nat i) with z by lia. done.
  - intros [[Hin|Hin] Hw]; (split; [|done]).
    + exists (Z.of_nat i). split; [|done]. unfold norm_index.
      destruct (Z.ltb_spec (Z.of_nat i) 0); lia.
    + eexists. split; [|exact Hin]. unfold norm_index.
      destruct (Z.ltb_spec (Z.of_nat i - Z.of_nat (length g)) 0); lia.
Qed.

(** X2.  A reel index of [wild_reels] that designates no reel of the screen
    (below [-n] or from [n] on) makes [_apply_expanding_wilds] raise
    [IndexError], wherever it stands in the list. *)
Theorem apply_expanding_wilds_index_error self h g :
  screen_in_store h g →
  Exists (λ r, ¬ valid_index (length g) r) (wild_reels self) →
  _apply_expanding_wilds self h g = Raise IndexError ∧
  ∀ ledger, _calculate_spin_payout self h g ledger = Raise IndexError.
Proof.
  intros Hg Hbad.
  assert (Hraise : _apply_expanding_wilds self h g = Raise IndexError).
  { unfold _apply_expanding_wilds.
    rewrite copy_columns_spec by (by apply screen_in_store_valid).
    by rewrite (expand_loop_invalid self h (wild_reels self) (read_grid h g) (length g))
      by (done || apply read_grid_length || by apply screen_in_store_rows). }
  split; [done|]. intros ledger. unfold _calculate_spin_payout. by rewrite Hraise.
Qed.

End PythonIndices.

Section StarCount.
Context {N : Type} `{!PyNum N}.
Implicit Types (self : Simulator N) (scr : list (list string)).

Lemma star_scatter_loop_valid scr (reels : list Z) (count : nat) :
  Forall (valid_index (length scr)) reels →
  foldM (λ count r_idx,
           col ← py_index scr r_idx;
           Ok (if py_any_eq "StarScatter" col then S count else count))
        count reels
  = Ok (count + length (filter (λ r, "StarScatter" ∈
                                     default [] (scr !! Z.to_nat (norm_index (length scr) r)))
                               reels)).
Proof.
  revert count. induction reels as [|r reels IH]; intros count Hvalid; simpl.
  - by rewrite Nat.add_0_r.
  - inversion Hvalid as [|? ? Hr Hrest]; subst.
    pose proof (norm_index_range _ _ Hr) as Hrange.
    rewrite py_index_valid by done. unfold nat_index.
    destruct (lookup_lt_is_Some_2 scr (Z.to_nat (norm_index (length scr) r)))
      as [col Hcol]; [lia|].
    rewrite Hcol. simpl. rewrite IH by done. f_equal.
    rewrite filter_cons. rewrite Hcol. simpl.
    destruct (py_any_eq "StarScatter" col) eqn:Hany.
    + apply py_any_eq_true in Hany. rewrite decide_True by done. simpl. lia.
    + rewrite decide_False; [done|]. intros Hin%py_any_eq_true. congruence.
Qed.

Lemma star_scatter_loop_invalid scr (reels : list Z) (count : nat) :
  Exists (λ r, ¬ valid_index (length scr) r) reels →
  foldM (λ count r_idx,
           col ← py_index scr r_idx;
           Ok (if py_any_eq "StarScatter" col then S count else count))
        count reels
  = Raise IndexError.
Proof.
  revert count. induction reels as [|r reels IH]; intros count Hbad; simpl.
  - by apply Exists_nil in Hbad.
  - destruct (decide (valid_index (length scr) r)) as [Hr|Hr].
    + pose proof (norm_index_range _ _ Hr) as Hrange.
      rewrite py_index_valid by done. unfold nat_index.
      destruct (lookup_lt_is_Some_2 scr (Z.to_nat (norm_index (length scr) r)))
        as [col ->]; [lia|].
      simpl. apply IH. by apply Exists_cons in Hbad as [Hbad|Hbad].
    + by rewrite py_index_invalid.
Qed.

(** X3.  The star-scatter count (lines 106-109) visits the list
    [star_scatter_reels] with Python indexing: it raises [IndexError] exactly
    when an index designates no reel of the screen; otherwise it is the
    number of entries of the list, repeated entries included, whose reel
    (counted from the end for a negative index) shows ["StarScatter"], and so
    never exceeds the length of the list. *)
Theorem star_scatter_count_indices self scr :
  (Forall (valid_index (length scr)) (star_scatter_reels self) →
   ∃ count,
     star_scatter_count self scr = Ok count ∧
     count = length (filter (λ r, "StarScatter" ∈
                               default [] (scr !! Z.to_nat (norm_index (length scr) r)))
                            (star_scatter_reels self)) ∧
     count ≤ length (star_scatter_reels self)) ∧
  (Exists (λ r, ¬ valid_index (length scr) r) (star_scatter_reels self) ↔
   star_scatter_count self scr = Raise IndexError).
Proof.
  split.
  - intros Hvalid. eexists. unfold star_scatter_count.
    rewrite star_scatter_loop_valid by done. simpl.
    split; [done|]. split; [done|]. apply length_filter.
  - split.
    + intros Hbad. unfold star_scatter_count. by apply star_scatter_loop_invalid.
    + intros Hraise.
      destruct (decide (Forall (valid_index (length scr)) (star_scatter_reels self)))
        as [Hvalid|Hbad].
      * unfold star_scatter_count in Hraise.
        by rewrite star_scatter_loop_valid in Hraise.
      * exact (not_Forall_Exists _ _ Hbad).
Qed.

End StarCount.

(** ** Composing wild expansions *)

Section ExpansionTwice.
Context {N : Type} `{!PyNum N}.
Implicit Types (self : Simulator N) (h scr : list (list string)) (g : list nat).

Lemma expand_screen_lookup self scr i col :
  reels_in_range (wild_reels self) (length scr) →
  scr !! i = Some col →
  expand_screen self scr !! i
  = Some (if bool_decide (Z.of_nat i ∈ wild_reels self ∧ wild_symbol self ∈ col)
          then replicate num_rows (wild_symbol self)
          else col).
Proof.
  intros Hrange Hi. unfold expand_screen.
  erewrite fold_expand_at_lookup by done. f_equal.
  match goal with
  | |- (if bool_decide ?P then _ else _) = (if bool_decide ?Q then _ else _) =>
      rewrite (bool_decide_ext P Q); [done|]
  end.
  rewrite list_elem_of_fmap. split.
  - intros [(z & -> & Hz) Hw]. split; [|done].
    assert (0 ≤ z)%Z by (apply (proj1 (Forall_forall _ _) Hrange) in Hz; lia).
    by rewrite Z2Nat.id.
  - intros [Hin Hw]. split; [|done]. exists (Z.of_nat i). by rewrite Nat2Z.id.
Qed.

Lemma expand_screen_idempotent self scr :
  reels_in_range (wild_reels self) (length scr) →
  expand_screen self (expand_screen self scr) = expand_screen self scr.
Proof.
  intros Hrange. apply list_eq. intros i.
  destruct (scr !! i) as [col|] eqn:Hi.
  - pose proof (expand_screen_lookup self scr i col Hrange Hi) as Hone.
    erewrite expand_screen_lookup; [|by rewrite expand_screen_length|exact Hone].
    rewrite Hone. f_equal.
    destruct (bool_decide (Z.of_nat i ∈ wild_reels self ∧ wild_symbol self ∈ col))
      eqn:Hdec; [|by rewrite Hdec].
    match goal with |- (if ?b then _ else _) = _ => by destruct b end.
  - assert (Hnone : expand_screen self scr !! i = None).
    { apply lookup_ge_None. rewrite expand_screen_length. by apply lookup_ge_None. }
    rewrite Hnone. apply lookup_ge_None. rewrite expand_screen_length.
    by apply lookup_ge_None.
Qed.

Lemma screen_in_store_fresh h scr :
  Forall (λ col, length col = num_rows) scr →
  screen_in_store (h ++ scr) (seq (length h) (length scr)).
Proof.
  intros Hrows. apply Forall_forall. intros l Hl.
  apply elem_of_seq in Hl. rewrite length_app. split; [lia|].
  replace l with (length h + (l - length h)) by lia.
  rewrite deref_app_r.
  destruct (lookup_lt_is_Some_2 scr (l - length h)) as [col Hcol]; [lia|].
  rewrite Hcol. simpl. exact (Forall_lookup_1 _ _ _ _ Hrows Hcol).
Qed.

(** X4.  Every cell of the screen returned by [_apply_expanding_wilds] is
    the wild symbol or the cell of the input screen at the same place, and
    expanding the returned screen once more changes no cell: the second
    result has the contents of the first. *)
Theorem apply_expanding_wilds_twice self h g :
  screen_in_store h g →
  reels_in_range (wild_reels self) (length g) →
  ∃ g1 h1 g2 h2,
    _apply_expanding_wilds self h g = Ok (g1, h1) ∧
    _apply_expanding_wilds self h1 g1 = Ok (g2, h2) ∧
    read_grid h2 g2 = read_grid h1 g1 ∧
    read_grid h2 g1 = read_grid h1 g1 ∧
    ∀ reel row cell,
      read_grid h1 g1 !! reel ≫= (λ col, col !! row) = Some cell →
      cell = wild_symbol self ∨
      read_grid h g !! reel ≫= (λ col, col !! row) = Some cell.
Proof.
  intros Hg Hrange.
  pose proof (screen_in_store_rows h g Hg) as Hrows.
  pose proof (expand_screen_rows self _ Hrows) as Hrows1.
  assert (Hlen1 : length (expand_screen self (read_grid h g)) = length g)
    by (by rewrite expand_screen_length, read_grid_length).
  assert (Hg1 : screen_in_store (h ++ expand_screen self (read_grid h g))
                  (seq (length h) (length g))).
  { rewrite <- Hlen1. by apply screen_in_store_fresh. }
  assert (Hread1 : read_grid (h ++ expand_screen self (read_grid h g))
                     (seq (length h) (length g)) = expand_screen self (read_grid h g)).
  { rewrite <- Hlen1. apply read_grid_fresh. }
  eexists _, _, _, _.
  split; [by apply apply_expanding_wilds_pure|].
  split; [apply apply_expanding_wilds_pure; [done|by rewrite length_seq]|].
  rewrite Hread1, length_seq.
  split; [|split].
  - assert (Hlen2 : length g
                    = length (expand_screen self (expand_screen self (read_grid h g))))
      by (by rewrite !expand_screen_length, read_grid_length).
    replace (seq (length (h ++ expand_screen self (read_grid h g))) (length g))
      with (seq (length (h ++ expand_screen self (read_grid h g)))
                (length (expand_screen self (expand_screen self (read_grid h g)))))
      by (by rewrite <- Hlen2).
    rewrite read_grid_fresh.
    apply expand_screen_idempotent. by rewrite read_grid_length.
  - rewrite read_grid_app_l by (by apply screen_in_store_valid). done.
  - intros reel row cell Hcell.
    destruct (read_grid h g !! reel) as [col|] eqn:Hcol.
    + erewrite expand_screen_lookup in Hcell;
        [|by rewrite read_grid_length|exact Hcol].
      simpl in Hcell.
      destruct (bool_decide _); [|by right].
      left. destruct row as [|[|[|row]]]; simpl in Hcell; try congruence.
      by rewrite lookup_nil in Hcell.
    + assert (Hnone : expand_screen self (read_grid h g) !! reel = None).
      { apply lookup_ge_None. rewrite expand_screen_length. by apply lookup_ge_None. }
      by rewrite Hnone in Hcell.
Qed.

End ExpansionTwice.

(** ** What [_parse_paytable] builds from a dictionary *)

Lemma fold_left_fixed {A B} (f : B → A → B) (l : list A) (acc : B) :
  (∀ x, x ∈ l → f acc x = acc) → fold_left f l acc = acc.
Proof.
  induction l as [|x l IH]; intros Hfix; simpl; [done|].
  rewrite Hfix by left. apply IH. intros y Hy. apply Hfix. by right.
Qed.

Section ParseContents.
Context {N : Type} `{!PyNum N}.
Implicit Types (paytable : list (string * list (string * pyval N))).
Implicit Types (data : list (string * pyval N)) (wild : string) (scatters : list string).
Implicit Types (lp : gmap (string * nat) (pyval N)) (sp : gmap string (gmap nat (pyval N))).

Lemma digit_entries_snoc data (k : string) (v : pyval N) :
  digit_entries (data ++ [(k, v)])
  = if isdigit k then <[int_of_digits k := v]> (digit_entries data) else digit_entries data.
Proof. unfold digit_entries. by rewrite fold_left_app. Qed.

Lemma digit_entries_last_field data (count : nat) (v : pyval N) :
  digit_entries data !! count = Some v ↔ last_digit_field data count v.
Proof.
  unfold last_digit_field. revert v. induction data as [|[k0 v0] data IH] using rev_ind; intros v.
  - split; [unfold digit_entries; simpl; by rewrite lookup_empty|].
    intros (pre & k & post & Heq & _). by destruct pre.
  - rewrite digit_entries_snoc. split.
    + intros Hv. destruct (isdigit k0) eqn:Hk0.
      * destruct (decide (int_of_digits k0 = count)) as [Hc|Hc].
        -- rewrite Hc, lookup_insert_eq in Hv. injection Hv as ->.
           exists data, k0, []. split; [done|]. split; [done|]. split; [done|].
           intros k' v' Hin. by apply not_elem_of_nil in Hin.
        -- rewrite lookup_insert_ne in Hv by done.
           apply IH in Hv as (pre & k & post & -> & Hk & Hint & Hlast).
           exists pre, k, (post ++ [(k0, v0)]).
           split; [by rewrite <- (assoc_L (++))|]. split; [done|]. split; [done|].
           intros k' v' [Hin|Hin%list_elem_of_singleton]%elem_of_app; [by eapply Hlast|].
           injection Hin as -> ->. done.
      * apply IH in Hv as (pre & k & post & -> & Hk & Hint & Hlast).
        exists pre, k, (post ++ [(k0, v0)]).
        split; [by rewrite <- (assoc_L (++))|]. split; [done|]. split; [done|].
        intros k' v' [Hin|Hin%list_elem_of_singleton]%elem_of_app; [by eapply Hlast|].
        injection Hin as -> ->. congruence.
    + intros (pre & k & post & Heq & Hk & Hint & Hlast).
      destruct post as [|e post _] using rev_ind.
      * apply app_inj_tail in Heq as [-> [= -> ->]].
        rewrite Hk, Hint. apply lookup_insert_eq.
      * rewrite app_comm_cons, (assoc_L (++)) in Heq.
        apply app_inj_tail in Heq as [-> <-].
        assert (Hprev : digit_entries (pre ++ (k, v) :: post) !! count = Some v).
        { apply IH. exists pre, k, post. split; [done|]. split; [done|]. split; [done|].
          intros k' v' Hin. apply (Hlast k' v'), elem_of_app. by left. }
        destruct (isdigit k0) eqn:Hk0; [|done].
        rewrite lookup_insert_ne; [done|].
        apply (Hlast k0 v0); [|done]. apply elem_of_app. right. by left.
Qed.

(** X6.  For an entry whose field keys are ASCII strings of at most 4300
    characters, the pays read from the entry are keyed by the number a
    digit-keyed field denotes: the pay kept for a count is the value of the
    last field of the entry whose key is made of digits and denotes that
    count, so that of the fields ["3"] and ["03"] the later one wins, and a
    field whose key is not made of digits is never read. *)
Theorem digit_entries_last data (count : nat) (v : pyval N) :
  Forall (λ kv, plain_key kv.1) data →
  digit_entries data !! count = Some v ↔
  ∃ pre k post,
    data = pre ++ (k, v) :: post ∧ isdigit k = true ∧ int_of_digits k = count ∧
    ∀ k' v', (k', v') ∈ post → isdigit k' = true → int_of_digits k' ≠ count.
Proof. intros _. apply digit_entries_last_field. Qed.

Lemma add_line_pays_same (symbol : string) data lp (d : gmap nat (pyval N)) :
  (∀ c, lp !! (symbol, c) = d !! c) →
  ∀ c, fold_left (λ lp kv, if isdigit kv.1
                           then <[(symbol, int_of_digits kv.1) := kv.2]> lp else lp)
                 data lp !! (symbol, c)
       = fold_left (λ d kv, if isdigit kv.1 then <[int_of_digits kv.1 := kv.2]> d else d)
                   data d !! c.
Proof.
  revert lp d. induction data as [|[k v] data IH]; intros lp d Hsame c; simpl; [done|].
  apply IH. intros c'. destruct (isdigit k); [|done].
  destruct (decide (int_of_digits k = c')) as [->|Hne].
  - by rewrite !lookup_insert_eq.
  - rewrite !lookup_insert_ne by congruence. done.
Qed.

Lemma add_line_pays_other (symbol s : string) data lp (c : nat) :
  s ≠ symbol → add_line_pays symbol data lp !! (s, c) = lp !! (s, c).
Proof.
  intros Hne. unfold add_line_pays. revert lp.
  induction data as [|[k v] data IH]; intros lp; simpl; [done|].
  rewrite IH. destruct (isdigit k); [|done].
  rewrite lookup_insert_ne; [done|]. congruence.
Qed.

Lemma first_loop_parsed paytable wild scatters :
  NoDup (map fst paytable) →
  first_loop_state paytable wild scatters
            (fold_left (parse_entry wild scatters) paytable (∅, ∅, [])).
Proof.
  induction paytable as [|[symbol data] paytable IH] using rev_ind; intros Hdup.
  - split; [done|]. split; [done|]. intros s data' Hin. by apply not_elem_of_nil in Hin.
  - rewrite map_app in Hdup. apply NoDup_app in Hdup as (Hdup & Hfresh & _).
    assert (Hsym : symbol ∉ map fst paytable).
    { intros Hin. apply (Hfresh _ Hin). simpl. left. }
    rewrite fold_left_app. simpl.
    destruct (IH Hdup) as (Hrs & Hout & Hin).
    destruct (fold_left (parse_entry wild scatters) paytable (∅, ∅, [])) as [[lp sp] rs].
    unfold first_loop_state in IH. simpl in *. destruct (Hout _ Hsym) as [Hsp_sym Hlp_sym].
    assert (Hother : ∀ s data', (s, data') ∈ paytable → s ≠ symbol).
    { intros s data' Hs ->. apply Hsym, list_elem_of_fmap. by exists (symbol, data'). }
    destruct (decide (symbol = wild)) as [Hw|Hw].
    + rewrite (bool_decide_eq_true_2 _ Hw).
      unfold first_loop_state. cbn [fst snd]. rewrite map_app, filter_app. cbn [map fst].
      rewrite filter_cons, filter_nil.
      rewrite decide_False by tauto. rewrite app_nil_r.
      split; [done|]. split.
      * intros s Hs. apply Hout. intros Hs'. apply Hs, elem_of_app. by left.
      * intros s data' [Hs|Hs%list_elem_of_singleton]%elem_of_app; [by apply Hin|].
        injection Hs as -> ->.
        rewrite !bool_decide_eq_false_2 by tauto. done.
    + rewrite (bool_decide_eq_false_2 _ Hw).
      destruct (decide (symbol ∈ scatters)) as [Hs|Hs].
      * rewrite (bool_decide_eq_true_2 _ Hs).
        unfold first_loop_state. cbn [fst snd]. rewrite map_app, filter_app. cbn [map fst].
        rewrite filter_cons, filter_nil.
        rewrite decide_False by tauto. rewrite app_nil_r.
        split; [done|]. split.
        -- intros s Hs'. rewrite not_elem_of_app in Hs'. destruct Hs' as [Hs1 Hs2].
           rewrite lookup_insert_ne.
           ++ by apply Hout.
           ++ intros ->. apply Hs2. left.
        -- intros s data' [Hs'|Hs'%list_elem_of_singleton]%elem_of_app.
           ++ rewrite lookup_insert_ne by (symmetry; by eapply Hother). by apply Hin.
           ++ injection Hs' as -> ->. rewrite lookup_insert_eq.
              rewrite bool_decide_eq_true_2 by done.
              rewrite bool_decide_eq_false_2 by tauto. done.
      * rewrite (bool_decide_eq_false_2 _ Hs).
        unfold first_loop_state. cbn [fst snd]. rewrite map_app, filter_app. cbn [map fst].
        rewrite filter_cons, filter_nil.
        rewrite decide_True by done.
        assert (Hnew : symbol ∉ rs).
        { rewrite Hrs. intros [_ Hin']%list_elem_of_filter. done. }
        split; [unfold set_add; by rewrite bool_decide_eq_false_2, Hrs by done|].
        split.
        -- intros s Hs'. rewrite not_elem_of_app in Hs'. destruct Hs' as [Hs1 Hs2].
           split; [by apply Hout|]. intros c.
           rewrite add_line_pays_other; [by apply Hout|].
           intros ->. apply Hs2. left.
        -- intros s data' [Hs'|Hs'%list_elem_of_singleton]%elem_of_app.
           ++ split; [by apply Hin|]. intros c.
              rewrite add_line_pays_other by (by eapply Hother). by apply Hin.
           ++ injection Hs' as -> ->.
              rewrite bool_decide_eq_false_2 by tauto. split; [done|].
              intros c. rewrite bool_decide_eq_true_2 by done.
              unfold add_line_pays, digit_entries.
              apply add_line_pays_same. intros c'. by rewrite Hlp_sym, lookup_empty.
Qed.

(** The second loop of [_parse_paytable] (lines 53-55) changes nothing. *)
Lemma parse_paytable_first_loop paytable wild scatters :
  NoDup (map fst paytable) →
  _parse_paytable paytable wild scatters
  = fold_left (parse_entry wild scatters) paytable (∅, ∅, []).
Proof.
  intros Hdup. pose proof (first_loop_parsed paytable wild scatters Hdup) as Hparsed.
  unfold _parse_paytable. apply fold_left_fixed. intros sym_name Hsym.
  destruct Hparsed as (Hrs & _ & _).
  destruct (fold_left (parse_entry wild scatters) paytable (∅, ∅, [])) as [[lp sp] rs].
  simpl in Hrs. unfold parse_regular.
  destruct (bool_decide (sym_name ∈ scatters)) eqn:Hs; [done|].
  destruct (bool_decide (sym_name = wild)) eqn:Hw; [done|]. simpl.
  apply bool_decide_eq_false in Hs, Hw.
  unfold set_add. rewrite bool_decide_eq_true_2; [done|].
  rewrite Hrs. apply list_elem_of_filter. by split.
Qed.

Lemma parse_paytable_parsed paytable wild scatters :
  NoDup (map fst paytable) →
  parsed_as paytable wild scatters (_parse_paytable paytable wild scatters).
Proof.
  intros Hdup. rewrite parse_paytable_first_loop by done.
  destruct (first_loop_parsed paytable wild scatters Hdup) as (Hrs & Hout & Hin).
  split; [|split; [done|]].
  - intros s. rewrite Hrs, list_elem_of_filter. tauto.
  - intros s data Hs. destruct (Hin s data Hs) as [Hsp Hlp]. split.
    + destruct (bool_decide (s ≠ wild ∧ s ∈ scatters)); [|done].
      exists (digit_entries data). split; [done|].
      intros c v. apply digit_entries_last_field.
    + intros c v. rewrite Hlp.
      destruct (bool_decide (s ≠ wild ∧ s ∉ scatters)) eqn:Hreg.
      * apply bool_decide_eq_true in Hreg. rewrite digit_entries_last_field. tauto.
      * apply bool_decide_eq_false in Hreg. split; [done|tauto].
Qed.

(** X5.  For a paytable dictionary (distinct keys) whose field keys are
    ASCII strings of at most 4300 characters, [_parse_paytable] builds
    exactly this: the regular symbols, a set, are the keys other than the
    wild symbol and the scatter symbols; the scatter pays of a scatter key
    and the line pays of a regular key are the values of the digit-keyed
    fields of its entry, the last field winning when two denote the same
    count; everything else is absent.  The second loop (lines 53-55) changes
    nothing. *)
Theorem parse_paytable_contents paytable wild scatters :
  NoDup (map fst paytable) →
  plain_keys paytable →
  _parse_paytable paytable wild scatters
  = fold_left (parse_entry wild scatters) paytable (∅, ∅, []) ∧
  parsed_as paytable wild scatters (_parse_paytable paytable wild scatters).
Proof.
  intros Hdup _.
  split; [by apply parse_paytable_first_loop|by apply parse_paytable_parsed].
Qed.

(** C5 (as the code has it).  [_parse_paytable] checks nothing.  For a
    paytable dictionary whose field keys are ASCII strings of at most 4300
    characters, construction, of which parsing is a step, returns unless
    [num_lines] is zero.  The wild symbol and the scatter symbols never
    become line-pay keys or regular symbols, and every line pay is a
    digit-keyed value of the raw paytable, stored as it is, whatever its
    sign.  Conversely every other key is a regular symbol whose line pay for
    a count is the value of the last field of its entry that denotes the
    count; the entry of a scatter symbol gives its scatter pays in the same
    way, and the entry of the wild symbol is dropped. *)
Theorem parse_paytable_never_rejects (config : Config N) :
  num_is_zero (default (of_Z 10) (c_num_lines config)) = false →
  NoDup (map fst (c_paytable config)) →
  plain_keys (c_paytable config) →
  ∃ self,
    init config = Ok self ∧
    (∀ count, line_pays self !! (wild_symbol self, count) = None) ∧
    (∀ s count, s ∈ scatter_symbols self → line_pays self !! (s, count) = None) ∧
    (wild_symbol self ∉ regular_symbols self) ∧
    (∀ s, s ∈ scatter_symbols self → s ∉ regular_symbols self) ∧
    (∀ s count v, line_pays self !! (s, count) = Some v →
                  from_raw (c_paytable config) s count v) ∧
    (∀ s data, (s, data) ∈ c_paytable config →
       s ≠ wild_symbol self → s ∉ scatter_symbols self →
       s ∈ regular_symbols self ∧
       ∀ count v, line_pays self !! (s, count) = Some v ↔
                  last_digit_field data count v) ∧
    (∀ s data, (s, data) ∈ c_paytable config →
       s ≠ wild_symbol self → s ∈ scatter_symbols self →
       ∃ pays, scatter_pays self !! s = Some pays ∧
               ∀ count v, pays !! count = Some v ↔ last_digit_field data count v) ∧
    (∀ data, (wild_symbol self, data) ∈ c_paytable config →
       scatter_pays self !! wild_symbol self = None).
Proof.
  intros Hlines Hdup _. unfold init, py_div. rewrite Hlines. simpl.
  eexists. split; [done|]. unfold make_simulator. simpl.
  set (wild := default "Wild" (c_wild_symbol config)).
  set (scatters := default ["DollarScatter"; "StarScatter"] (c_scatter_symbols config)).
  destruct (parse_paytable_invariant (c_paytable config) wild scatters) as [Hlp Hrs].
  destruct (parse_paytable_parsed (c_paytable config) wild scatters Hdup)
    as (Hreg & _ & Hin).
  split; [|split; [|split; [|split; [|split; [|split; [|split]]]]]].
  - intros count. destruct (_ !! _) as [v|] eqn:Hv; [|done].
    apply Hlp in Hv as (Hne & _). done.
  - intros s count Hs. destruct (_ !! _) as [v|] eqn:Hv; [|done].
    apply Hlp in Hv as (_ & Hne & _). done.
  - intros Hw. apply Hrs in Hw as [Hne _]. done.
  - intros s Hs Hw. apply Hrs in Hw as [_ Hne]. done.
  - intros s count v Hv. by apply Hlp in Hv as (_ & _ & Hraw).
  - intros s data Hs Hw Hsc. destruct (Hin s data Hs) as [_ Hline]. split.
    + apply Hreg. split; [|done]. apply list_elem_of_fmap. by exists (s, data).
    + intros count v. rewrite Hline. tauto.
  - intros s data Hs Hw Hsc. destruct (Hin s data Hs) as [Hscatter _].
    by rewrite bool_decide_eq_true_2 in Hscatter.
  - intros data Hs. destruct (Hin wild data Hs) as [Hscatter _].
    rewrite bool_decide_eq_false_2 in Hscatter by tauto. done.
Qed.

End ParseContents.

Lemma parse_paytable_never_rejects_witness :
  let config :=
    with_paytable (BASE_GAME_CONFIG demo_strips) loose_paytable in
  ∃ self : Simulator float,
    init config = Ok self ∧
    (∀ count, line_pays self !! (wild_symbol self, count) = None) ∧
    (∀ s count, s ∈ scatter_symbols self → line_pays self !! (s, count) = None) ∧
    (wild_symbol self ∉ regular_symbols self) ∧
    (∀ s, s ∈ scatter_symbols self → s ∉ regular_symbols self) ∧
    (∀ s count v, line_pays self !! (s, count) = Some v →
                  from_raw (c_paytable config) s count v) ∧
    (∀ s data, (s, data) ∈ c_paytable config →
       s ≠ wild_symbol self → s ∉ scatter_symbols self →
       s ∈ regular_symbols self ∧
       ∀ count v, line_pays self !! (s, count) = Some v ↔
                  last_digit_field data count v) ∧
    (∀ s data, (s, data) ∈ c_paytable config →
       s ≠ wild_symbol self → s ∈ scatter_symbols self →
       ∃ pays, scatter_pays self !! s = Some pays ∧
               ∀ count v, pays !! count = Some v ↔ last_digit_field data count v) ∧
    (∀ data, (wild_symbol self, data) ∈ c_paytable config →
       scatter_pays self !! wild_symbol self = None).
Proof.
  apply (parse_paytable_never_rejects
           (with_paytable (BASE_GAME_CONFIG demo_strips) loose_paytable)).
  - reflexivity.
  - apply (bool_decide_unpack _). vm_compute. reflexivity.
  - unfold plain_keys, plain_key. apply (bool_decide_unpack _). vm_compute. reflexivity.
Defined.

(** C5 as stated fails: a paytable with an entry under the wild symbol and
    with negative payouts is parsed, and the negative payout is stored. *)
Lemma parse_accepts_wild_key_and_negative_payout :
  ∃ self,
    init (with_paytable (BASE_GAME_CONFIG demo_strips) loose_paytable) = Ok self ∧
    line_pays self !! ("Seven", 3) = Some (Num (-5)%float) ∧
    scatter_entry self "DollarScatter" 3 = Some (Num (-1)%float).
Proof. eexists. split; [reflexivity|]. split; vm_compute; reflexivity. Qed.


(** ** Line pays that are never read *)

Lemma foldM_invariant {A B} (f : B → A → result B) (I : B → Prop)
    (xs : list A) (acc r : B) :
  I acc → (∀ b x b', I b → f b x = Ok b' → I b') → foldM f acc xs = Ok r → I r.
Proof.
  intros Hacc Hstep. revert acc Hacc.
  induction xs as [|x xs IH]; intros acc Hacc; simpl.
  - by intros [= <-].
  - intros (b & Hb & Hrest)%bind_Ok. eapply IH; [|done]. by eapply Hstep.
Qed.

Section DeadLinePays.
Context {N : Type} `{!PyNum N}.
Implicit Types (self : Simulator N) (lp : gmap (string * nat) (pyval N)).

Lemma count_consecutive_bound self line target (n i count r : nat) :
  count_consecutive self line target n i count = Ok r → r ≤ count + n.
Proof.
  revert i count. induction n as [|n IH]; intros i count; simpl.
  - intros [= <-]. lia.
  - destruct (nat_index line i) as [symbol_on_line|]; [|done]. simpl.
    destruct (cell_matches self target symbol_on_line).
    + intros Hr%IH. lia.
    + intros [= <-]. lia.
Qed.

Lemma count_consecutive_line_pays self lp line target (n i count : nat) :
  count_consecutive (with_line_pays self lp) line target n i count
  = count_consecutive self line target n i count.
Proof.
  revert i count. induction n as [|n IH]; intros i count; simpl; [done|].
  destruct (nat_index line i) as [symbol_on_line|]; [|done]. simpl.
  change (cell_matches (with_line_pays self lp)) with (cell_matches self).
  by rewrite IH.
Qed.

Lemma first_paying_count_line_pays self lp target (m bound run : nat) :
  (∀ c, m ≤ c ≤ bound → lp !! (target, c) = line_pays self !! (target, c)) →
  run ≤ bound →
  first_paying_count (with_line_pays self lp) target m run
  = first_paying_count self target m run.
Proof.
  intros Hsame. induction run as [|run IH]; intros Hrun; simpl.
  - destruct (Nat.ltb_spec 0 m); [done|]. by rewrite Hsame by lia.
  - destruct (Nat.ltb_spec (S run) m); [done|].
    rewrite Hsame by lia. destruct (line_pays self !! _); [done|].
    apply IH. lia.
Qed.

Lemma check_line_win_line_pays self lp line :
  (∀ S c, min_match S ≤ c ≤ num_reels self →
          lp !! (S, c) = line_pays self !! (S, c)) →
  _check_line_win (with_line_pays self lp) line = _check_line_win self line.
Proof.
  intros Hsame. unfold _check_line_win. apply foldM_ext. intros best target.
  unfold check_symbol. rewrite count_consecutive_line_pays. simpl.
  destruct (count_consecutive self line target _ 0 0) as [count|] eqn:Hcount; [|done].
  simpl. apply count_consecutive_bound in Hcount.
  by rewrite (first_paying_count_line_pays self lp target _ (num_reels self))
    by (auto || lia).
Qed.

Lemma calculate_spin_payout_line_pays self lp (h : list (list string)) (g : list nat)
    (ledger : gmap (option string) N) :
  (∀ S c, min_match S ≤ c ≤ num_reels self →
          lp !! (S, c) = line_pays self !! (S, c)) →
  _calculate_spin_payout (with_line_pays self lp) h g ledger
  = _calculate_spin_payout self h g ledger.
Proof.
  intros Hsame. unfold _calculate_spin_payout.
  change (_apply_expanding_wilds (with_line_pays self lp) h g)
    with (_apply_expanding_wilds self h g).
  destruct (_apply_expanding_wilds self h g) as [[expanded h1]|]; [|done]. simpl.
  unfold score_screens.
  change (scatter_win (with_line_pays self lp)) with (scatter_win self).
  destruct (scatter_win self "DollarScatter" _ _) as [st1|]; [|done]. simpl.
  change (star_scatter_count (with_line_pays self lp)) with (star_scatter_count self).
  destruct (star_scatter_count self _) as [star|]; [|done]. simpl.
  destruct (scatter_win self "StarScatter" _ _) as [st2|]; [|done]. simpl.
  f_equal. apply foldM_ext. intros st payline. unfold eval_payline.
  destruct (line_symbols_of _ payline) as [line|]; [|done]. simpl.
  by rewrite check_line_win_line_pays.
Qed.

(** X7.  A line pay for a count below the minimum of its symbol (2 for
    ["Seven"], 3 for every other symbol) or above the number of reels is
    never read: setting or removing it changes no line win and no spin
    evaluation.  In particular a two-of-a-kind pay of a symbol other than
    ["Seven"] never pays. *)
Theorem unreachable_line_pays self (S : string) (count : nat) :
  count < min_match S ∨ num_reels self < count →
  (∀ v line,
     _check_line_win (with_line_pays self (<[(S, count) := v]> (line_pays self))) line
     = _check_line_win self line) ∧
  (∀ v (h : list (list string)) (g : list nat) ledger,
     _calculate_spin_payout
       (with_line_pays self (<[(S, count) := v]> (line_pays self))) h g ledger
     = _calculate_spin_payout self h g ledger) ∧
  (∀ (h : list (list string)) (g : list nat) ledger,
     _calculate_spin_payout
       (with_line_pays self (delete (S, count) (line_pays self))) h g ledger
     = _calculate_spin_payout self h g ledger).
Proof.
  intros Hdead.
  assert (Hne : ∀ S' c, min_match S' ≤ c ≤ num_reels self → (S, count) ≠ (S', c)).
  { intros S' c Hc [= -> ->]. lia. }
  split; [|split].
  - intros v line. apply check_line_win_line_pays.
    intros S' c Hc. apply lookup_insert_ne. by apply Hne.
  - intros v h g ledger. apply calculate_spin_payout_line_pays.
    intros S' c Hc. apply lookup_insert_ne. by apply Hne.
  - intros h g ledger. apply calculate_spin_payout_line_pays.
    intros S' c Hc. apply lookup_delete_ne. by apply Hne.
Qed.

End DeadLinePays.

(** ** The ledger has no nameless entry *)

Section LedgerKeys.
Context {N : Type} `{!PyNum N}.
Implicit Types (self : Simulator N) (ledger : gmap (option string) N).

Lemma check_line_win_None self line best :
  _check_line_win self line = Ok (best, None) → best = of_Z 0.
Proof.
  intros Hwin.
  enough (Hinv : (best, @None string).2 = None → (best, @None string).1 = of_Z 0)
    by by apply Hinv.
  revert Hwin. unfold _check_line_win.
  apply (foldM_invariant (check_symbol self line)
           (λ acc, acc.2 = None → acc.1 = of_Z 0)); [done|].
  intros [best0 key0] target [best1 key1] Hinv. unfold check_symbol.
  destruct (count_consecutive _ _ _ _ _ _) as [count|]; [|done]. simpl.
  destruct (first_paying_count _ _ _ _) as [[c raw]|]; [|by intros [= <- <-]].
  destruct (as_num raw) as [raw_payout|]; [|done]. simpl.
  destruct (num_ltb _ _); by intros [= <- <-].
Qed.

Lemma ledger_credit_None (k : string) (amount : N) ledger :
  ledger !! None = None → ledger_credit (Some k) amount ledger !! None = None.
Proof. intros Hnone. unfold ledger_credit. by rewrite lookup_insert_ne. Qed.

Lemma scatter_win_None self symbol count (st st' : spin_state N) :
  payout_contributions st !! None = None →
  scatter_win self symbol count st = Ok st' →
  payout_contributions st' !! None = None.
Proof.
  intros Hnone. unfold scatter_win.
  destruct (scatter_entry _ _ _); [|by intros [= <-]].
  destruct (scale_scatter _ _); [|done]. simpl. intros [= <-]. simpl.
  by apply ledger_credit_None.
Qed.

Lemma eval_payline_None self expanded (st st' : spin_state N) payline :
  num_ltb (of_Z 0) (of_Z 0) = false →
  payout_contributions st !! None = None →
  eval_payline self expanded st payline = Ok st' →
  payout_contributions st' !! None = None.
Proof.
  intros Hirr Hnone. unfold eval_payline.
  destruct (line_symbols_of _ _) as [line|]; [|done]. simpl.
  destruct (_check_line_win self line) as [[best key]|] eqn:Hwin; [|done]. simpl.
  destruct (num_ltb (of_Z 0) best) eqn:Hpos; [|by intros [= <-]].
  destruct (scale_line _ _); [|done]. simpl. intros [= <-]. simpl.
  destruct key as [k|]; [by apply ledger_credit_None|].
  apply check_line_win_None in Hwin. subst. congruence.
Qed.

Lemma calculate_spin_payout_None self (h h' : list (list string)) (g : list nat)
    ledger (st : spin_state N) :
  num_ltb (of_Z 0) (of_Z 0) = false →
  ledger !! None = None →
  _calculate_spin_payout self h g ledger = Ok (st, h') →
  payout_contributions st !! None = None.
Proof.
  intros Hirr Hnone. unfold _calculate_spin_payout.
  destruct (_apply_expanding_wilds self h g) as [[expanded h1]|]; [|done]. simpl.
  intros (st3 & Hscore & [= <- <-])%bind_Ok.
  unfold score_screens in Hscore.
  apply bind_Ok in Hscore as (st1 & Hst1 & Hscore).
  apply bind_Ok in Hscore as (star & _ & Hscore).
  apply bind_Ok in Hscore as (st2 & Hst2 & Hscore).
  apply scatter_win_None in Hst1; [|done]. apply scatter_win_None in Hst2; [|done].
  revert Hscore.
  apply (foldM_invariant (eval_payline self _)
           (λ b, payout_contributions b !! None = None)); [done|].
  intros b payline b' Hb. by apply eval_payline_None.
Qed.

Lemma spin_loop_None self (n : nat) (st st' : stats N) (h h' : list (list string))
    (gen gen' : nat → nat) :
  num_ltb (of_Z 0) (of_Z 0) = false →
  contributions st !! None = None →
  spin_loop self n (st, h, gen) = Ok (st', h', gen') →
  contributions st' !! None = None.
Proof.
  intros Hirr. revert st h gen. induction n as [|n IH]; intros st h gen Hnone; simpl.
  - by intros [= <- <- <-].
  - intros ([[st1 h1] gen1] & Hone & Hrest)%bind_Ok.
    eapply IH; [|exact Hrest].
    unfold one_spin in Hone.
    apply bind_Ok in Hone as ([[g h0] gen0] & _ & Hone).
    apply bind_Ok in Hone as ([sp h2] & Hcalc & [= <- <- <-]).
    simpl. by eapply calculate_spin_payout_None.
Qed.

(** X8.  No credit is ever made under the key [None] of "no combination":
    a spin evaluated with a ledger that has no such entry leaves a ledger
    that has none, and so does the ledger of the report of a run.  (The
    premise on numbers is [0 > 0] being false.) *)
Theorem ledger_has_no_nameless_entry self :
  num_ltb (of_Z 0) (of_Z 0) = false →
  (∀ (h h' : list (list string)) (g : list nat) ledger (st : spin_state N),
     ledger !! None = None →
     _calculate_spin_payout self h g ledger = Ok (st, h') →
     payout_contributions st !! None = None) ∧
  (∀ num_spins (gen : nat → nat) r,
     run_simulation self num_spins gen = Ok r → r_contributions r !! None = None).
Proof.
  intros Hirr. split.
  - intros h h' g ledger st. by apply calculate_spin_payout_None.
  - intros num_spins gen r. unfold run_simulation.
    intros ([[st h] gen'] & Hloop & Hfin)%bind_Ok.
    apply spin_loop_None in Hloop; [|done|done].
    unfold finalize in Hfin.
    repeat (apply bind_Ok in Hfin as (? & _ & Hfin)).
    by injection Hfin as <-.
Qed.

End LedgerKeys.

(** ** The screen drawn by [_spin_reels] *)

Section SpinningContents.
Context {N : Type} `{!PyNum N}.
Implicit Types (self : Simulator N) (h : list (list string)) (gen : nat → nat).

Lemma draw_stops_spec (strips : list (list string)) gen :
  Forall (λ strip, strip ≠ []) strips →
  ∃ stops gen',
    draw_stops strips gen = Ok (stops, gen') ∧
    length stops = length strips ∧
    (∀ k, gen' k = gen (length strips + k)) ∧
    ∀ i strip, strips !! i = Some strip → stops !! i = Some (gen i mod length strip).
Proof.
  revert gen. induction strips as [|strip strips IH]; intros gen Hne; simpl.
  - by exists [], gen.
  - inversion Hne as [|? ? Hstrip Hrest]; subst.
    destruct strip as [|c strip]; [done|]. cbn [randrange length mbind result_bind].
    destruct (IH (λ k, gen (S k)) Hrest) as (stops & gen' & -> & Hlen & Hgen & Hstops).
    cbn [mbind result_bind]. eexists _, _. split; [done|].
    split; [simpl; by rewrite Hlen|]. split; [done|].
    intros [|i] strip' Hi; simpl in *; [by injection Hi as <-|by apply Hstops].
Qed.

Lemma reel_window_spec (reel_strip : list string) (start_index : nat) :
  reel_strip ≠ [] →
  ∃ col, reel_window reel_strip start_index = Ok col ∧ length col = num_rows ∧
         ∀ j, j < num_rows →
              col !! j = reel_strip !! ((start_index + j) mod length reel_strip).
Proof.
  intros Hne. unfold reel_window, num_rows. simpl.
  assert (Hpos : length reel_strip ≠ 0) by (by destruct reel_strip).
  assert (Hidx : ∀ j, is_Some (reel_strip !! ((start_index + j) mod length reel_strip))).
  { intros j. apply lookup_lt_is_Some. by apply Nat.mod_upper_bound. }
  unfold nat_index.
  destruct (Hidx 0) as [c0 H0], (Hidx 1) as [c1 H1], (Hidx 2) as [c2 H2].
  rewrite H0, H1, H2. simpl. eexists. split; [done|]. split; [done|].
  intros [|[|[|j]]] Hj; simpl; [done|done|done|lia].
Qed.

Lemma spin_columns_spec self (stops : list nat) (k i : nat) (visible : list nat) h :
  i + k = length (virtual_reel_strips self) →
  length stops = length (virtual_reel_strips self) →
  Forall (λ strip, strip ≠ []) (virtual_reel_strips self) →
  ∃ cols,
    foldM (spin_column self stops) (visible, h) (seq i k)
    = Ok (visible ++ seq (length h) k, h ++ cols) ∧
    length cols = k ∧
    ∀ j strip start,
      virtual_reel_strips self !! (i + j) = Some strip →
      stops !! (i + j) = Some start →
      ∃ col, cols !! j = Some col ∧ reel_window strip start = Ok col.
Proof.
  intros Hik Hstops Hne. revert i visible h Hik.
  induction k as [|k IH]; intros i visible h Hik; simpl.
  - exists []. rewrite !app_nil_r. split; [done|]. split; [done|].
    intros j strip start Hstrip. apply lookup_lt_Some in Hstrip. lia.
  - unfold nat_index.
    destruct (lookup_lt_is_Some_2 (virtual_reel_strips self) i) as [strip Hstrip]; [lia|].
    destruct (lookup_lt_is_Some_2 stops i) as [start Hstart]; [lia|].
    rewrite Hstrip, Hstart. simpl.
    destruct (reel_window_spec strip start) as (col & Hcol & _).
    { exact (Forall_lookup_1 _ _ _ _ Hne Hstrip). }
    rewrite Hcol. simpl.
    destruct (IH (S i) (visible ++ [length h]) (h ++ [col])) as (cols & -> & Hlen & Hcols);
      [lia|].
    exists (col :: cols). rewrite length_app, Nat.add_1_r, <- !(assoc_L (++)). simpl.
    split; [done|]. split; [by rewrite Hlen|].
    intros [|j] strip' start' Hstrip' Hstart'.
    + rewrite Nat.add_0_r in Hstrip', Hstart'. simplify_eq. by exists col.
    + apply Hcols; by replace (S i + j)%nat with (i + S j)%nat by lia.
Qed.

(** X12.  When the simulator has one non-empty strip per reel, a spin
    draws one raw number per reel, in reel order, and returns a screen of new
    column objects, leaving the objects of the store as they are.  The
    column of reel [i] has three cells: the cells of the strip at the stop
    position, the draw modulo the length of the strip, and at the two
    positions after it, wrapping around the end of the strip. *)
Theorem spin_reels_screen self h gen :
  num_reels self = length (virtual_reel_strips self) →
  Forall (λ strip, strip ≠ []) (virtual_reel_strips self) →
  ∃ cols gen',
    _spin_reels self h gen = Ok (seq (length h) (num_reels self), h ++ cols, gen') ∧
    read_grid (h ++ cols) (seq (length h) (num_reels self)) = cols ∧
    length cols = num_reels self ∧
    (∀ k, gen' k = gen (num_reels self + k)) ∧
    ∀ i strip, virtual_reel_strips self !! i = Some strip →
      ∃ col, cols !! i = Some col ∧ length col = num_rows ∧
             ∀ j, j < num_rows →
                  col !! j = strip !! ((gen i + j) mod length strip).
Proof.
  intros Hreels Hne. unfold _spin_reels.
  destruct (draw_stops_spec _ gen Hne) as (stops & gen' & -> & Hlen & Hgen & Hstops).
  cbn [mbind result_bind].
  destruct (spin_columns_spec self stops (num_reels self) 0 [] h)
    as (cols & -> & Hcols & Hwin); [lia|done|done|].
  cbn [mbind result_bind app]. exists cols, gen'. split; [done|].
  split; [rewrite <- Hcols at 1; apply read_grid_fresh|].
  split; [done|]. split; [intros k; by rewrite Hgen, Hreels|].
  intros i strip Hstrip.
  destruct (Hwin i strip _ Hstrip (Hstops _ _ Hstrip)) as (col & Hcol & Hwindow).
  destruct (reel_window_spec strip (gen i mod length strip)) as (col' & Hcol' & Hl & Hcells).
  { exact (Forall_lookup_1 _ _ _ _ Hne Hstrip). }
  rewrite Hwindow in Hcol'. injection Hcol' as <-.
  exists col. split; [done|]. split; [done|].
  intros j Hj. rewrite (Hcells j Hj). by rewrite Nat.Div0.add_mod_idemp_l.
Qed.

End SpinningContents.

(** ** The order of the regular symbols *)

Section ExactOrder.
Variable qroot : Q → Q.
Local Abbreviation exact := (Q_num qroot).
Local Open Scope Q_scope.
Implicit Types (self : Simulator Q) (line : list string).

Lemma kept_among_bounds self line (syms : list string) (best : Q) key :
  kept_among (PyNum0 := exact) self line syms best key →
  (∀ S c raw, S ∈ syms →
     candidate self line S = Some (c, Num raw) → raw <= best) ∧
  match key with
  | None => best == 0
  | Some _ => 0 < best ∧
      ∃ S c, S ∈ syms ∧ candidate self line S = Some (c, Num best)
  end.
Proof.
  destruct key as [k|]; simpl.
  - intros (pre & S0 & post & c0 & -> & Hc0 & _ & Hpos & Hpre & Hpost).
    apply (exact_ltb_lt qroot) in Hpos. change (inject_Z 0) with 0 in Hpos.
    split; [|split; [done|]].
    + intros S c raw HS Hc.
      apply elem_of_app in HS as [HS|HS]; [|apply elem_of_cons in HS as [->|HS]].
      * specialize (Hpre _ _ _ HS Hc). apply (exact_ltb_lt qroot) in Hpre. lra.
      * rewrite Hc0 in Hc. injection Hc as _ <-. lra.
      * specialize (Hpost _ _ _ HS Hc). by apply (exact_ltb_ge qroot) in Hpost.
    + exists S0, c0. split; [|done]. apply elem_of_app. right. by left.
  - intros [-> Hnone]. split; [|done].
    intros S c raw HS Hc. specialize (Hnone _ _ _ HS Hc).
    by apply (exact_ltb_ge qroot) in Hnone.
Qed.

(** X13.  The regular symbols are kept in a set, whose order of iteration
    is not fixed.  In exact arithmetic the payout of a line does not depend
    on it: the loop of [_check_line_win] run over the regular symbols in any
    other order returns an equal payout, and names a combination exactly when
    the first does (the combination named may differ when two symbols pay the
    same). *)
Theorem line_payout_order_independent self line (syms : list string)
    (best best' : Q) (key key' : option string) :
  length line = num_reels self →
  (∀ S, S ∈ regular_symbols self → S ∉ scatter_symbols self) →
  regular_symbols self ≡ₚ syms →
  _check_line_win (PyNum0 := exact) self line = Ok (best, key) →
  foldM (check_symbol (PyNum0 := exact) self line) (inject_Z 0, None) syms
  = Ok (best', key') →
  best == best' ∧ (key = None ↔ key' = None).
Proof.
  intros Hlen Hreg Hperm Hwin Hwin'.
  apply check_line_win_keeps in Hwin; [|done|done].
  apply (check_symbols_keep qroot self line [] syms (inject_Z 0) None) in Hwin';
    [|done|intros S HS; apply Hreg; by rewrite Hperm| ].
  2:{ split; [done|]. intros S c raw HS. by apply not_elem_of_nil in HS. }
  unfold kept_combination in Hwin. simpl in Hwin'.
  apply kept_among_bounds in Hwin as [Hmax Hkey].
  apply kept_among_bounds in Hwin' as [Hmax' Hkey'].
  destruct key as [k|], key' as [k'|].
  - destruct Hkey as (_ & S & c & HS & Hc), Hkey' as (_ & S' & c' & HS' & Hc').
    rewrite Hperm in HS. rewrite <- Hperm in HS'.
    pose proof (Hmax' _ _ _ HS Hc). pose proof (Hmax _ _ _ HS' Hc').
    split; [lra|done].
  - destruct Hkey as (Hpos & S & c & HS & Hc). rewrite Hperm in HS.
    pose proof (Hmax' _ _ _ HS Hc). lra.
  - destruct Hkey' as (Hpos & S' & c' & HS' & Hc'). rewrite <- Hperm in HS'.
    pose proof (Hmax _ _ _ HS' Hc'). lra.
  - split; [lra|done].
Qed.

End ExactOrder.

(** ** The lines of the breakdown *)

Section BreakdownLines.
Context {N : Type} `{!PyNum N}.
Implicit Types (self : Simulator N) (items : list (option string * N)).

Lemma insert_desc_perm (item : option string * N) items :
  insert_desc item items ≡ₚ item :: items.
Proof.
  induction items as [|item' items IH]; simpl; [done|].
  destruct (num_ltb _ _); [|done]. rewrite IH. apply Permutation_swap.
Qed.

Lemma sorted_contributions_perm items : sorted_contributions items ≡ₚ items.
Proof.
  induction items as [|item items IH]; simpl; [done|].
  by rewrite insert_desc_perm, IH.
Qed.

Lemma insert_desc_sorted (xs : list N) (item : option string * N) items :
  comparable_amounts xs →
  item.2 ∈ xs → Forall (λ i, i.2 ∈ xs) items →
  StronglySorted (λ a b, (a.2 <? b.2)%num = false) items →
  StronglySorted (λ a b, (a.2 <? b.2)%num = false) (insert_desc item items).
Proof.
  intros Hcmp Hitem Hitems Hsorted.
  induction Hsorted as [|item' items Hsorted IH Hall]; simpl.
  - by repeat constructor.
  - apply Forall_cons in Hitems as [Hitem' Hitems].
    pose proof (proj1 (Forall_forall _ _) Hcmp) as Hx.
    destruct (num_ltb item.2 item'.2) eqn:Hlt.
    + constructor; [by apply IH|].
      rewrite insert_desc_perm. constructor; [|done].
      pose proof (proj1 (Forall_forall _ _) (Hx _ Hitem) _ Hitem') as [Hasym _].
      by apply Hasym.
    + constructor; [by constructor|]. constructor; [done|].
      apply Forall_forall. intros z Hz.
      pose proof (proj1 (Forall_forall _ _) (Hx _ Hitem) _ Hitem') as [_ Htrans].
      apply (proj1 (Forall_forall _ _) Htrans); [|done|].
      * exact (proj1 (Forall_forall _ _) Hitems _ Hz).
      * exact (proj1 (Forall_forall _ _) Hall _ Hz).
Qed.

Lemma sorted_contributions_sorted (xs : list N) items :
  comparable_amounts xs → Forall (λ i, i.2 ∈ xs) items →
  StronglySorted (λ a b, (a.2 <? b.2)%num = false) (sorted_contributions items).
Proof.
  intros Hcmp. induction items as [|item items IH]; intros Hitems; simpl; [constructor|].
  apply Forall_cons in Hitems as [Hitem Hitems].
  apply (insert_desc_sorted xs); [done|done| |by apply IH].
  by rewrite sorted_contributions_perm.
Qed.

Lemma breakdown_fold self (n : Z) items (printed : list (option string * N * N)) :
  num_is_zero (of_Z n * total_bet_per_spin self)%num = false →
  foldM (breakdown_line self n) printed items
  = Ok (printed ++
        map (λ item, (item.1, item.2,
                      (num_quot item.2 (of_Z n * total_bet_per_spin self) * of_Z 100)%num))
            (filter (λ item,
                       (print_threshold
                        <? num_quot item.2 (of_Z n * total_bet_per_spin self) * of_Z 100)%num
                       = true) items)).
Proof.
  intros Hbet. revert printed.
  induction items as [|[combo x] items IH]; intros printed; simpl.
  - by rewrite app_nil_r.
  - unfold py_div. rewrite Hbet. cbn [mbind result_bind].
    rewrite filter_cons. cbn [fst snd].
    destruct (num_ltb print_threshold _) eqn:Hshare.
    + rewrite decide_True by done. cbn [mbind result_bind].
      rewrite IH, <- (assoc_L (++)). done.
    + rewrite decide_False by done. cbn [mbind result_bind]. apply IH.
Qed.

(** X16.  In any arithmetic, binary64 included, and when the number of
    spins times the total bet is not zero, the breakdown lists exactly the
    ledger entries whose share, computed as
    [amount / (spins * total bet) * 100], compares greater than [0.0001],
    each with that share.  When the amounts are comparable (as numbers other
    than NaN are), no line is followed by a line of greater amount. *)
Theorem contribution_breakdown_spec self (n : Z) items :
  num_is_zero (of_Z n * total_bet_per_spin self)%num = false →
  ∃ lines,
    contribution_breakdown self n items = Ok lines ∧
    (∀ combo x p,
       (combo, x, p) ∈ lines ↔
       (combo, x) ∈ items ∧
       p = (num_quot x (of_Z n * total_bet_per_spin self) * of_Z 100)%num ∧
       (print_threshold <? p)%num = true) ∧
    (comparable_amounts (map snd items) →
     StronglySorted (λ a b, (a.1.2 <? b.1.2)%num = false) lines).
Proof.
  intros Hbet. unfold contribution_breakdown. rewrite breakdown_fold by done.
  eexists. split; [done|]. cbn [app]. split.
  - intros combo x p. rewrite list_elem_of_fmap. split.
    + intros ([combo' x'] & [= -> -> ->] & Hin). cbn [fst snd] in *.
      apply list_elem_of_filter in Hin as [Hshare Hin]. cbn [fst snd] in Hshare.
      rewrite sorted_contributions_perm in Hin. done.
    + intros (Hin & -> & Hshare). exists (combo, x). split; [done|].
      apply list_elem_of_filter. split; [done|].
      by rewrite sorted_contributions_perm.
  - intros Hcmp.
    assert (Hsorted : StronglySorted (λ a b, (a.2 <? b.2)%num = false)
                        (sorted_contributions items)).
    { apply (sorted_contributions_sorted (map snd items)); [done|].
      apply Forall_forall. intros item Hitem. apply list_elem_of_fmap. by exists item. }
    induction Hsorted as [|item l Hl IH Hall]; [constructor|].
    rewrite filter_cons. destruct (decide _); [|done].
    cbn [map]. constructor; [done|].
    apply Forall_forall. intros [[combo x] p] Hin.
    apply list_elem_of_fmap in Hin as ([combo' x'] & [= -> -> ->] & Hin).
    apply list_elem_of_filter in Hin as [_ Hin]. cbn [fst snd].
    exact (proj1 (Forall_forall _ _) Hall _ Hin).
Qed.

End BreakdownLines.

(** ** What a line win names, in any arithmetic *)

Lemma foldM_invariant_in {A B} (f : B → A → result B) (I : B → Prop)
    (xs : list A) (acc r : B) :
  I acc → (∀ b x b', x ∈ xs → I b → f b x = Ok b' → I b') →
  foldM f acc xs = Ok r → I r.
Proof.
  revert acc. induction xs as [|x xs IH]; intros acc Hacc Hstep; simpl.
  - by intros [= <-].
  - intros (b & Hb & Hrest)%bind_Ok. eapply IH; [|  |exact Hrest].
    + eapply Hstep; [by left|exact Hacc|exact Hb].
    + intros b0 y b' Hy. apply Hstep. by right.
Qed.

Section NamedCombination.
Context {N : Type} `{!PyNum N}.
Implicit Types (self : Simulator N) (line : list string).

(** X17.  In any arithmetic, binary64 included, a line win that names a
    combination names a regular symbol [S] and a count [c], from the minimum
    of [S] to the number of reels, as ["S xc"], and its payout is the line
    pay of [(S, c)], unchanged; the first [c] cells of the line each hold [S]
    or the wild symbol.  A line win that names none has the payout zero. *)
Theorem line_win_names_a_line_pay self line (best : N) (key : option string) :
  length line = num_reels self →
  (∀ S, S ∈ regular_symbols self → S ∉ scatter_symbols self) →
  _check_line_win self line = Ok (best, key) →
  match key with
  | None => best = of_Z 0
  | Some k =>
      ∃ S c, S ∈ regular_symbols self ∧ k = S +:+ " x" +:+ pretty c ∧
             line_pays self !! (S, c) = Some (Num best) ∧
             min_match S ≤ c ≤ num_reels self ∧
             ∀ cell, cell ∈ take c line → cell = S ∨ cell = wild_symbol self
  end.
Proof.
  intros Hlen Hreg. unfold _check_line_win.
  apply (foldM_invariant_in (check_symbol self line)
           (λ acc, match acc.2 with
                   | None => acc.1 = of_Z 0
                   | Some k =>
                       ∃ S c, S ∈ regular_symbols self ∧ k = S +:+ " x" +:+ pretty c ∧
                              line_pays self !! (S, c) = Some (Num acc.1) ∧
                              min_match S ≤ c ≤ num_reels self ∧
                              ∀ cell, cell ∈ take c line →
                                      cell = S ∨ cell = wild_symbol self
                   end)); [done|].
  intros [best0 key0] target [best1 key1] Htarget Hinv.
  rewrite check_symbol_candidate by auto. unfold candidate.
  destruct (first_paying_count _ _ _ _) as [[c raw]|] eqn:Hfirst;
    [|by intros [= <- <-]].
  apply first_paying_count_Some in Hfirst as (Hc & Hraw & _).
  destruct raw as [raw|s]; [|done]. simpl.
  destruct (num_ltb best0 raw); [|by intros [= <- <-]].
  intros [= <- <-]. simpl. exists target, c.
  split; [done|]. split; [done|]. split; [done|].
  assert (Hrun : leading_run (matches_or_wild (wild_symbol self) target) line
                 ≤ length line).
  { clear. induction line as [|cell line IH]; simpl; [lia|].
    destruct (matches_or_wild _ _ _); lia. }
  split; [lia|].
  intros cell Hcell. destruct Hc as [_ Hc]. clear -Hcell Hc.
  revert c Hcell Hc. induction line as [|cell0 line IH]; intros c Hcell Hc.
  - rewrite take_nil in Hcell. by apply not_elem_of_nil in Hcell.
  - destruct c as [|c]; [by apply not_elem_of_nil in Hcell|]. simpl in Hcell, Hc.
    destruct (matches_or_wild (wild_symbol self) target cell0) eqn:Hm; [|lia].
    apply elem_of_cons in Hcell as [->|Hcell].
    + unfold matches_or_wild in Hm. by apply bool_decide_eq_true in Hm.
    + apply (IH c); [done|lia].
Qed.

End NamedCombination.

(** ** Spins that are not winning *)

Section NotWinning.
Context {N : Type} `{!PyNum N}.
Implicit Types (self : Simulator N).

(** X18.  A spin that is not counted as winning has the payout zero and
    leaves the ledger as it was: the winning flag is set by every credit. *)
Theorem losing_spin_changes_nothing self (h h' : list (list string)) (g : list nat)
    (ledger : gmap (option string) N) (st : spin_state N) :
  _calculate_spin_payout self h g ledger = Ok (st, h') →
  is_winning_spin st = false →
  current_spin_payout st = of_Z 0 ∧ payout_contributions st = ledger.
Proof.
  unfold _calculate_spin_payout.
  destruct (_apply_expanding_wilds self h g) as [[expanded h1]|]; [|done]. simpl.
  intros (st3 & Hscore & [= <- <-])%bind_Ok.
  rewrite score_screens_events in Hscore.
  apply bind_Ok in Hscore as (evs & _ & [= <-]).
  rewrite apply_events_winning. destruct evs as [|ev evs]; [|done]. done.
Qed.

End NotWinning.

(** ** The properties at work on concrete simulators *)

Lemma apply_expanding_wilds_python_indices_witness :
  let self : Simulator float := wild_reels_self [0; 3]%Z in
  ∃ g' h',
    _apply_expanding_wilds self edge_heap demo_grid = Ok (g', h') ∧
    (∀ l, l < length edge_heap → h' !! l = edge_heap !! l) ∧
    ∀ i col, read_grid edge_heap demo_grid !! i = Some col →
      read_grid h' g' !! i
      = Some (if bool_decide ((Z.of_nat i ∈ wild_reels self
                               ∨ (Z.of_nat i - Z.of_nat (length demo_grid))%Z
                                 ∈ wild_reels self)
                              ∧ wild_symbol self ∈ col)
              then replicate num_rows (wild_symbol self)
              else col).
Proof.
  apply (apply_expanding_wilds_python_indices (wild_reels_self [0; 3]%Z) edge_heap demo_grid).
  - unfold screen_in_store, demo_grid, edge_heap.
    repeat (apply Forall_cons_2; [split; [simpl; lia|reflexivity]|]). apply Forall_nil_2.
  - unfold valid_index. simpl.
    repeat (apply Forall_cons_2; [lia|]). apply Forall_nil_2.
Defined.

(** The configured wild reels 0 and 3: the last and the third reel expand. *)
Example expand_last_reel :
  let self : Simulator float := wild_reels_self [0; 3]%Z in
  ('(g', h') ← _apply_expanding_wilds self edge_heap demo_grid; Ok (read_grid h' g'))
  = Ok [ ["Wild"; "Bell"; "Seven"];
         ["Bell"; "Bell"; "Bell"];
         ["Wild"; "Wild"; "Wild"];
         ["Bell"; "Seven"; "Bell"];
         ["Wild"; "Wild"; "Wild"] ].
Proof. vm_compute. reflexivity. Qed.

Lemma apply_expanding_wilds_index_error_witness :
  let self : Simulator float := wild_reels_self [2; 6]%Z in
  _apply_expanding_wilds self edge_heap demo_grid = Raise IndexError ∧
  ∀ ledger, _calculate_spin_payout self edge_heap demo_grid ledger = Raise IndexError.
Proof.
  apply (apply_expanding_wilds_index_error (wild_reels_self [2; 6]%Z) edge_heap demo_grid).
  - unfold screen_in_store, demo_grid, edge_heap.
    repeat (apply Forall_cons_2; [split; [simpl; lia|reflexivity]|]). apply Forall_nil_2.
  - apply Exists_cons_tl, Exists_cons_hd. unfold valid_index. simpl. lia.
Defined.

Lemma apply_expanding_wilds_twice_witness :
  ∃ g1 h1 g2 h2,
    _apply_expanding_wilds demo_float demo_heap demo_grid = Ok (g1, h1) ∧
    _apply_expanding_wilds demo_float h1 g1 = Ok (g2, h2) ∧
    read_grid h2 g2 = read_grid h1 g1 ∧
    read_grid h2 g1 = read_grid h1 g1 ∧
    ∀ reel row cell,
      read_grid h1 g1 !! reel ≫= (λ col, col !! row) = Some cell →
      cell = wild_symbol demo_float ∨
      read_grid demo_heap demo_grid !! reel ≫= (λ col, col !! row) = Some cell.
Proof.
  apply (apply_expanding_wilds_twice demo_float demo_heap demo_grid).
  - unfold screen_in_store, demo_grid, demo_heap.
    repeat (apply Forall_cons_2; [split; [simpl; lia|reflexivity]|]). apply Forall_nil_2.
  - unfold reels_in_range. simpl.
    repeat (apply Forall_cons_2; [lia|]). apply Forall_nil_2.
Defined.

Lemma parse_paytable_contents_witness :
  let paytable := c_paytable (BASE_GAME_CONFIG (N := float) demo_strips) in
  let scatters := ["DollarScatter"; "StarScatter"] in
  _parse_paytable paytable "Wild" scatters
  = fold_left (parse_entry "Wild" scatters) paytable (∅, ∅, []) ∧
  parsed_as paytable "Wild" scatters (_parse_paytable paytable "Wild" scatters).
Proof.
  apply (parse_paytable_contents (c_paytable (BASE_GAME_CONFIG (N := float) demo_strips))).
  - apply (bool_decide_unpack _). vm_compute. reflexivity.
  - unfold plain_keys, plain_key. apply (bool_decide_unpack _). vm_compute. reflexivity.
Defined.

Lemma digit_entries_last_witness :
  digit_entries twice_three !! 3 = Some (Num 250%float) ↔
  ∃ pre k post,
    twice_three = pre ++ (k, Num 250%float) :: post ∧
    isdigit k = true ∧ int_of_digits k = 3 ∧
    ∀ k' v', (k', v') ∈ post → isdigit k' = true → int_of_digits k' ≠ 3.
Proof.
  apply (digit_entries_last twice_three 3 (Num 250%float)).
  unfold plain_key. apply (bool_decide_unpack _). vm_compute. reflexivity.
Defined.

(** Of the fields ["3"] and ["03"] the later one is kept. *)
Example digit_entries_twice_three :
  digit_entries twice_three !! 3 = Some (Num 250%float) ∧
  digit_entries twice_three !! 4 = Some (Num 400%float).
Proof. split; vm_compute; reflexivity. Qed.

Lemma unreachable_line_pays_witness :
  (∀ v line,
     _check_line_win
       (with_line_pays demo_float (<[("Bell", 2) := v]> (line_pays demo_float))) line
     = _check_line_win demo_float line) ∧
  (∀ v (h : list (list string)) (g : list nat) ledger,
     _calculate_spin_payout
       (with_line_pays demo_float (<[("Bell", 2) := v]> (line_pays demo_float))) h g ledger
     = _calculate_spin_payout demo_float h g ledger) ∧
  (∀ (h : list (list string)) (g : list nat) ledger,
     _calculate_spin_payout
       (with_line_pays demo_float (delete ("Bell", 2) (line_pays demo_float))) h g ledger
     = _calculate_spin_payout demo_float h g ledger).
Proof.
  apply (unreachable_line_pays demo_float "Bell" 2).
  left. unfold min_match. simpl. lia.
Defined.

Lemma ledger_has_no_nameless_entry_witness :
  (∀ (h h' : list (list string)) (g : list nat) ledger (st : spin_state float),
     ledger !! None = None →
     _calculate_spin_payout demo_float h g ledger = Ok (st, h') →
     payout_contributions st !! None = None) ∧
  (∀ num_spins (gen : nat → nat) r,
     run_simulation demo_float num_spins gen = Ok r → r_contributions r !! None = None).
Proof. apply (ledger_has_no_nameless_entry demo_float). reflexivity. Defined.

Lemma spin_reels_screen_witness :
  ∃ cols gen',
    _spin_reels demo_float [] (λ k, 2 * k + 1)
    = Ok (seq 0 (num_reels demo_float), [] ++ cols, gen') ∧
    read_grid ([] ++ cols) (seq 0 (num_reels demo_float)) = cols ∧
    length cols = num_reels demo_float ∧
    (∀ k, gen' k = 2 * (num_reels demo_float + k) + 1) ∧
    ∀ i strip, virtual_reel_strips demo_float !! i = Some strip →
      ∃ col, cols !! i = Some col ∧ length col = num_rows ∧
             ∀ j, j < num_rows →
                  col !! j = strip !! ((2 * i + 1 + j) mod length strip).
Proof.
  apply (spin_reels_screen demo_float [] (λ k, 2 * k + 1)).
  - reflexivity.
  - simpl. unfold demo_strips. repeat (apply Forall_cons_2; [discriminate|]). apply Forall_nil_2.
Defined.

Lemma line_payout_order_independent_witness :
  (500 == 500)%Q ∧ (Some "Seven x3" = None ↔ Some "Seven x3" = None).
Proof.
  apply (line_payout_order_independent (λ x, x) demo_exact demo_line
           (reverse (regular_symbols demo_exact)) 500%Q 500%Q).
  - reflexivity.
  - apply Forall_forall. apply (bool_decide_unpack _). vm_compute. reflexivity.
  - symmetry. apply reverse_Permutation.
  - vm_compute. reflexivity.
  - vm_compute. reflexivity.
Defined.

Lemma contribution_breakdown_spec_witness :
  ∃ lines,
    contribution_breakdown demo_float 100 demo_items = Ok lines ∧
    (∀ combo x p,
       (combo, x, p) ∈ lines ↔
       (combo, x) ∈ demo_items ∧
       p = (num_quot x (of_Z 100 * total_bet_per_spin demo_float) * of_Z 100)%num ∧
       (print_threshold <? p)%num = true) ∧
    (comparable_amounts (map snd demo_items) →
     StronglySorted (λ a b, (a.1.2 <? b.1.2)%num = false) lines).
Proof.
  apply (contribution_breakdown_spec demo_float 100 demo_items).
  reflexivity.
Defined.

(** The breakdown of [demo_items] after a hundred spins at a total bet of
    10, in binary64: the entry of amount zero is left out, and the two
    entries of amount 40 stay in the order of the ledger. *)
Example breakdown_demo :
  contribution_breakdown demo_float 100 demo_items
  = Ok [ (Some "Seven x3", 100, 10); (Some "Bell x3", 40, 4);
         (Some "Plum x3", 40, 4) ]%float ∧
  comparable_amounts (map snd demo_items).
Proof.
  split; [vm_compute; reflexivity|].
  apply (bool_decide_unpack _). vm_compute. reflexivity.
Qed.

Lemma line_win_names_a_line_pay_witness :
  ∃ S c, S ∈ regular_symbols demo_float ∧ "Seven x3" = S +:+ " x" +:+ pretty c ∧
         line_pays demo_float !! (S, c) = Some (Num 500%float) ∧
         min_match S ≤ c ≤ num_reels demo_float ∧
         ∀ cell, cell ∈ take c demo_line → cell = S ∨ cell = wild_symbol demo_float.
Proof.
  apply (line_win_names_a_line_pay demo_float demo_line 500%float (Some "Seven x3")).
  - reflexivity.
  - apply Forall_forall. apply (bool_decide_unpack _). vm_compute. reflexivity.
  - vm_compute. reflexivity.
Defined.

Lemma losing_spin_changes_nothing_witness :
  current_spin_payout (spin_start (N := float) ∅) = of_Z 0 ∧
  payout_contributions (spin_start (N := float) ∅) = ∅.
Proof.
  apply (losing_spin_changes_nothing demo_float losing_heap
           (losing_heap ++ losing_heap) demo_grid ∅ (spin_start ∅)).
  - vm_compute. reflexivity.
  - reflexivity.
Defined.
